(** * Documentation validator ([scripts/docs/validate_docs.py])

    A shallow embedding of the validation engine of the documentation
    checker, and the proofs of the properties its specification states.

    Conventions of the embedding.

    - A Python [str] is a [string]; each [ascii] stands for one code point in
      the range 0..255, and the character classes below ([isspace], [isword],
      [lower_char], [is_linebreak]) are the ones Python 3 uses for these code
      points ([str.isspace] and [\s], [\w], [str.lower], [str.splitlines]).
      Text with code points above 255 is outside the model.
    - A [pathlib.Path] is an absolute POSIX path: the list of its components
      below the root.  The file system has no symbolic links, so
      [Path.resolve] only removes [..] components.
    - A [dict] is a [gmap], a [set] is a [gset]; the parsed metadata values
      are a tagged variant (string, boolean, list of scalars).
    - A loop is a fold or a recursion over the list it traverses, with its
      variables as the explicit state; a function that can raise returns an
      [option], [None] being the exception. *)

From Stdlib Require Import ZArith Ascii String List Lia Bool.
From stdpp Require Import base option list gmap strings pretty sorting.

Local Open Scope Z_scope.
Local Open Scope nat_scope.

(** ** Characters and strings *)

Module Py.

Definition chars (s : string) : list ascii := list_ascii_of_string s.
Definition text (l : list ascii) : string := string_of_list_ascii l.

Definition code (c : ascii) : nat := nat_of_ascii c.

Definition in_range (lo hi : nat) (c : ascii) : bool :=
  (lo <=? code c) && (code c <=? hi).

(** [str.isspace], which is also the class [\s] of a [str] pattern. *)
Definition isspace (c : ascii) : bool :=
  in_range 9 13 c || in_range 28 32 c || (code c =? 133) || (code c =? 160).

(** The line boundaries of [str.splitlines]. *)
Definition is_linebreak (c : ascii) : bool :=
  in_range 10 13 c || in_range 28 30 c || (code c =? 133).

Definition is_upper_ascii (c : ascii) : bool := in_range 65 90 c.
Definition is_lower_ascii (c : ascii) : bool := in_range 97 122 c.
Definition is_digit (c : ascii) : bool := in_range 48 57 c.
Definition is_alpha_ascii (c : ascii) : bool :=
  is_upper_ascii c || is_lower_ascii c.

(** The class [\w] of a [str] pattern. *)
Definition isword (c : ascii) : bool :=
  is_alpha_ascii c || is_digit c || (code c =? 95)
  || (code c =? 170) || in_range 178 179 c || (code c =? 181)
  || in_range 185 186 c || in_range 188 190 c
  || in_range 192 214 c || in_range 216 246 c || in_range 248 255 c.

(** [str.lower] on one code point. *)
Definition lower_char (c : ascii) : ascii :=
  if is_upper_ascii c || in_range 192 214 c || in_range 216 222 c
  then ascii_of_nat (code c + 32) else c.

Definition lower (l : list ascii) : list ascii := map lower_char l.

Definition ch_eqb (a b : ascii) : bool := Ascii.eqb a b.

(** [str.lstrip()], [str.rstrip()] and [str.strip()]. *)
Fixpoint lstrip (l : list ascii) : list ascii :=
  match l with
  | c :: l' => if isspace c then lstrip l' else l
  | [] => []
  end.
Fixpoint rstrip (l : list ascii) : list ascii :=
  match l with
  | c :: l' =>
      match rstrip l' with
      | [] => if isspace c then [] else [c]
      | r => c :: r
      end
  | [] => []
  end.
Definition strip (l : list ascii) : list ascii := rstrip (lstrip l).

(** [str.lstrip(ch)] and [str.strip(ch)] for a single character [ch]. *)
Fixpoint lstrip_ch (ch : ascii) (l : list ascii) : list ascii :=
  match l with
  | c :: l' => if ch_eqb c ch then lstrip_ch ch l' else l
  | [] => []
  end.
Fixpoint rstrip_ch (ch : ascii) (l : list ascii) : list ascii :=
  match l with
  | c :: l' =>
      match rstrip_ch ch l' with
      | [] => if ch_eqb c ch then [] else [c]
      | r => c :: r
      end
  | [] => []
  end.
Definition strip_ch (ch : ascii) (l : list ascii) : list ascii :=
  rstrip_ch ch (lstrip_ch ch l).

(** [s.startswith(p)] and [s.endswith(p)]. *)
Fixpoint startswith (p l : list ascii) : bool :=
  match p, l with
  | [], _ => true
  | a :: p', b :: l' => ch_eqb a b && startswith p' l'
  | _ :: _, [] => false
  end.
Definition endswith (p l : list ascii) : bool := startswith (rev p) (rev l).

(** [ch in s]. *)
Definition contains (ch : ascii) (l : list ascii) : bool :=
  existsb (ch_eqb ch) l.

(** The longest prefix of characters satisfying [p], and the rest. *)
Fixpoint span (p : ascii -> bool) (l : list ascii) : list ascii * list ascii :=
  match l with
  | c :: l' =>
      if p c then let '(a, b) := span p l' in (c :: a, b) else ([], l)
  | [] => ([], [])
  end.

(** [s.partition(ch)]: the text before the first [ch], whether there is
    one, and the text after it. *)
Definition partition (ch : ascii) (l : list ascii)
  : list ascii * bool * list ascii :=
  let '(a, b) := span (fun c => negb (ch_eqb c ch)) l in
  match b with
  | _ :: b' => (a, true, b')
  | [] => (a, false, [])
  end.

(** [s.split(ch)]: the pieces between the occurrences of [ch]. *)
Fixpoint split_go (ch : ascii) (cur : list ascii) (l : list ascii)
  : list (list ascii) :=
  match l with
  | [] => [rev cur]
  | c :: l' =>
      if ch_eqb c ch then rev cur :: split_go ch [] l'
      else split_go ch (c :: cur) l'
  end.
Definition split (ch : ascii) (l : list ascii) : list (list ascii) :=
  split_go ch [] l.

(** [str.splitlines()]: [\r\n] is one boundary, and no empty last line is
    produced after a final boundary. *)
Fixpoint splitlines_go (cur : list ascii) (l : list ascii)
  : list (list ascii) :=
  match l with
  | [] => match cur with [] => [] | _ => [rev cur] end
  | c :: l' =>
      if is_linebreak c then
        match l' with
        | d :: l'' =>
            if (code c =? 13) && (code d =? 10)
            then rev cur :: splitlines_go [] l''
            else rev cur :: splitlines_go [] l'
        | [] => [rev cur]
        end
      else splitlines_go (c :: cur) l'
  end.
Definition splitlines (l : list ascii) : list (list ascii) :=
  splitlines_go [] l.

(** [sep.join(parts)]. *)
Fixpoint join (sep : list ascii) (parts : list (list ascii)) : list ascii :=
  match parts with
  | [] => []
  | [p] => p
  | p :: rest => p ++ sep ++ join sep rest
  end.

Definition nl : ascii := ascii_of_nat 10.

(** [str(n)] for an integer. *)
Definition str_nat (n : nat) : string := pretty n.
Definition str_Z (z : Z) : string := pretty z.

End Py.


(** ** Data model *)

(** Paths: the components below the root of an absolute POSIX path. *)
Definition Path := list string.

(** The records of the source.  Two records cannot share a field name: the
    field [path] of [Problem] is [path_of], the field [line] of [LinkRef] is
    [link_line], and the field [text] of [DocRecord] is [doc_text]. *)

Record Problem := mkProblem {
  check : string;
  path_of : string;
  message : string;
  line : option nat
}.

Record LinkRef := mkLinkRef {
  target : string;
  link_line : nat
}.

(** Parsed metadata values: what [parse_scalar] returns, and lists of them. *)
Inductive scalar :=
  | SStr (s : string)
  | SBool (b : bool).

Inductive value :=
  | VScalar (v : scalar)
  | VList (items : list scalar).

Record DocRecord := mkDocRecord {
  path : Path;
  rel_path : string;
  doc_text : string;
  frontmatter : gmap string value;
  body : string;
  headings : list string;
  anchors : gset string;
  links : list LinkRef
}.

#[global] Instance scalar_eq_dec : EqDecision scalar.
Proof. solve_decision. Defined.
#[global] Instance value_eq_dec : EqDecision value.
Proof. solve_decision. Defined.
#[global] Instance Problem_eq_dec : EqDecision Problem.
Proof. solve_decision. Defined.
#[global] Instance LinkRef_eq_dec : EqDecision LinkRef.
Proof. solve_decision. Defined.

(** ** The patterns

    Every pattern is applied to a single line or to one field, which holds no
    line boundary; there [.] matches every character and [$] only the end of
    the text.  Each pattern below has one way to match at most (a greedy
    class is always followed by a character outside it), so the matchers are
    deterministic scans. *)

Module Re.
Import Py.

Definition backtick : ascii := ascii_of_nat 96.
Definition hyphen : ascii := ascii_of_nat 45.
Definition hash : ascii := ascii_of_nat 35.
Definition colon : ascii := ascii_of_nat 58.
Definition underscore : ascii := ascii_of_nat 95.

(** [[A-Za-z0-9_-]] *)
Definition is_key_char (c : ascii) : bool :=
  is_alpha_ascii c || is_digit c || ch_eqb c underscore || ch_eqb c hyphen.

(** [FENCE_RE]: three backticks, the group [lang] (any number of key
    characters), then spaces only up to the end.  The result is [lang]. *)
Definition FENCE_RE (l : list ascii) : option (list ascii) :=
  match l with
  | a :: b :: c :: rest =>
      if ch_eqb a backtick && ch_eqb b backtick && ch_eqb c backtick then
        let '(lang, tail) := span is_key_char rest in
        if forallb isspace tail then Some lang else None
      else None
  | _ => None
  end.

(** [HEADER_RE]: one to six hashes (group 1), one space or more, then the
    rest of the line (group 2).  The result is the two groups. *)
Definition HEADER_RE (l : list ascii) : option (list ascii * list ascii) :=
  let '(hashes, rest) := span (fun c => ch_eqb c hash) l in
  if (1 <=? length hashes) && (length hashes <=? 6) then
    match rest with
    | c :: _ => if isspace c then Some (hashes, lstrip rest) else None
    | [] => None
    end
  else None.

(** [SCHEME_RE]: an ASCII letter, any number of ASCII letters, digits,
    plus, dot or hyphen, then a colon. *)
Definition is_scheme_char (c : ascii) : bool :=
  is_alpha_ascii c || is_digit c
  || (code c =? 43) || (code c =? 46) || (code c =? 45).
Definition SCHEME_RE (l : list ascii) : bool :=
  match l with
  | c :: rest =>
      is_alpha_ascii c &&
      match snd (span is_scheme_char rest) with
      | d :: _ => ch_eqb d colon
      | [] => false
      end
  | [] => false
  end.

(** One match of the link pattern at the start of [l]: an opening square
    bracket, one character or more other than the closing square bracket,
    that bracket, an opening parenthesis, group 1 (one character or more
    other than the closing parenthesis) and that parenthesis.  The result
    is group 1 and the length of the match. *)
Definition link_at (l : list ascii) : option (list ascii * nat) :=
  match l with
  | o :: r =>
      if code o =? 91 then
        let '(label, r1) := span (fun c => negb (code c =? 93)) r in
        match label, r1 with
        | _ :: _, _ :: p :: r2 =>
            if code p =? 40 then
              let '(tgt, r3) := span (fun c => negb (code c =? 41)) r2 in
              match tgt, r3 with
              | _ :: _, _ :: _ =>
                  Some (tgt, 1 + length label + 2 + length tgt + 1)
              | _, _ => None
              end
            else None
        | _, _ => None
        end
      else None
  | [] => None
  end.

(** [MARKDOWN_LINK_RE.finditer]: the group 1 of the successive matches,
    scanning from the left, of the link pattern not preceded by an
    exclamation mark.  [after_bang] says that the previous character is
    one; [skip] counts the characters of the last match still to pass. *)
Fixpoint finditer (after_bang : bool) (skip : nat) (l : list ascii)
  : list (list ascii) :=
  match l with
  | [] => []
  | c :: l' =>
      let bang := code c =? 33 in
      match skip with
      | S k => finditer bang k l'
      | 0 =>
          if after_bang then finditer bang 0 l'
          else match link_at l with
               | Some (tgt, n) => tgt :: finditer bang (n - 1) l'
               | None => finditer bang 0 l'
               end
      end
  end.
Definition MARKDOWN_LINK_RE (l : list ascii) : list (list ascii) :=
  finditer false 0 l.

(** [re.sub] deleting every character that is not a word character, a
    space or a hyphen. *)
Definition drop_punct (l : list ascii) : list ascii :=
  List.filter (fun c => isword c || isspace c || ch_eqb c hyphen) l.

(** [re.sub] of the runs of spaces: every maximal run becomes [r].
    [in_run] says that the previous character is a space. *)
Fixpoint sub_spaces (r : ascii) (in_run : bool) (l : list ascii)
  : list ascii :=
  match l with
  | [] => []
  | c :: l' =>
      if isspace c then
        if in_run then sub_spaces r true l' else r :: sub_spaces r true l'
      else c :: sub_spaces r false l'
  end.

(** [re.sub] of the runs of hyphens: every run of two hyphens or more
    becomes one hyphen.  [in_run] says that the previous character is a hyphen. *)
Fixpoint squeeze_hyphens (in_run : bool) (l : list ascii) : list ascii :=
  match l with
  | [] => []
  | c :: l' =>
      if ch_eqb c hyphen then
        if in_run then squeeze_hyphens true l'
        else c :: squeeze_hyphens true l'
      else c :: squeeze_hyphens false l'
  end.

End Re.

(** ** Structure extractor *)

Definition slug_chars (l : list ascii) : list ascii :=
  let value := Py.lower (Py.strip l) in
  let value := List.filter (fun c => negb (Py.ch_eqb c Re.backtick)) value in
  let value := Re.drop_punct value in
  let value := Re.sub_spaces Re.hyphen false value in
  let value := Re.squeeze_hyphens false value in
  Py.strip_ch Re.hyphen value.

Definition slugify_heading (text : string) : string :=
  Py.text (slug_chars (Py.chars text)).

Definition is_fence (l : list ascii) : bool :=
  match Re.FENCE_RE l with Some _ => true | None => false end.

(** The heading text of a line that matches [HEADER_RE]: [m.group(2).strip()]. *)
Definition heading_text (l : list ascii) : option string :=
  match Re.HEADER_RE l with
  | Some (_, g2) => Some (Py.text (Py.strip g2))
  | None => None
  end.

(** The anchor given to a heading of slug [base], from the number of
    earlier headings of the same slug. *)
Definition anchor_of (base : string) (count : nat) : string :=
  if count =? 0 then base else base +:+ "-" +:+ Py.str_nat count.

Record HeadingState := mkHeadingState {
  hs_headings : list string;
  hs_anchors : gset string;
  hs_counts : gmap string nat;
  hs_in_fence : bool
}.

Definition heading_init : HeadingState :=
  mkHeadingState [] ∅ ∅ false.

(** The variable [anchor] of the loop for a heading of text [text], when
    the loop reaches its assignment: a heading whose slug is empty leaves
    the loop body before. *)
Definition new_anchor (counts : gmap string nat) (text : string)
  : option string :=
  let base := slugify_heading text in
  if String.eqb base "" then None
  else Some (anchor_of base (default 0 (counts !! base))).

(** One turn of the loop of [extract_headings_and_anchors]. *)
Definition heading_step (st : HeadingState) (l : list ascii) : HeadingState :=
  if is_fence l then
    mkHeadingState (hs_headings st) (hs_anchors st) (hs_counts st)
      (negb (hs_in_fence st))
  else if hs_in_fence st then st
  else match heading_text l with
       | None => st
       | Some text =>
           let hs := hs_headings st ++ [text] in
           let base := slugify_heading text in
           match new_anchor (hs_counts st) text with
           | None =>
               mkHeadingState hs (hs_anchors st) (hs_counts st) (hs_in_fence st)
           | Some anchor =>
               let count := default 0 (hs_counts st !! base) in
               mkHeadingState hs
                 ({[ anchor ]} ∪ hs_anchors st)
                 (<[ base := S count ]> (hs_counts st))
                 (hs_in_fence st)
           end
       end.

Definition heading_loop (lines : list (list ascii)) (st : HeadingState)
  : HeadingState := fold_left heading_step lines st.

Definition body_lines (body : string) : list (list ascii) :=
  Py.splitlines (Py.chars body).

Definition extract_headings_and_anchors (body : string)
  : list string * gset string :=
  let st := heading_loop (body_lines body) heading_init in
  (hs_headings st, hs_anchors st).

(** The target of one match, after the title and the angle brackets are
    taken off. *)
Definition clean_target (g1 : list ascii) : list ascii :=
  let target := Py.strip g1 in
  let lt := ascii_of_nat 60 in
  let gt := ascii_of_nat 62 in
  let sp := ascii_of_nat 32 in
  let target :=
    if Py.contains sp target && negb (Py.startswith [lt] target)
    then hd [] (Py.split sp target) else target in
  if Py.startswith [lt] target && Py.endswith [gt] target
  then removelast (tl target) else target.

Definition line_links (line_no : nat) (l : list ascii) : list LinkRef :=
  map (fun g1 => mkLinkRef (Py.text (clean_target g1)) line_no)
    (Re.MARKDOWN_LINK_RE l).

(** The loop of [extract_links]; [line_no] is the number of the first line
    of [lines]. *)
Fixpoint links_loop (line_no : nat) (in_fence : bool)
    (lines : list (list ascii)) : list LinkRef :=
  match lines with
  | [] => []
  | l :: rest =>
      if is_fence l then links_loop (S line_no) (negb in_fence) rest
      else if in_fence then links_loop (S line_no) in_fence rest
      else line_links line_no l ++ links_loop (S line_no) in_fence rest
  end.

Definition extract_links (body : string) : list LinkRef :=
  links_loop 1 false (body_lines body).


(** ** Metadata parser *)

Definition squote : ascii := ascii_of_nat 39.
Definition dquote : ascii := ascii_of_nat 34.
Definition is_quote (c : ascii) : bool :=
  Py.ch_eqb c squote || Py.ch_eqb c dquote.

Definition list_eqb (a b : list ascii) : bool :=
  String.eqb (Py.text a) (Py.text b).

Definition strip_quotes (v : list ascii) : list ascii :=
  let v := Py.strip v in
  match v with
  | c :: _ =>
      if (2 <=? length v) && Py.ch_eqb c (List.last v c) && is_quote c
      then removelast (tl v) else v
  | [] => v
  end.

Definition parse_scalar (v : list ascii) : scalar :=
  let v := Py.strip v in
  if list_eqb v [] then SStr ""
  else if list_eqb (Py.lower v) (Py.chars "true") then SBool true
  else if list_eqb (Py.lower v) (Py.chars "false") then SBool false
  else SStr (Py.text (strip_quotes v)).

(** The loop of [parse_inline_list] over the characters of [inner]; [buf]
    holds the current item in reverse. *)
Fixpoint inline_items (quote : option ascii) (buf : list ascii)
    (inner : list ascii) : list (list ascii) :=
  match inner with
  | [] => match buf with
          | [] => []
          | _ => [Py.strip (rev buf)]
          end
  | ch :: rest =>
      match quote with
      | Some q =>
          inline_items (if Py.ch_eqb ch q then None else quote)
            (ch :: buf) rest
      | None =>
          if is_quote ch then inline_items (Some ch) (ch :: buf) rest
          else if Py.code ch =? 44 then
            Py.strip (rev buf) :: inline_items None [] rest
          else inline_items None (ch :: buf) rest
      end
  end.

Definition parse_inline_list (v : list ascii) : list scalar :=
  let inner := Py.strip (removelast (tl v)) in
  match inner with
  | [] => []
  | _ =>
      map parse_scalar
        (List.filter (fun item => negb (list_eqb (Py.strip item) []))
           (inline_items None [] inner))
  end.

(** What a line of the block is, after [rstrip]: the three patterns of the
    parser, tried in the order of the code. *)
Inductive fm_line :=
  | FmBlank
  | FmComment
  | FmItem (item : list ascii)
  | FmKey (key : string) (val : list ascii)
  | FmOther.

Definition classify (l : list ascii) : fm_line :=
  if list_eqb (Py.strip l) [] then FmBlank
  else
    match Py.lstrip l with
    | c :: rest =>
        if Py.ch_eqb c Re.hash then FmComment
        else
          let as_key :=
            let '(key, r) := Py.span Re.is_key_char l in
            match key, r with
            | _ :: _, d :: v =>
                if Py.ch_eqb d Re.colon
                then FmKey (Py.text key) (Py.lstrip v) else FmOther
            | _, _ => FmOther
            end in
          if Py.ch_eqb c Re.hyphen then
            match rest with
            | d :: _ => if Py.isspace d then FmItem (Py.lstrip rest) else as_key
            | [] => as_key
            end
          else as_key
    | [] => FmBlank
    end.

Record FmState := mkFmState {
  fm_data : gmap string value;
  fm_errors : list string;
  fm_current_list_key : option string
}.

Definition fm_init : FmState := mkFmState ∅ [] None.

Definition err_orphan_item (idx : nat) : string :=
  "frontmatter line " +:+ Py.str_nat idx +:+ ": list item without list key".
Definition err_unsupported (idx : nat) (l : list ascii) : string :=
  "frontmatter line " +:+ Py.str_nat idx +:+ ": unsupported syntax `"
    +:+ Py.text l +:+ "`".

(** One turn of the loop of [parse_yamlish_frontmatter] on line number
    [idx]. *)
Definition fm_step (idx : nat) (st : FmState) (raw_line : list ascii)
  : FmState :=
  let l := Py.rstrip raw_line in
  match classify l with
  | FmBlank | FmComment => st
  | FmItem item =>
      match fm_current_list_key st with
      | Some k =>
          match fm_data st !! k with
          | Some (VList items) =>
              mkFmState (<[ k := VList (items ++ [parse_scalar item]) ]> (fm_data st))
                (fm_errors st) (fm_current_list_key st)
          | _ =>
              mkFmState (fm_data st) (fm_errors st ++ [err_orphan_item idx])
                (fm_current_list_key st)
          end
      | None =>
          mkFmState (fm_data st) (fm_errors st ++ [err_orphan_item idx])
            (fm_current_list_key st)
      end
  | FmOther =>
      mkFmState (fm_data st) (fm_errors st ++ [err_unsupported idx l]) None
  | FmKey key v =>
      match v with
      | [] => mkFmState (<[ key := VList [] ]> (fm_data st)) (fm_errors st) (Some key)
      | _ =>
          if Py.startswith (Py.chars "[") v && Py.endswith (Py.chars "]") v
          then mkFmState (<[ key := VList (parse_inline_list v) ]> (fm_data st))
                 (fm_errors st) None
          else mkFmState (<[ key := VScalar (parse_scalar v) ]> (fm_data st))
                 (fm_errors st) None
      end
  end.

Fixpoint fm_loop (idx : nat) (st : FmState) (lines : list (list ascii))
  : FmState :=
  match lines with
  | [] => st
  | l :: rest => fm_loop (S idx) (fm_step idx st l) rest
  end.

Definition parse_lines (lines : list (list ascii))
  : gmap string value * list string :=
  let st := fm_loop 1 fm_init lines in (fm_data st, fm_errors st).

Definition parse_yamlish_frontmatter (raw : string)
  : gmap string value * list string :=
  parse_lines (Py.splitlines (Py.chars raw)).

Definition FRONTMATTER_DELIM : string := "---".

Definition is_delim (l : list ascii) : bool :=
  list_eqb (Py.strip l) (Py.chars FRONTMATTER_DELIM).

(** The lines before the first delimiter line and the lines after it, when
    there is one. *)
Fixpoint cut_at_delim (lines : list (list ascii))
  : option (list (list ascii) * list (list ascii)) :=
  match lines with
  | [] => None
  | l :: rest =>
      if is_delim l then Some ([], rest)
      else match cut_at_delim rest with
           | Some (a, b) => Some (l :: a, b)
           | None => None
           end
  end.

Definition split_frontmatter (text : string)
  : gmap string value * string * list string :=
  if negb (Py.startswith (Py.chars FRONTMATTER_DELIM) (Py.chars text)) then
    (∅, text, ["missing frontmatter start delimiter"])
  else
    match Py.splitlines (Py.chars text) with
    | [] => (∅, text, ["invalid frontmatter start delimiter"])
    | first :: rest =>
        if negb (is_delim first) then
          (∅, text, ["invalid frontmatter start delimiter"])
        else
          match cut_at_delim rest with
          | None => (∅, text, ["missing frontmatter end delimiter"])
          | Some (block, after) =>
              let raw_frontmatter := Py.text (Py.join [Py.nl] block) in
              let body := Py.text (Py.join [Py.nl] after) in
              let '(fm, fm_errors) := parse_yamlish_frontmatter raw_frontmatter in
              (fm, body, fm_errors)
          end
    end.

(** ** Fenced diagram blocks *)

Record MermaidState := mkMermaidState {
  ms_blocks : list (nat * string);
  ms_problems : list Problem;
  ms_in_fence : bool;
  ms_fence_lang : string;
  ms_fence_start_line : nat;
  ms_buffer : list (list ascii)
}.

Definition mermaid_init : MermaidState :=
  mkMermaidState [] [] false "" 0 [].

(** One turn of the loop of [extract_fenced_mermaid_blocks]. *)
Definition mermaid_step (rel : string) (line_no : nat) (st : MermaidState)
    (l : list ascii) : MermaidState :=
  match Re.FENCE_RE l with
  | Some lang =>
      if negb (ms_in_fence st) then
        mkMermaidState (ms_blocks st) (ms_problems st) true
          (Py.text (Py.lower (Py.strip lang))) line_no []
      else
        let source := Py.strip (Py.join [Py.nl] (ms_buffer st)) in
        let start := ms_fence_start_line st in
        if String.eqb (ms_fence_lang st) "mermaid" then
          match source with
          | [] =>
              mkMermaidState (ms_blocks st)
                (ms_problems st ++
                   [mkProblem "mermaid" rel "empty mermaid block" (Some start)])
                false "" start []
          | _ =>
              mkMermaidState (ms_blocks st ++ [(start, Py.text source)])
                (ms_problems st) false "" start []
          end
        else mkMermaidState (ms_blocks st) (ms_problems st) false "" start []
  | None =>
      if ms_in_fence st then
        mkMermaidState (ms_blocks st) (ms_problems st) (ms_in_fence st)
          (ms_fence_lang st) (ms_fence_start_line st) (ms_buffer st ++ [l])
      else st
  end.

Fixpoint mermaid_loop (rel : string) (line_no : nat) (st : MermaidState)
    (lines : list (list ascii)) : MermaidState :=
  match lines with
  | [] => st
  | l :: rest => mermaid_loop rel (S line_no) (mermaid_step rel line_no st l) rest
  end.

Definition unclosed_fence (rel : string) (start : nat) : Problem :=
  mkProblem "mermaid" rel "unclosed code fence" (Some start).

Definition mermaid_finish (rel : string) (st : MermaidState)
  : list (nat * string) * list Problem :=
  if ms_in_fence st
  then (ms_blocks st, ms_problems st ++ [unclosed_fence rel (ms_fence_start_line st)])
  else (ms_blocks st, ms_problems st).

Definition extract_fenced_mermaid_blocks (record : DocRecord)
  : list (nat * string) * list Problem :=
  mermaid_finish (rel_path record)
    (mermaid_loop (rel_path record) 1 mermaid_init (body_lines (body record))).


(** ** Paths and the file system *)

Module Paths.

Definition slash : ascii := ascii_of_nat 47.
Definition dot : ascii := ascii_of_nat 46.

(** The components of a path text: the pieces between slashes, without
    the empty ones and the single dots ([pathlib] keeps [..]). *)
Definition parse_parts (s : list ascii) : list string :=
  List.filter (fun part => negb (String.eqb part "" || String.eqb part "."))
    (map Py.text (Py.split slash s)).

(** [base / s] *)
Definition joinpath (base : Path) (s : list ascii) : Path :=
  if Py.startswith [slash] s then parse_parts s else base ++ parse_parts s.

Definition parent (p : Path) : Path := removelast p.
Definition name (p : Path) : string := List.last p "".

(** The suffix of a file name: from its last dot on, unless that dot is
    the first or the last character. *)
Definition name_suffix (n : list ascii) : list ascii :=
  let '(ext_rev, before) := Py.span (fun c => negb (Py.ch_eqb c dot)) (rev n) in
  match ext_rev, before with
  | _ :: _, _ :: _ :: _ => dot :: rev ext_rev
  | _, _ => []
  end.
Definition suffix (p : Path) : string :=
  Py.text (name_suffix (Py.chars (name p))).

(** [p.with_suffix(sfx)]; [None] is the [ValueError] of a path with an
    empty name. *)
Definition with_suffix (p : Path) (sfx : string) : option Path :=
  match name p with
  | EmptyString => None
  | n =>
      let stem :=
        Py.text (firstn (String.length n - String.length (suffix p))
                   (Py.chars n)) in
      Some (parent p ++ [stem +:+ sfx])
  end.

(** One component further from the directory [cur]. *)
Definition enter (cur : Path) (part : string) : Path :=
  if String.eqb part ".." then removelast cur else cur ++ [part].

(** [p.resolve()], without symbolic links. *)
Definition resolve (p : Path) : Path := fold_left enter p [].

(** [str(p)] *)
Definition str_path (p : Path) : string :=
  "/" +:+ Py.text (Py.join [slash] (map Py.chars p)).

(** [p.as_posix()] of a relative path. *)
Definition as_posix (parts : list string) : string :=
  match parts with
  | [] => "."
  | _ => Py.text (Py.join [slash] (map Py.chars parts))
  end.

(** [p.relative_to(base)]; [None] is its [ValueError]. *)
Fixpoint relative_to (p base : Path) : option (list string) :=
  match base, p with
  | [], _ => Some p
  | b :: base', a :: p' =>
      if String.eqb a b then relative_to p' base' else None
  | _ :: _, [] => None
  end.

(** The entries of a file system, by resolved path.  The root is a
    directory. *)
Record FS := mkFS {
  file_at : Path -> bool;
  dir_at : Path -> bool
}.

Definition is_dir (fs : FS) (p : Path) : bool :=
  match p with [] => true | _ => dir_at fs p end.
Definition entry_at (fs : FS) (p : Path) : bool :=
  is_dir fs p || file_at fs p.

(** Looking [parts] up from the directory [cur], the way the operating
    system does: every component is entered from a directory that
    exists. *)
Fixpoint walk (fs : FS) (cur : Path) (parts : list string) : bool :=
  match parts with
  | [] => entry_at fs cur
  | part :: rest => is_dir fs cur && walk fs (enter cur part) rest
  end.

(** [p.exists()] *)
Definition path_exists (fs : FS) (p : Path) : bool := walk fs [] p.

End Paths.

(** ** Link resolution *)

Definition or_none (a : list ascii) : option string :=
  match a with [] => None | _ => Some (Py.text a) end.

(** The guards at the head of [resolve_markdown_link]: a target is skipped,
    with the anchor the code returns and the reason, or it is local, with
    its path part and its anchor. *)
Inductive target_kind :=
  | Skipped (anchor : option string) (reason : string)
  | Local (path_part anchor : list ascii).

Definition classify_target (t : list ascii) : target_kind :=
  if list_eqb t [] || Py.startswith (Py.chars "?") t then
    Skipped None "query-only link"
  else if Re.SCHEME_RE t then Skipped None "external link"
  else if Py.startswith (Py.chars "//") t then Skipped None "network-path link"
  else
    let '(path_part, _, anchor) := Py.partition Re.hash t in
    if negb (list_eqb path_part []) && Py.contains (ascii_of_nat 63) path_part
    then Skipped (or_none anchor) "route/query link"
    else if Py.startswith (Py.chars "/") path_part
            && negb (Py.startswith (Py.chars "/docs/") path_part)
    then Skipped (or_none anchor) "site route"
    else Local path_part anchor.

Section Links.

Variable repo_root : Path.
Variable fs : Paths.FS.

Definition docs_root : Path := repo_root ++ ["docs"].

(** The result of [resolve_markdown_link]: the resolved path, the anchor
    and the reason to skip the link. *)
Definition Resolution : Type := option Path * option string * option string.

(** The path a target resolves to before the file system is looked at. *)
Definition base_path (record : DocRecord) (path_part : list ascii) : Path :=
  if Py.startswith (Py.chars "/docs/") path_part then
    Paths.joinpath repo_root (Py.lstrip_ch Paths.slash path_part)
  else if Py.startswith (Py.chars "/") path_part then
    Paths.joinpath repo_root (Py.lstrip_ch Paths.slash path_part)
  else Paths.resolve (Paths.joinpath (Paths.parent (path record)) path_part).

(** The candidates tried for a path that does not exist. *)
Definition fallback (resolved : Path) : option Path :=
  if Paths.path_exists fs resolved then Some resolved
  else if String.eqb (Paths.suffix resolved) "" then
    md_candidate ← Paths.with_suffix resolved ".md";
    if Paths.path_exists fs md_candidate then Some md_candidate
    else
      let index_candidate := Paths.joinpath resolved (Py.chars "index.md") in
      if Paths.path_exists fs index_candidate then Some index_candidate
      else Some resolved
  else Some resolved.

(** [resolve_markdown_link]; [None] is an exception raised by the code. *)
Definition resolve_markdown_link (record : DocRecord) (target : string)
  : option Resolution :=
  match classify_target (Py.chars target) with
  | Skipped anchor reason => Some (None, anchor, Some reason)
  | Local [] anchor => Some (Some (path record), or_none anchor, None)
  | Local path_part anchor =>
      found ← fallback (base_path record path_part);
      Some (Some found, or_none anchor, None)
  end.

Definition broken_link (record : DocRecord) (link : LinkRef)
    (resolved : Path) : Problem :=
  mkProblem "links" (rel_path record)
    ("broken link target `" +:+ target link +:+ "` (resolved `"
       +:+ Paths.str_path resolved +:+ "`)")
    (Some (link_line link)).

Definition missing_anchor (record : DocRecord) (link : LinkRef)
    (anchor : string) (rel_key : list string) : Problem :=
  mkProblem "links" (rel_path record)
    ("missing anchor `#" +:+ anchor +:+ "` in `"
       +:+ Paths.as_posix rel_key +:+ "`")
    (Some (link_line link)).

(** The dictionary [heading_cache]: a later record replaces an earlier
    one of the same resolved path. *)
Definition heading_cache (records : list DocRecord)
  : gmap Path (gset string) :=
  fold_left (fun m r => <[ Paths.resolve (path r) := anchors r ]> m)
    records ∅.

(** The body of the inner loop of [validate_links]: the problems one link
    adds. *)
Definition check_link (cache : gmap Path (gset string))
    (record : DocRecord) (link : LinkRef) : option (list Problem) :=
  res ← resolve_markdown_link record (target link);
  match res with
  | (_, _, Some _) => Some []
  | (None, _, None) => Some []
  | (Some resolved, anchor, None) =>
      let resolved_key := Paths.resolve resolved in
      if negb (Paths.path_exists fs resolved_key) then
        Some [broken_link record link resolved]
      else
        match anchor with
        | Some a =>
            if String.eqb
                 (Py.text (Py.lower (Py.chars (Paths.suffix resolved_key))))
                 ".md"
            then
              match cache !! resolved_key with
              | None => Some []
              | Some anchors =>
                  if decide (a ∈ anchors) then Some []
                  else
                    rel_key ← Paths.relative_to resolved_key repo_root;
                    Some [missing_anchor record link a rel_key]
              end
            else Some []
        | None => Some []
        end
  end.

Definition record_link_problems (cache : gmap Path (gset string))
    (record : DocRecord) : option (list Problem) :=
  @concat Problem <$> mapM (check_link cache record) (links record).

Definition validate_links (records : list DocRecord)
  : option (list Problem) :=
  @concat Problem <$> mapM (record_link_problems (heading_cache records)) records.

End Links.


(** ** Calendar dates *)

Record date := mkDate { year : Z; month : Z; day : Z }.

Module Calendar.
Local Open Scope Z_scope.

Definition is_leap (y : Z) : bool :=
  (y mod 4 =? 0) && (negb (y mod 100 =? 0) || (y mod 400 =? 0)).

Definition days_before_year (y : Z) : Z :=
  let y := y - 1 in y * 365 + y / 4 - y / 100 + y / 400.

Definition days_in_month (y m : Z) : Z :=
  if (m =? 2) && is_leap y then 29
  else nth (Z.to_nat m) [0; 31; 28; 31; 30; 31; 30; 31; 31; 30; 31; 30; 31] 0.

Definition days_before_month (y m : Z) : Z :=
  nth (Z.to_nat m) [0; 0; 31; 59; 90; 120; 151; 181; 212; 243; 273; 304; 334] 0
  + (if (2 <? m) && is_leap y then 1 else 0).

(** [date.toordinal()] *)
Definition toordinal (d : date) : Z :=
  days_before_year (year d) + days_before_month (year d) (month d) + day d.

(** [(a - b).days] *)
Definition days_between (a b : date) : Z := toordinal a - toordinal b.

Definition valid (d : date) : bool :=
  (1 <=? year d) && (year d <=? 9999) && (1 <=? month d) && (month d <=? 12)
  && (1 <=? day d) && (day d <=? days_in_month (year d) (month d)).

(** The dates written [YYYY-MM-DD], the first of the forms that
    [date.fromisoformat] reads. *)
Definition digit (c : ascii) : option Z :=
  if Py.is_digit c then Some (Z.of_nat (Py.code c) - 48) else None.
Definition number (l : list ascii) : option Z :=
  fold_left (fun acc c => a ← acc; d ← digit c; Some (10 * a + d)) l (Some 0).
Definition parse_ymd (s : string) : option date :=
  match Py.chars s with
  | [y1; y2; y3; y4; h1; m1; m2; h2; d1; d2] =>
      if Py.ch_eqb h1 Re.hyphen && Py.ch_eqb h2 Re.hyphen then
        y ← number [y1; y2; y3; y4];
        m ← number [m1; m2];
        d ← number [d1; d2];
        let r := mkDate y m d in
        if valid r then Some r else None
      else None
  | _ => None
  end.
End Calendar.

(** ** Contract and environment *)

(** The contract file, each key with the type the code uses it at; a key
    that is absent holds the default the code gives to [contracts.get]. *)
Record Contracts := mkContracts {
  required_docs_directories : list string;
  required_frontmatter : list string;
  allowed_categories : list string;
  allowed_statuses : list string;
  allowed_owners : list string;
  diataxis_category_by_folder : gmap string string;
  root_docs_allowed_categories : list string;
  stale_review_days : Z;
  sop_required_headings : list string
}.

(** The environment variables the checks read, and the date of the clock. *)
Record Env := mkEnv {
  DOCS_TODAY : option string;
  DOCS_STALE_REVIEW_DAYS : option string;
  clock_today : date
}.

(** ** Contract checks *)

Definition normalize_heading (v : string) : string :=
  Py.text (Re.sub_spaces (ascii_of_nat 32) false (Py.strip (Py.chars v))).

Definition is_blank (s : string) : bool := list_eqb (Py.strip (Py.chars s)) [].

(** [isinstance(v, str)], on the result of [fm.get]. *)
Definition as_str (v : option value) : option string :=
  match v with
  | Some (VScalar (SStr s)) => Some s
  | _ => None
  end.

Definition mem (x : string) (xs : list string) : bool := bool_decide (x ∈ xs).

(** The pattern of the file names of decision records, as [re.match] applies
    it: the text ADR, a hyphen, four digits, any number of hyphens,
    underscores, ASCII letters or digits, then [.md] at the end. *)
Definition adr_name (n : string) : bool :=
  match Py.chars n with
  | a :: d :: r :: h :: d1 :: d2 :: d3 :: d4 :: rest =>
      list_eqb [a; d; r; h] (Py.chars "ADR-")
      && forallb Py.is_digit [d1; d2; d3; d4]
      && list_eqb (snd (Py.span Re.is_key_char rest)) (Py.chars ".md")
  | _ => false
  end.

Section Checks.

Variable repo_root : Path.
Variable fs : Paths.FS.

(** Functions of the Python library that the embedding takes as given:
    [date.fromisoformat] and [int] on a text ([None] is their
    [ValueError]), and [repr] of a text. *)
Variable fromisoformat : string -> option date.
Variable int_of_str : string -> option Z.
Variable repr_str : string -> string.

Definition repr_list (xs : list string) : string :=
  "[" +:+ Py.text (Py.join (Py.chars ", ") (map (fun x => Py.chars (repr_str x)) xs))
      +:+ "]".

(** [sorted(set(xs))] *)
Definition sorted_set (xs : list string) : list string :=
  merge_sort String.le (remove_dups xs).

Definition repr_scalar (v : scalar) : string :=
  match v with
  | SStr s => repr_str s
  | SBool true => "True"
  | SBool false => "False"
  end.

(** The text an f-string writes for the result of [fm.get]. *)
Definition format_value (v : option value) : string :=
  match v with
  | None => "None"
  | Some (VScalar (SStr s)) => s
  | Some (VScalar b) => repr_scalar b
  | Some (VList items) =>
      "[" +:+ Py.text (Py.join (Py.chars ", ")
                         (map (fun x => Py.chars (repr_scalar x)) items))
          +:+ "]"
  end.

Definition validate_structure (contracts : Contracts) : list Problem :=
  omap (fun dirname =>
          if Paths.path_exists fs
               (Paths.joinpath (docs_root repo_root) (Py.chars dirname))
          then None
          else Some (mkProblem "structure" ("docs/" +:+ dirname)
                       "required directory is missing" None))
    (required_docs_directories contracts).

Definition parse_review_date (v : string) : option date := fromisoformat v.

(** [None] is the [ValueError] of an override that is not a date. *)
Definition current_date (env : Env) : option date :=
  match DOCS_TODAY env with
  | Some (String c s) => fromisoformat (String c s)
  | _ => Some (clock_today env)
  end.

(** The threshold: [int] of the environment variable when it is set. *)
Definition stale_days_of (env : Env) (contracts : Contracts) : option Z :=
  match DOCS_STALE_REVIEW_DAYS env with
  | Some s => int_of_str s
  | None => Some (stale_review_days contracts)
  end.

Definition fm_problem (record : DocRecord) (msg : string) : Problem :=
  mkProblem "frontmatter" (rel_path record) msg None.

Definition missing_field (record : DocRecord) (field : string) : Problem :=
  fm_problem record ("missing required field `" +:+ field +:+ "`").

Definition stale_problem (record : DocRecord) (age_days stale_days : Z)
  : Problem :=
  fm_problem record
    ("`last_reviewed` is stale (" +:+ Py.str_Z age_days +:+ " days > "
       +:+ Py.str_Z stale_days +:+ ")").

Definition when (b : bool) (p : Problem) : list Problem :=
  if b then [p] else [].

Definition missing_fields (contracts : Contracts) (record : DocRecord)
  : list Problem :=
  map (missing_field record)
    (List.filter (fun field => bool_decide (frontmatter record !! field = None))
       (required_frontmatter contracts)).

Definition one_of (record : DocRecord) (field : string)
    (allowed : list string) : Problem :=
  fm_problem record
    ("`" +:+ field +:+ "` must be one of " +:+ repr_list (sorted_set allowed)).

Definition enum_problems (record : DocRecord) (field : string)
    (allowed : list string) : list Problem :=
  match as_str (frontmatter record !! field) with
  | Some v => when (negb (mem v allowed)) (one_of record field allowed)
  | None => [one_of record field allowed]
  end.

Definition title_problems (record : DocRecord) : list Problem :=
  when (match as_str (frontmatter record !! "title") with
        | Some t => is_blank t
        | None => true
        end)
    (fm_problem record "`title` must be a non-empty string").

Definition superseded_problems (record : DocRecord) : list Problem :=
  let fm := frontmatter record in
  when (match as_str (fm !! "status"), as_str (fm !! "superseded_by") with
        | Some st, None => String.eqb st "superseded"
        | _, _ => false
        end)
    (fm_problem record "`superseded` docs must declare `superseded_by`").

Definition reviewed_problems (stale_days : Z) (today : date)
    (record : DocRecord) : list Problem :=
  match as_str (frontmatter record !! "last_reviewed") with
  | None => [fm_problem record "`last_reviewed` must be an ISO date string"]
  | Some reviewed =>
      match parse_review_date reviewed with
      | None => [fm_problem record "`last_reviewed` is not a valid ISO date"]
      | Some review_date =>
          let age_days := Calendar.days_between today review_date in
          when (stale_days <? age_days)%Z
            (stale_problem record age_days stale_days)
      end
  end.

Definition list_field_problems (record : DocRecord) (list_field : string)
  : list Problem :=
  match frontmatter record !! list_field with
  | Some (VList (v :: vs)) =>
      when (negb (forallb (fun x => match x with
                                    | SStr t => negb (is_blank t)
                                    | SBool _ => false
                                    end) (v :: vs)))
        (fm_problem record
           ("`" +:+ list_field +:+ "` must contain non-empty strings"))
  | _ =>
      [fm_problem record ("`" +:+ list_field +:+ "` must be a non-empty list")]
  end.

(** The taxonomy part of the loop body; [None] is the exception of a
    record that is not a file below the documentation root. *)
Definition taxonomy_problems (contracts : Contracts) (record : DocRecord)
  : option (list Problem) :=
  rel_doc ← Paths.relative_to (path record) (docs_root repo_root);
  let category := frontmatter record !! "category" in
  match rel_doc with
  | [] => None
  | [_] =>
      Some
        match as_str category with
        | Some c =>
            when (negb (mem c (root_docs_allowed_categories contracts)))
              (mkProblem "diataxis" (rel_path record)
                 ("root docs page category `" +:+ c
                    +:+ "` not allowed; expected one of "
                    +:+ repr_list (sorted_set (root_docs_allowed_categories contracts)))
                 None)
        | None => []
        end
  | folder :: _ =>
      let mismatch :=
        match diataxis_category_by_folder contracts !! folder with
        | Some (String c e as expected) =>
            when (negb (bool_decide (as_str category = Some expected)))
              (mkProblem "diataxis" (rel_path record)
                 ("category `" +:+ format_value category
                    +:+ "` does not match folder `" +:+ folder +:+ "` -> `"
                    +:+ expected +:+ "`")
                 None)
        | _ => []
        end in
      Some (mismatch ++
            when (String.eqb folder "adr"
                  && negb (adr_name (Paths.name (path record))))
              (mkProblem "adr" (rel_path record)
                 "ADR filename must match ADR-0000-name.md" None))
  end.

(** The body of the loop of [validate_frontmatter]. *)
Definition frontmatter_record_problems (contracts : Contracts)
    (stale_days : Z) (today : date) (record : DocRecord)
  : option (list Problem) :=
  let missing := missing_fields contracts record in
  if decide (frontmatter record = ∅) then Some missing
  else
    taxonomy ← taxonomy_problems contracts record;
    Some (missing
          ++ title_problems record
          ++ enum_problems record "category" (allowed_categories contracts)
          ++ enum_problems record "owner" (allowed_owners contracts)
          ++ enum_problems record "status" (allowed_statuses contracts)
          ++ superseded_problems record
          ++ reviewed_problems stale_days today record
          ++ list_field_problems record "audience"
          ++ list_field_problems record "invariants"
          ++ taxonomy).

Definition validate_frontmatter (env : Env) (records : list DocRecord)
    (contracts : Contracts) : option (list Problem) :=
  stale_days ← stale_days_of env contracts;
  today ← current_date env;
  @concat Problem <$>
    mapM (frontmatter_record_problems contracts stale_days today) records.

Definition sop_problem (record : DocRecord) (req : string) : Problem :=
  mkProblem "sop" (rel_path record)
    ("missing or out-of-order heading `" +:+ req +:+ "`") None.

(** [headings.index(req, pos)], as the rest of the list after the place
    found: the search for the next heading goes on there. *)
Fixpoint after_first (req : string) (hs : list string)
  : option (list string) :=
  match hs with
  | [] => None
  | h :: rest => if String.eqb h req then Some rest else after_first req rest
  end.

(** The loop over the required headings; [hs] is [headings[pos:]]. *)
Fixpoint sop_loop (record : DocRecord) (required hs : list string)
  : list Problem :=
  match required with
  | [] => []
  | req :: more =>
      match after_first req hs with
      | None => [sop_problem record req]
      | Some rest => sop_loop record more rest
      end
  end.

(** The body of the loop of [validate_sop_headings]. *)
Definition sop_record_problems (required : list string) (record : DocRecord)
  : option (list Problem) :=
  rel_doc ← Paths.relative_to (path record) (docs_root repo_root);
  match rel_doc with
  | folder :: _ =>
      if String.eqb folder "sop"
      then Some (sop_loop record required
                   (map normalize_heading (headings record)))
      else Some []
  | [] => Some []
  end.

Definition validate_sop_headings (records : list DocRecord)
    (contracts : Contracts) : option (list Problem) :=
  let required := map normalize_heading (sop_required_headings contracts) in
  @concat Problem <$> mapM (sop_record_problems required) records.

(** ** Document collector *)

(** One turn of the loop of [collect_docs], for a file of the listing and
    its text. *)
Definition collect_one (file : Path * string)
  : option (DocRecord * list Problem) :=
  let '(p, text) := file in
  let '(fm, body, fm_errors) := split_frontmatter text in
  rel_parts ← Paths.relative_to p repo_root;
  let rel := Paths.as_posix rel_parts in
  let '(headings, anchors) := extract_headings_and_anchors body in
  Some (mkDocRecord p rel text fm body headings anchors (extract_links body),
        map (fun err => mkProblem "frontmatter" rel err None) fm_errors).

(** [files] is the sorted listing of the regular files [*.md] below the
    documentation root, each with its text. *)
Definition collect_docs (files : list (Path * string))
  : option (list DocRecord * list Problem) :=
  rs ← mapM collect_one files;
  Some (map fst rs, concat (map snd rs)).

End Checks.

(** ** Reporter *)

(** The key that [print_problems] sorts by. *)
Definition sort_key (p : Problem) : string * string * nat * string :=
  (check p, path_of p, default 0 (line p), message p).

Definition compare_key (a b : string * string * nat * string) : comparison :=
  let '(c1, p1, l1, m1) := a in
  let '(c2, p2, l2, m2) := b in
  match String.compare c1 c2 with
  | Eq => match String.compare p1 p2 with
          | Eq => match Nat.compare l1 l2 with
                  | Eq => String.compare m1 m2
                  | c => c
                  end
          | c => c
          end
  | c => c
  end.

Definition key_le (p q : Problem) : Prop :=
  compare_key (sort_key p) (sort_key q) ≠ Gt.

#[global] Instance key_le_dec : RelDecision key_le.
Proof. intros p q. unfold key_le. apply _. Defined.

Definition problem_line (p : Problem) : string :=
  let loc :=
    match line p with
    | Some (S n) => path_of p +:+ ":" +:+ Py.str_nat (S n)
    | _ => path_of p
    end in
  "[" +:+ check p +:+ "] " +:+ loc +:+ " - " +:+ message p.

(** What a command does to the outside: the directory it creates, the file
    it writes and the lines it prints, in order. *)
Inductive Event (R : Type) :=
  | EvMkdir (dir : Path)
  | EvWrite (file : Path) (content : R)
  | EvPrint (text : string).
Arguments EvMkdir {R} dir.
Arguments EvWrite {R} file content.
Arguments EvPrint {R} text.

Definition print_problems {R} (problems : list Problem) : list (Event R) :=
  map (fun p => EvPrint (problem_line p)) (merge_sort key_le problems).

Definition failed_line (n : nat) : string :=
  String Py.nl ("FAILED: " +:+ Py.str_nat n +:+ " issue(s)").

Definition fail_if_problems {R} (problems : list Problem)
  : list (Event R) * Z :=
  match problems with
  | _ :: _ =>
      (print_problems problems ++ [EvPrint (failed_line (length problems))], 1%Z)
  | [] => ([EvPrint "OK"], 0%Z)
  end.

Section Audit.

Variable repo_root : Path.
Variable fs : Paths.FS.
Variable fromisoformat : string -> option date.
Variable int_of_str : string -> option Z.
Variable repr_str : string -> string.

(** The floating-point numbers of Python: the literal [0.0], and the value
    of [round(fresh / total * 100.0, 2)]. *)
Variable float : Type.
Variable float_zero : float.
Variable round_percent : nat -> nat -> float.

(** The world outside the documents: the standalone diagram files (path
    below the repository root and text, in sorted order), the renderer
    run by [render_mermaid_sources] on the sources and the flag, and the
    result of [validate_openapi] for its flag. *)
Variable mmd_files : list (string * string).
Variable render_mermaid_sources
  : list (string * option nat * string) -> bool -> list Problem.
Variable validate_openapi : bool -> list Problem * nat.
Variable now : string.

Definition validate_mermaid (records : list DocRecord)
    (require_renderer : bool) : list Problem * nat :=
  let per_record := map (fun r => (r, extract_fenced_mermaid_blocks r)) records in
  let block_problems := concat (map (fun rb => snd (snd rb)) per_record) in
  let block_sources :=
    concat (map (fun rb =>
                   map (fun b => (rel_path (fst rb), Some (fst b), snd b))
                     (fst (snd rb))) per_record) in
  let stripped :=
    map (fun f => (fst f, Py.text (Py.strip (Py.chars (snd f))))) mmd_files in
  let file_problems :=
    omap (fun f => if String.eqb (snd f) ""
                   then Some (mkProblem "mermaid" (fst f)
                                "empty .mmd diagram file" None)
                   else None) stripped in
  let file_sources :=
    omap (fun f => if String.eqb (snd f) "" then None
                   else Some (fst f, @None nat, snd f)) stripped in
  let sources := block_sources ++ file_sources in
  (block_problems ++ file_problems
     ++ render_mermaid_sources sources require_renderer,
   length sources).

(** [frontmatter_freshness_metrics]: the loop over the records, with the
    counters as its state. *)
Definition freshness_step (stale_days : Z) (today : date)
    (acc : nat * nat * list string) (record : DocRecord)
  : nat * nat * list string :=
  let '(fresh, total, stale_docs) := acc in
  match as_str (frontmatter record !! "last_reviewed") with
  | None => acc
  | Some reviewed =>
      match parse_review_date fromisoformat reviewed with
      | None => acc
      | Some parsed =>
          if (Calendar.days_between today parsed <=? stale_days)%Z
          then (S fresh, S total, stale_docs)
          else (fresh, S total, stale_docs ++ [rel_path record])
      end
  end.

Definition frontmatter_freshness_metrics (env : Env)
    (records : list DocRecord) (contracts : Contracts)
  : option (nat * nat * list string) :=
  stale_days ← stale_days_of int_of_str env contracts;
  today ← current_date fromisoformat env;
  Some (fold_left (freshness_step stale_days today) records (0, 0, [])).

(** [counts_by_category] *)
Definition counts_by_category (records : list DocRecord) : gmap string nat :=
  fold_left
    (fun counter record =>
       let category :=
         match frontmatter record !! "category" with
         | Some (VScalar (SStr c)) => c
         | _ => "unknown"
         end in
       <[ category := S (default 0 (counter !! category)) ]> counter)
    records ∅.

Record IssueCounts := mkIssueCounts {
  n_parse : nat;
  n_structure : nat;
  n_frontmatter : nat;
  n_sop : nat;
  n_links : nat;
  n_mermaid : nat;
  n_openapi : nat
}.

Record Report := mkReport {
  generated_at : string;
  document_count : nat;
  markdown_count : nat;
  report_counts_by_category : gmap string nat;
  fresh_review_percent : float;
  stale_documents : list string;
  broken_internal_links : nat;
  mermaid_block_count : nat;
  openapi_spec_count : nat;
  validation_issue_counts : IssueCounts
}.

(** [write_audit_report]: the events of the command and its exit code;
    [None] is an exception raised by one of the checks. *)
Definition write_audit_report (env : Env) (records : list DocRecord)
    (parse_problems : list Problem) (contracts : Contracts) (output : Path)
  : option (list (Event Report) * Z) :=
  let structure_problems := validate_structure repo_root fs contracts in
  frontmatter_problems ←
    validate_frontmatter repo_root fromisoformat int_of_str repr_str
      env records contracts;
  sop_problems ← validate_sop_headings repo_root records contracts;
  link_problems ← validate_links repo_root fs records;
  let '(mermaid_problems, mermaid_count) := validate_mermaid records false in
  let '(openapi_problems, openapi_count) := validate_openapi false in
  metrics ← frontmatter_freshness_metrics env records contracts;
  let '(fresh, total_reviewed, stale_docs) := metrics in
  let fresh_percent :=
    match total_reviewed with
    | 0 => float_zero
    | _ => round_percent fresh total_reviewed
    end in
  let report :=
    mkReport now (length records) (length records)
      (counts_by_category records) fresh_percent stale_docs
      (length (List.filter (fun p => String.eqb (check p) "links") link_problems))
      mermaid_count openapi_count
      (mkIssueCounts (length parse_problems) (length structure_problems)
         (length frontmatter_problems) (length sop_problems)
         (length link_problems) (length mermaid_problems)
         (length openapi_problems)) in
  let written :=
    [EvMkdir (Paths.parent output); EvWrite output report;
     EvPrint ("Wrote audit report: " +:+ Paths.str_path output)] in
  let all_problems :=
    parse_problems ++ structure_problems ++ frontmatter_problems
      ++ sop_problems ++ link_problems ++ mermaid_problems
      ++ openapi_problems in
  match all_problems with
  | _ :: _ =>
      Some (written ++ print_problems all_problems
              ++ [EvPrint (failed_line (length all_problems))], 1%Z)
  | [] => Some (written ++ [EvPrint "OK"], 0%Z)
  end.

End Audit.

(** ** Commands *)

(** The arguments of the program after [build_parser] has read them: the
    command and its flags.  The parser refuses any other command. *)
Inductive Command :=
  | CmdStructure
  | CmdFrontmatter
  | CmdSop
  | CmdLinks
  | CmdMermaid (require_renderer : bool)
  | CmdOpenapi (require_validator : bool)
  | CmdAll (require_renderer require_openapi_validator : bool)
  | CmdAuditReport (output : Path).

Section Commands.

Variable repo_root : Path.
Variable fs : Paths.FS.
Variable fromisoformat : string -> option date.
Variable int_of_str : string -> option Z.
Variable repr_str : string -> string.
Variable float : Type.
Variable float_zero : float.
Variable round_percent : nat -> nat -> float.
Variable mmd_files : list (string * string).
Variable render_mermaid_sources
  : list (string * option nat * string) -> bool -> list Problem.
Variable validate_openapi : bool -> list Problem * nat.
Variable now : string.

(** [run_all]: the events of the command and its exit code; [None] is an
    exception raised by one of the checks. *)
Definition run_all (env : Env) (records : list DocRecord)
    (parse_problems : list Problem) (contracts : Contracts)
    (require_renderer require_openapi_validator : bool)
  : option (list (Event (Report float)) * Z) :=
  let structure_problems := validate_structure repo_root fs contracts in
  frontmatter_problems ←
    validate_frontmatter repo_root fromisoformat int_of_str repr_str
      env records contracts;
  sop_problems ← validate_sop_headings repo_root records contracts;
  link_problems ← validate_links repo_root fs records;
  let '(mermaid_problems, _) :=
    validate_mermaid mmd_files render_mermaid_sources records
      require_renderer in
  let '(openapi_problems, _) := validate_openapi require_openapi_validator in
  Some (fail_if_problems
          (parse_problems ++ structure_problems ++ frontmatter_problems
             ++ sop_problems ++ link_problems ++ mermaid_problems
             ++ openapi_problems)).

(** The line that a command prints before its verdict, and the verdict. *)
Definition counted (label : string) (result : list Problem * nat)
  : list (Event (Report float)) * Z :=
  let '(problems, count) := result in
  let '(events, code) := fail_if_problems problems in
  (EvPrint (label +:+ Py.str_nat count) :: events, code).

(** [main], from the contracts that [load_contracts] gives and the listing
    of the documents that [collect_docs] reads. *)
Definition main (env : Env) (contracts : Contracts)
    (files : list (Path * string)) (command : Command)
  : option (list (Event (Report float)) * Z) :=
  collected ← collect_docs repo_root files;
  let '(records, parse_problems) := collected in
  match command with
  | CmdStructure =>
      Some (fail_if_problems (validate_structure repo_root fs contracts))
  | CmdFrontmatter =>
      problems ← validate_frontmatter repo_root fromisoformat int_of_str
                   repr_str env records contracts;
      Some (fail_if_problems (parse_problems ++ problems))
  | CmdSop =>
      problems ← validate_sop_headings repo_root records contracts;
      Some (fail_if_problems problems)
  | CmdLinks =>
      problems ← validate_links repo_root fs records;
      Some (fail_if_problems problems)
  | CmdMermaid require_renderer =>
      Some (counted "Mermaid sources checked: "
              (validate_mermaid mmd_files render_mermaid_sources records
                 require_renderer))
  | CmdOpenapi require_validator =>
      Some (counted "OpenAPI specs checked: "
              (validate_openapi require_validator))
  | CmdAll require_renderer require_openapi_validator =>
      run_all env records parse_problems contracts require_renderer
        require_openapi_validator
  | CmdAuditReport output =>
      write_audit_report repo_root fs fromisoformat int_of_str repr_str
        float float_zero round_percent mmd_files render_mermaid_sources
        validate_openapi now env records parse_problems contracts output
  end.

End Commands.

(** * Vocabulary of the properties

    The predicates and the functions that the statements below use, and
    the documents of the scenarios. *)

Section Vocabulary.
Import Py Re Paths.

(** A character of a slug: a word character or a hyphen, in lower case. *)
Definition slug_char (c : ascii) : bool :=
  (Py.isword c || Py.ch_eqb c Re.hyphen) && Py.ch_eqb (Py.lower_char c) c.

(** No two hyphens in a row; [b] says that a hyphen comes just before. *)
Fixpoint no_hh (b : bool) (l : list ascii) : bool :=
  match l with
  | [] => true
  | c :: l' =>
      if ch_eqb c hyphen then negb b && no_hh true l' else no_hh false l'
  end.

Definition head_not (ch : ascii) (l : list ascii) : Prop :=
  match l with c :: _ => ch_eqb c ch = false | [] => True end.

(** Whether the line that follows [lines] lies inside a fence, when the
    first of [lines] does ([b]): every fence line toggles. *)
Definition fence_flag (lines : list (list ascii)) (b : bool) : bool :=
  fold_left (fun b l => if is_fence l then negb b else b) lines b.

Definition plain (lines : list (list ascii)) : Prop :=
  Forall (fun l => is_fence l = false) lines.

(** The number of headings of [hs] whose slug is [base]. *)
Definition count_slug (base : string) (hs : list string) : nat :=
  length (List.filter (fun h => String.eqb (slugify_heading h) base) hs).

(** The counters of the loop count the headings met so far, slug by slug. *)
Definition counts_ok (st : HeadingState) : Prop :=
  forall base, base <> "" ->
    default 0 (hs_counts st !! base) = count_slug base (hs_headings st).

Definition sop_scenario_record : DocRecord :=
  mkDocRecord ["repo"; "docs"; "sop"; "deploy.md"] "docs/sop/deploy.md" ""
    ∅ "" ["Goal"; "Steps"] ∅ [].

Definition sop_scenario_contracts : Contracts :=
  mkContracts [] [] [] [] [] ∅ [] 180 ["Goal"; "Preconditions"; "Steps"].

(** The value that a key line gives to its key. *)
Definition key_line_value (v : list ascii) : value :=
  match v with
  | [] => VList []
  | _ =>
      if Py.startswith (Py.chars "[") v && Py.endswith (Py.chars "]") v
      then VList (parse_inline_list v)
      else VScalar (parse_scalar v)
  end.

(** The items that the lines after a bare key line append to its list: the
    list items up to the next key line or unsupported line. *)
Fixpoint following_items (lines : list (list ascii)) : list scalar :=
  match lines with
  | [] => []
  | l :: rest =>
      match classify (Py.rstrip l) with
      | FmBlank | FmComment => following_items rest
      | FmItem item => parse_scalar item :: following_items rest
      | FmKey _ _ | FmOther => []
      end
  end.

(** The value of a key after its last key line and the lines [post] that
    follow it. *)
Definition final_value (v : list ascii) (post : list (list ascii)) : value :=
  match v with
  | [] => VList (following_items post)
  | _ => key_line_value v
  end.

(** [l] is no key line of [key]. *)
Definition not_key_line (key : string) (l : list ascii) : Prop :=
  forall v, classify (Py.rstrip l) <> FmKey key v.

Definition no_linebreak (l : list ascii) : Prop :=
  Forall (fun c => is_linebreak c = false) l.

(** [splitlines] gives no empty last line. *)
Fixpoint drop_last_empty (block : list (list ascii)) : list (list ascii) :=
  match block with
  | [] => []
  | [p] => match p with [] => [] | _ => [p] end
  | p :: rest => p :: drop_last_empty rest
  end.

(** The text begins with the delimiter line: it starts with the three
    hyphens, and its first line holds nothing else but spaces. *)
Definition begins_with_delimiter (text : string) : bool :=
  Py.startswith (Py.chars FRONTMATTER_DELIM) (Py.chars text)
  && match Py.splitlines (Py.chars text) with
     | first :: _ => is_delim first
     | [] => false
     end.

(** The splitter as the specification words it, with its three cases: a
    text that does not begin with the delimiter line has a missing start
    delimiter. *)
Definition split_frontmatter_spec (text : string)
  : gmap string value * string * list string :=
  if negb (begins_with_delimiter text) then
    (∅, text, ["missing frontmatter start delimiter"])
  else
    match cut_at_delim (tl (Py.splitlines (Py.chars text))) with
    | None => (∅, text, ["missing frontmatter end delimiter"])
    | Some (block, after) =>
        (fst (parse_lines block), Py.text (Py.join [Py.nl] after),
         snd (parse_lines block))
    end.

(** A problem that is not the one of a stale review: another check, or
    another message. *)
Definition not_stale (p : Problem) : Prop :=
  check p <> "frontmatter"
  \/ String.prefix "`last_reviewed` is stale (" (message p) = false.

Definition stale_scenario_record : DocRecord :=
  mkDocRecord ["repo"; "docs"; "guide.md"] "docs/guide.md" ""
    {[ "last_reviewed" := VScalar (SStr "2024-01-01") ]} "" [] ∅ [].

Definition stale_scenario_env : Env :=
  mkEnv (Some "2024-06-30") None (mkDate 2030 1 1).

Definition stale_scenario_contracts : Contracts :=
  mkContracts [] [] [] [] [] ∅ [] 180 [].

Definition partial_text : string := "---
title: X
???
---
# Body".

(** A resolved path: no empty component and no [..]. *)
Definition normal (p : Path) : Prop :=
  Forall (fun part => part <> "" /\ part <> "..") p.

(** The directories on the way to [cur] exist. *)
Definition reachable (fs : FS) (cur : Path) : Prop :=
  forall k, k < length cur -> is_dir fs (take k cur) = true.

Definition nonempty_parts (p : Path) : Prop :=
  Forall (fun part => part <> "") p.

(** The target is absent for the resolver: the path it resolves to does
    not exist and, when this path has no suffix, neither does the path
    with the suffix [.md] nor the file [index.md] below it. *)
Definition absent (fs : FS) (resolved : Path) : Prop :=
  path_exists fs (resolve resolved) = false
  /\ (suffix resolved = "" ->
      (forall md, with_suffix resolved ".md" = Some md ->
                  path_exists fs md = false)
      /\ path_exists fs (joinpath resolved (Py.chars "index.md")) = false).

Definition fs_of (files dirs : list Path) : Paths.FS :=
  Paths.mkFS (fun p => bool_decide (p ∈ files))
    (fun p => bool_decide (p ∈ dirs)).

(** A repository with the documents [a.md] and [release-1.2.md]. *)
Definition link_scenario_fs : Paths.FS :=
  fs_of [["repo"; "docs"; "a.md"]; ["repo"; "docs"; "release-1.2.md"]]
    [["repo"]; ["repo"; "docs"]].

Definition link_scenario_record (body : string) : DocRecord :=
  mkDocRecord ["repo"; "docs"; "a.md"] "docs/a.md" body ∅ body
    (fst (extract_headings_and_anchors body))
    (snd (extract_headings_and_anchors body)) (extract_links body).

(** The claim's words: the path with the default extension appended. *)
Definition append_extension (p : Path) (ext : string) : Path :=
  removelast p ++ [Paths.name p +:+ ext].

Definition is_print {R} (e : Event R) : Prop :=
  match e with EvPrint _ => True | _ => False end.

(** Every space of [l] is the plain space and stands before a character
    that is no space. *)
Fixpoint tight (l : list ascii) : bool :=
  match l with
  | [] => true
  | c :: l' =>
      if isspace c then
        ch_eqb c (ascii_of_nat 32)
        && match l' with d :: _ => negb (isspace d) | [] => false end
        && tight l'
      else tight l'
  end.

(** [l] does not begin with a space. *)
Definition head_nonspace (l : list ascii) : Prop :=
  match l with c :: _ => isspace c = false | [] => True end.

(** The key of a key line. *)
Definition line_key (l : list ascii) : option string :=
  match classify (Py.rstrip l) with
  | FmKey key _ => Some key
  | _ => None
  end.

(** The blank lines and the comment lines of a block. *)
Definition skipped_line (l : list ascii) : bool :=
  match classify (Py.rstrip l) with
  | FmBlank | FmComment => true
  | _ => false
  end.

(** The error that the parser gives for line [i] (from 0) of a block, when
    it gives one. *)
Definition error_of_line (e : string) (i : nat) (l : list ascii) : Prop :=
  (classify (Py.rstrip l) = FmOther /\ e = err_unsupported (S i) (Py.rstrip l))
  \/ (exists item, classify (Py.rstrip l) = FmItem item
                   /\ e = err_orphan_item (S i)).

(** The states of two runs that agree on all but the errors. *)
Definition same_data (a b : FmState) : Prop :=
  fm_data a = fm_data b
  /\ fm_current_list_key a = fm_current_list_key b
  /\ length (fm_errors a) = length (fm_errors b).

(** What [extract_headings_and_anchors] keeps between its headings and its
    anchors: the bare slug of every heading is an anchor, every anchor is
    the slug of a heading, bare or with a number below the number of the
    headings of this slug, and there are no more anchors than headings. *)
Definition anchors_fit (hs : list string) (ans : gset string) : Prop :=
  (forall h, h ∈ hs -> slugify_heading h <> "" -> slugify_heading h ∈ ans)
  /\ (forall a, a ∈ ans ->
        exists h n, h ∈ hs /\ slugify_heading h <> ""
                    /\ n < count_slug (slugify_heading h) hs
                    /\ a = anchor_of (slugify_heading h) n)
  /\ size ans <= length hs.

(** Line [n] of [lines], counted from 1, is a fence line whose language,
    stripped and in lower case, is [lang]. *)
Definition fence_at (lines : list (list ascii)) (n : nat) (lang : string)
  : Prop :=
  exists l g, 1 <= n /\ lines !! (n - 1) = Some l /\ FENCE_RE l = Some g
              /\ Py.text (Py.lower (Py.strip g)) = lang.

Definition empty_block (rel : string) (n : nat) : Problem :=
  mkProblem "mermaid" rel "empty mermaid block" (Some n).

(** What the loop of [extract_fenced_mermaid_blocks] keeps, after the lines
    [done]. *)
Definition mermaid_inv (rel : string) (done : list (list ascii))
    (st : MermaidState) : Prop :=
  ms_in_fence st = fence_flag done false
  /\ (forall n src, (n, src) ∈ ms_blocks st ->
        src <> "" /\ fence_at done n "mermaid")
  /\ (forall p, p ∈ ms_problems st ->
        exists n, p = empty_block rel n /\ fence_at done n "mermaid")
  /\ (ms_in_fence st = true ->
        fence_at done (ms_fence_start_line st) (ms_fence_lang st)).

(** A target that the resolver looks up: none of the guards at the head of
    [resolve_markdown_link] skips it. *)
Definition is_local (t : string) : Prop :=
  exists path_part anchor,
    classify_target (Py.chars t) = Local path_part anchor.

(** The problem [p] is a problem of the link [link] of [record]. *)
Definition link_problem_of (record : DocRecord) (link : LinkRef)
    (p : Problem) : Prop :=
  check p = "links" /\ path_of p = rel_path record
  /\ line p = Some (link_line link) /\ is_local (target link).

(** The problem [p] is a problem of the metadata check for [record]: it
    carries the relative path of the record and no line, and its check name
    is [frontmatter], or [diataxis] or [adr] for a record whose mapping is
    not empty. *)
Definition frontmatter_problem_of (record : DocRecord) (p : Problem) : Prop :=
  path_of p = rel_path record /\ line p = None
  /\ (check p = "frontmatter"
      \/ ((check p = "diataxis" \/ check p = "adr")
          /\ frontmatter record <> ∅)).

(** The record lies in a folder or is a page of the documentation root:
    its path, relative to the documentation root, has one part at least. *)
Definition below_docs_root (repo_root : Path) (record : DocRecord) : Prop :=
  exists part parts,
    relative_to (path record) (docs_root repo_root) = Some (part :: parts).

(** The problem [p] is the problem of the check of the headings of a
    procedure, for [record], which lies in the folder [sop]. *)
Definition sop_problem_of (repo_root : Path) (record : DocRecord)
    (p : Problem) : Prop :=
  check p = "sop" /\ path_of p = rel_path record /\ line p = None
  /\ exists parts,
       relative_to (path record) (docs_root repo_root) = Some ("sop" :: parts).

(** The age in days of the last review of a record, when its metadata hold
    a text that is a date. *)
Definition review_age (fromisoformat : string -> option date) (today : date)
    (record : DocRecord) : option Z :=
  reviewed ← as_str (frontmatter record !! "last_reviewed");
  parsed ← fromisoformat reviewed;
  Some (Calendar.days_between today parsed).

Definition stale_record (fromisoformat : string -> option date)
    (stale_days : Z) (today : date) (record : DocRecord) : bool :=
  match review_age fromisoformat today record with
  | Some age => (stale_days <? age)%Z
  | None => false
  end.

Definition fresh_record (fromisoformat : string -> option date)
    (stale_days : Z) (today : date) (record : DocRecord) : bool :=
  match review_age fromisoformat today record with
  | Some age => (age <=? stale_days)%Z
  | None => false
  end.

(** The category that the report counts a record under. *)
Definition category_of (record : DocRecord) : string :=
  match frontmatter record !! "category" with
  | Some (VScalar (SStr c)) => c
  | _ => "unknown"
  end.

(** The sum of the counts of a counter. *)
Definition total_count (m : gmap string nat) : nat :=
  map_fold (fun _ n acc => n + acc) 0 m.

(** The line that [print_problems] prints, from the key it sorts by: the
    line of a problem depends on its key alone. *)
Definition key_line (k : string * string * nat * string) : string :=
  let '(c, p, l, m) := k in
  let loc :=
    match l with
    | S n => p +:+ ":" +:+ Py.str_nat (S n)
    | 0 => p
    end in
  "[" +:+ c +:+ "] " +:+ loc +:+ " - " +:+ m.

(** The order of the keys. *)
Definition keys_le (a b : string * string * nat * string) : Prop :=
  compare_key a b <> Gt.

(** A comparison that is a total order. *)
Definition order_compare {A} (cmp : A -> A -> comparison) : Prop :=
  (forall a b, cmp a b = CompOpp (cmp b a))
  /\ (forall a b, cmp a b = Eq -> a = b)
  /\ (forall a b c, cmp a b = Lt -> cmp b c = Lt -> cmp a c = Lt).

Definition lex_compare {A B} (cmpA : A -> A -> comparison)
    (cmpB : B -> B -> comparison) (x y : A * B) : comparison :=
  match cmpA (fst x) (fst y) with
  | Eq => cmpB (snd x) (snd y)
  | c => c
  end.

(** A command passes: it returns with the exit code 0. *)
Definition passes {R} (result : option (list (Event R) * Z)) : Prop :=
  exists events, result = Some (events, 0%Z).

(** What the audit-report command does before its verdict. *)
Definition audit_events {R} (output : Path) (report : R) : list (Event R) :=
  [EvMkdir (Paths.parent output); EvWrite output report;
   EvPrint ("Wrote audit report: " +:+ Paths.str_path output)].

(** An item of an inline list as one writes it: a text that is not empty,
    has no space at its ends, no comma and no quote; or a text between two
    quotes of the same kind, without this quote inside. *)
Definition plain_item (item : list ascii) : Prop :=
  item <> [] /\ Py.strip item = item
  /\ Forall (fun c => is_quote c = false /\ (Py.code c =? 44) = false) item.

Definition quoted_item (item : list ascii) : Prop :=
  exists q s, item = q :: s ++ [q] /\ is_quote q = true
              /\ Forall (fun c => Py.ch_eqb c q = false) s.

Definition clean_item (item : list ascii) : Prop :=
  plain_item item \/ quoted_item item.

(** The inline list of the items: between square brackets, with a comma
    and a space between two items. *)
Definition inline_list (items : list (list ascii)) : list ascii :=
  Py.chars "[" ++ Py.join (Py.chars ", ") items ++ Py.chars "]".

(** Whether the last character of [pre] is an exclamation mark. *)
Definition ends_with_bang (pre : list ascii) : bool :=
  fold_left (fun _ c => Py.code c =? 33) pre false.

(** No character of [l] is the opening square bracket. *)
Definition no_open_bracket (l : list ascii) : Prop :=
  Forall (fun c => (Py.code c =? 91) = false) l.

(** The text of a link: the label between square brackets and the target
    between parentheses. *)
Definition link_text (label tgt : list ascii) : list ascii :=
  Py.chars "[" ++ label ++ Py.chars "](" ++ tgt ++ Py.chars ")".

(** A procedure whose heading is written with three spaces between its
    words, and a contract that requires the heading with one. *)
Definition sop_spacing_record : DocRecord :=
  let body := "#  Release   notes " in
  mkDocRecord ["repo"; "docs"; "sop"; "release.md"] "docs/sop/release.md"
    body ∅ body (fst (extract_headings_and_anchors body))
    (snd (extract_headings_and_anchors body)) (extract_links body).

Definition sop_spacing_contracts : Contracts :=
  mkContracts [] [] [] [] [] ∅ [] 180 ["Release notes"].

End Vocabulary.

(** * Properties *)

(** ** Characters *)

Lemma text_chars (s : string) : Py.text (Py.chars s) = s.
Proof. apply string_of_list_ascii_of_string. Qed.

Lemma chars_text (l : list ascii) : Py.chars (Py.text l) = l.
Proof. apply list_ascii_of_string_of_list_ascii. Qed.

Lemma list_eqb_eq (a b : list ascii) : list_eqb a b = true <-> a = b.
Proof.
  unfold list_eqb. rewrite String.eqb_eq. split; [|congruence].
  intros H. rewrite <- (chars_text a), <- (chars_text b). congruence.
Qed.

Lemma list_eqb_neq (a b : list ascii) : list_eqb a b = false <-> a <> b.
Proof.
  rewrite <- list_eqb_eq. destruct (list_eqb a b); split; congruence.
Qed.

Ltac each_char c :=
  destruct c as [[] [] [] [] [] [] [] []]; vm_compute; try reflexivity;
  try discriminate; auto.

Lemma lower_char_idem c : Py.lower_char (Py.lower_char c) = Py.lower_char c.
Proof. each_char c. Qed.

Lemma slug_char_lower c : slug_char c = true -> Py.lower_char c = c.
Proof. each_char c. Qed.

Lemma slug_char_nospace c : slug_char c = true -> Py.isspace c = false.
Proof. each_char c. Qed.

Lemma slug_char_keep c :
  slug_char c = true ->
  negb (Py.ch_eqb c Re.backtick) = true
  /\ (Py.isword c || Py.isspace c || Py.ch_eqb c Re.hyphen) = true.
Proof. each_char c. Qed.

Lemma slug_char_of_fixed c :
  (Py.isword c || Py.isspace c || Py.ch_eqb c Re.hyphen) = true ->
  Py.lower_char c = c ->
  Py.isspace c = false ->
  slug_char c = true.
Proof. each_char c. Qed.

Lemma ch_eqb_eq a b : Py.ch_eqb a b = true <-> a = b.
Proof. apply Ascii.eqb_eq. Qed.

(** ** Slugs *)

Section SlugLemmas.
Import Py Re.

Lemma filter_all (p : ascii -> bool) l :
  Forall (fun c => p c = true) l -> List.filter p l = l.
Proof.
  induction 1 as [|c l Hc _ IH]; simpl; [done|]. by rewrite Hc, IH.
Qed.

Lemma Forall_filter_list (P : ascii -> Prop) (p : ascii -> bool) l :
  Forall P l -> Forall P (List.filter p l).
Proof.
  induction 1 as [|c l Hc _ IH]; simpl; [constructor|].
  destruct (p c); auto.
Qed.

Lemma Forall_filter_true (p : ascii -> bool) l :
  Forall (fun c => p c = true) (List.filter p l).
Proof.
  induction l as [|c l IH]; simpl; [constructor|].
  destruct (p c) eqn:E; auto.
Qed.

Lemma Forall_lstrip_ch (P : ascii -> Prop) ch l :
  Forall P l -> Forall P (lstrip_ch ch l).
Proof.
  induction 1 as [|c l Hc Hl IH]; simpl; [constructor|].
  destruct (ch_eqb c ch); auto.
Qed.

Lemma Forall_rstrip_ch (P : ascii -> Prop) ch l :
  Forall P l -> Forall P (rstrip_ch ch l).
Proof.
  induction 1 as [|c l Hc Hl IH]; simpl; [constructor|].
  destruct (rstrip_ch ch l); [destruct (ch_eqb c ch)|]; auto.
Qed.

Lemma Forall_squeeze (P : ascii -> Prop) b l :
  Forall P l -> Forall P (squeeze_hyphens b l).
Proof.
  intros H. revert b. induction H as [|c l Hc Hl IH]; intros b; simpl;
    [constructor|].
  destruct (ch_eqb c hyphen); [destruct b|]; auto.
Qed.

Lemma lstrip_nospace l :
  Forall (fun c => isspace c = false) l -> lstrip l = l.
Proof. destruct 1 as [|c l Hc _]; simpl; [done|]. by rewrite Hc. Qed.

Lemma rstrip_nospace l :
  Forall (fun c => isspace c = false) l -> rstrip l = l.
Proof.
  induction 1 as [|c l Hc _ IH]; simpl; [done|]. rewrite IH, Hc.
  by destruct l.
Qed.

Lemma sub_spaces_nospace r b l :
  Forall (fun c => isspace c = false) l -> sub_spaces r b l = l.
Proof.
  intros H. revert b. induction H as [|c l Hc _ IH]; intros b; simpl; [done|].
  by rewrite Hc, IH.
Qed.

Lemma lower_fixed l :
  Forall (fun c => lower_char c = c) l -> lower l = l.
Proof.
  unfold lower. induction 1 as [|c l Hc _ IH]; simpl; [done|].
  by f_equal.
Qed.

Lemma no_hh_squeeze b l : no_hh b (squeeze_hyphens b l) = true.
Proof.
  revert b. induction l as [|c l IH]; intros b; simpl; [done|].
  destruct (ch_eqb c hyphen) eqn:E.
  - destruct b; [apply IH|]. simpl. rewrite E. simpl. apply IH.
  - simpl. rewrite E. apply IH.
Qed.

Lemma squeeze_no_hh b l : no_hh b l = true -> squeeze_hyphens b l = l.
Proof.
  revert b. induction l as [|c l IH]; intros b; simpl; [done|].
  destruct (ch_eqb c hyphen) eqn:E.
  - destruct b; simpl; [discriminate|]. intros H. by rewrite IH.
  - intros H. by rewrite IH.
Qed.

Lemma no_hh_weaken b l : no_hh b l = true -> no_hh false l = true.
Proof.
  destruct l as [|c l]; simpl; [done|].
  destruct (ch_eqb c hyphen); [|done]. by destruct b.
Qed.

Lemma no_hh_lstrip_ch b l :
  no_hh b l = true -> no_hh false (lstrip_ch hyphen l) = true.
Proof.
  revert b. induction l as [|c l IH]; intros b; simpl; [done|].
  destruct (ch_eqb c hyphen) eqn:E.
  - intros H. apply andb_true_iff in H as [_ H]. by apply IH in H.
  - simpl. by rewrite E.
Qed.

Lemma no_hh_rstrip_ch b l :
  no_hh b l = true -> no_hh b (rstrip_ch hyphen l) = true.
Proof.
  revert b. induction l as [|c l IH]; intros b; simpl; [done|].
  destruct (ch_eqb c hyphen) eqn:E.
  - intros H. apply andb_true_iff in H as [Hb H]. apply IH in H.
    destruct (rstrip_ch hyphen l) as [|d r] eqn:Er; [done|].
    change (no_hh b (c :: d :: r) = true). simpl (no_hh b (c :: _)).
    rewrite E, Hb. exact H.
  - intros H. apply IH in H.
    destruct (rstrip_ch hyphen l) as [|d r] eqn:Er.
    + simpl. by rewrite E.
    + change (no_hh b (c :: d :: r) = true). simpl (no_hh b (c :: _)).
      rewrite E. exact H.
Qed.

(** [strip_ch] is idempotent. *)
Lemma rstrip_ch_cons ch c l :
  rstrip_ch ch (c :: l) =
  match rstrip_ch ch l with
  | [] => if ch_eqb c ch then [] else [c]
  | r => c :: r
  end.
Proof. reflexivity. Qed.

Lemma rstrip_ch_idem ch l : rstrip_ch ch (rstrip_ch ch l) = rstrip_ch ch l.
Proof.
  induction l as [|c l IH]; [done|]. rewrite rstrip_ch_cons.
  destruct (rstrip_ch ch l) as [|d r] eqn:Er.
  - destruct (ch_eqb c ch) eqn:E; simpl; [done|]. by rewrite E.
  - by rewrite rstrip_ch_cons, IH.
Qed.

Lemma head_not_lstrip_ch ch l : head_not ch (lstrip_ch ch l).
Proof.
  induction l as [|c l IH]; simpl; [done|].
  destruct (ch_eqb c ch) eqn:E; [done|]. simpl. done.
Qed.

Lemma head_not_rstrip_ch ch l : head_not ch l -> head_not ch (rstrip_ch ch l).
Proof.
  destruct l as [|c l]; simpl; [done|]. intros E.
  destruct (rstrip_ch ch l); simpl; [by rewrite E|done].
Qed.

Lemma lstrip_ch_head_not ch l : head_not ch l -> lstrip_ch ch l = l.
Proof. destruct l as [|c l]; simpl; [done|]. by intros ->. Qed.

Lemma strip_ch_idem ch l : strip_ch ch (strip_ch ch l) = strip_ch ch l.
Proof.
  unfold strip_ch.
  rewrite (lstrip_ch_head_not ch (rstrip_ch ch (lstrip_ch ch l))).
  - apply rstrip_ch_idem.
  - apply head_not_rstrip_ch, head_not_lstrip_ch.
Qed.

Lemma Forall_sub_spaces_slug b l :
  Forall (fun c => (isword c || isspace c || ch_eqb c hyphen) = true
                   /\ lower_char c = c) l ->
  Forall (fun c => slug_char c = true) (sub_spaces hyphen b l).
Proof.
  intros H. revert b. induction H as [|c l [Hk Hl] _ IH]; intros b; simpl;
    [constructor|].
  destruct (isspace c) eqn:Es.
  - destruct b; [apply IH|]. constructor; [reflexivity|apply IH].
  - constructor; [|apply IH].
    apply slug_char_of_fixed; [by rewrite Es|done|done].
Qed.

(** What [slug_chars] returns: slug characters only, no two hyphens in a
    row. *)
Lemma slug_chars_shape l :
  Forall (fun c => slug_char c = true) (slug_chars l)
  /\ no_hh false (slug_chars l) = true.
Proof.
  unfold slug_chars. split.
  - apply Forall_rstrip_ch, Forall_lstrip_ch, Forall_squeeze,
      Forall_sub_spaces_slug.
    unfold drop_punct. apply Forall_and. split.
    + apply Forall_filter_true.
    + do 2 apply Forall_filter_list. unfold lower.
      apply Forall_map, Forall_forall. intros c _. apply lower_char_idem.
  - unfold strip_ch. apply no_hh_rstrip_ch.
    eapply no_hh_lstrip_ch, no_hh_squeeze.
Qed.

Lemma slug_chars_idem l : slug_chars (slug_chars l) = slug_chars l.
Proof.
  destruct (slug_chars_shape l) as [Hall Hhh].
  assert (Hns : Forall (fun c => isspace c = false) (slug_chars l)).
  { eapply Forall_impl; [exact Hall|]. intros c. apply slug_char_nospace. }
  unfold slug_chars at 1. unfold strip.
  rewrite (lstrip_nospace _ Hns), (rstrip_nospace _ Hns).
  rewrite lower_fixed
    by (eapply Forall_impl; [exact Hall|]; intros c; apply slug_char_lower).
  rewrite filter_all
    by (eapply Forall_impl; [exact Hall|]; intros c Hc;
        apply (slug_char_keep c Hc)).
  unfold drop_punct. rewrite filter_all
    by (eapply Forall_impl; [exact Hall|]; intros c Hc;
        apply (slug_char_keep c Hc)).
  rewrite (sub_spaces_nospace _ _ _ Hns), (squeeze_no_hh _ _ Hhh).
  unfold slug_chars. apply strip_ch_idem.
Qed.

Lemma slugify_heading_idem (t : string) :
  slugify_heading (slugify_heading t) = slugify_heading t.
Proof.
  unfold slugify_heading. by rewrite chars_text, slug_chars_idem.
Qed.

End SlugLemmas.

(** ** Fences *)

Lemma heading_loop_app a b st :
  heading_loop (a ++ b) st = heading_loop b (heading_loop a st).
Proof. apply fold_left_app. Qed.

Lemma heading_loop_flag lines st :
  hs_in_fence (heading_loop lines st) = fence_flag lines (hs_in_fence st).
Proof.
  revert st. induction lines as [|l lines IH]; intros st; [done|].
  simpl. rewrite IH. f_equal. unfold heading_step.
  destruct (is_fence l); [done|]. destruct (hs_in_fence st) eqn:E; [done|].
  destruct (heading_text l); [|done].
  by destruct (new_anchor _ _).
Qed.

Lemma heading_loop_fenced inner st :
  hs_in_fence st = true -> plain inner -> heading_loop inner st = st.
Proof.
  intros Hst H. induction H as [|l inner Hl _ IH]; [done|].
  change (heading_loop inner (heading_step st l) = st).
  replace (heading_step st l) with st; [exact IH|].
  unfold heading_step. by rewrite Hl, Hst.
Qed.

Lemma heading_step_open st l :
  is_fence l = true -> hs_in_fence st = false ->
  hs_in_fence (heading_step st l) = true.
Proof. intros Hl Hst. unfold heading_step. by rewrite Hl, Hst. Qed.

Lemma links_loop_app n b a c :
  links_loop n b (a ++ c) =
  links_loop n b a ++ links_loop (n + length a) (fence_flag a b) c.
Proof.
  revert n b. induction a as [|l a IH]; intros n b; simpl.
  - by rewrite Nat.add_0_r.
  - rewrite <- Nat.add_succ_comm.
    destruct (is_fence l); [apply IH|].
    destruct b; [apply IH|]. by rewrite IH, app_assoc.
Qed.

Lemma links_loop_fenced n inner :
  plain inner -> links_loop n true inner = [].
Proof.
  intros H. revert n. induction H as [|l inner Hl _ IH]; intros n; [done|].
  simpl. by rewrite Hl.
Qed.

Lemma fence_flag_fenced inner b : plain inner -> fence_flag inner b = b.
Proof.
  intros H. induction H as [|l inner Hl _ IH]; [done|]. simpl. by rewrite Hl.
Qed.

Lemma fence_flag_app a c b :
  fence_flag (a ++ c) b = fence_flag c (fence_flag a b).
Proof. apply fold_left_app. Qed.

(** The lines between an opening fence and the next fence line give
    nothing to the headings, the anchors and the counters. *)
Lemma heading_loop_skip pre opening inner rest :
  fence_flag pre false = false -> is_fence opening = true -> plain inner ->
  heading_loop (pre ++ opening :: inner ++ rest) heading_init =
  heading_loop (pre ++ opening :: rest) heading_init.
Proof.
  intros Hpre Hop Hin. rewrite !heading_loop_app. simpl.
  rewrite heading_loop_app. f_equal. apply heading_loop_fenced; [|done].
  apply heading_step_open; [done|]. by rewrite heading_loop_flag.
Qed.

Lemma links_loop_skip pre opening inner rest :
  fence_flag pre false = false -> is_fence opening = true -> plain inner ->
  links_loop 1 false (pre ++ opening :: inner ++ rest) =
  links_loop 1 false pre
    ++ links_loop (1 + length pre + 1 + length inner) true rest.
Proof.
  intros Hpre Hop Hin. rewrite links_loop_app, Hpre. f_equal.
  simpl. rewrite Hop. simpl. rewrite links_loop_app.
  rewrite (links_loop_fenced _ _ Hin), (fence_flag_fenced _ _ Hin). simpl.
  f_equal. lia.
Qed.

(** C3: the lines between an opening fence marker and the next fence marker
    contribute nothing to the headings, the anchors or the link references:
    whatever these lines hold (headings and links too), the headings and the
    anchors are those of the body without them, and two bodies that differ
    in these lines only (fence markers apart, line count kept) have the
    same headings, anchors and link references. *)
Theorem fenced_lines_contribute_nothing
    (b1 b2 b0 : string) (pre inner inner' rest : list (list ascii))
    (opening : list ascii) :
  body_lines b1 = pre ++ opening :: inner ++ rest ->
  body_lines b2 = pre ++ opening :: inner' ++ rest ->
  body_lines b0 = pre ++ opening :: rest ->
  fence_flag pre false = false ->
  is_fence opening = true ->
  plain inner -> plain inner' -> length inner = length inner' ->
  extract_headings_and_anchors b1 = extract_headings_and_anchors b0
  /\ extract_headings_and_anchors b1 = extract_headings_and_anchors b2
  /\ extract_links b1 = extract_links b2
  /\ extract_links b1 =
       links_loop 1 false pre
         ++ links_loop (1 + length pre + 1 + length inner) true rest.
Proof.
  intros H1 H2 H0 Hpre Hop Hin Hin' Hlen.
  unfold extract_headings_and_anchors, extract_links. rewrite H1, H2, H0.
  rewrite !(heading_loop_skip pre opening inner rest) by done.
  rewrite !(heading_loop_skip pre opening inner' rest) by done.
  rewrite !links_loop_skip by done. by rewrite Hlen.
Qed.

Lemma fenced_lines_contribute_nothing_witness :
  extract_headings_and_anchors "# A
```py
# not a heading
[x](y.md)
```
## B [l](m.md)"
  = extract_headings_and_anchors "# A
```py
```
## B [l](m.md)"
  /\ extract_links "# A
```py
# not a heading
[x](y.md)
```
## B [l](m.md)" = [mkLinkRef "m.md" 6].
Proof.
  pose proof (fenced_lines_contribute_nothing
    "# A
```py
# not a heading
[x](y.md)
```
## B [l](m.md)"
    "# A
```py
plain text
more text
```
## B [l](m.md)"
    "# A
```py
```
## B [l](m.md)"
    [Py.chars "# A"]
    [Py.chars "# not a heading"; Py.chars "[x](y.md)"]
    [Py.chars "plain text"; Py.chars "more text"]
    [Py.chars "```"; Py.chars "## B [l](m.md)"]
    (Py.chars "```py")
    eq_refl eq_refl eq_refl eq_refl eq_refl) as H.
  destruct H as (H0 & _ & _ & H3).
  - repeat constructor.
  - repeat constructor.
  - reflexivity.
  - split; [exact H0|]. rewrite H3. reflexivity.
Defined.

(** ** Anchors *)

Lemma count_slug_app base hs t :
  count_slug base (hs ++ [t]) =
  count_slug base hs + (if String.eqb (slugify_heading t) base then 1 else 0).
Proof.
  unfold count_slug. rewrite List.filter_app, length_app. simpl.
  by destruct (String.eqb _ _).
Qed.

Lemma heading_step_counts st l : counts_ok st -> counts_ok (heading_step st l).
Proof.
  intros Hst. unfold heading_step.
  destruct (is_fence l); [exact Hst|].
  destruct (hs_in_fence st); [exact Hst|].
  destruct (heading_text l) as [t|]; [|exact Hst].
  unfold new_anchor. destruct (String.eqb (slugify_heading t) "") eqn:Et.
  - intros base Hb. simpl. rewrite count_slug_app, (Hst base Hb).
    apply String.eqb_eq in Et. rewrite Et.
    destruct (String.eqb "" base) eqn:E; [|lia].
    apply String.eqb_eq in E. congruence.
  - intros base Hb. simpl. rewrite count_slug_app.
    destruct (String.eqb (slugify_heading t) base) eqn:E.
    + apply String.eqb_eq in E. subst base.
      rewrite lookup_insert_eq. simpl. rewrite (Hst _ Hb). lia.
    + apply String.eqb_neq in E. rewrite lookup_insert_ne by done.
      rewrite (Hst base Hb). lia.
Qed.

Lemma heading_loop_counts lines st :
  counts_ok st -> counts_ok (heading_loop lines st).
Proof.
  revert st. induction lines as [|l lines IH]; intros st Hst; [done|].
  apply IH, heading_step_counts, Hst.
Qed.

Lemma counts_ok_init : counts_ok heading_init.
Proof. intros base _. reflexivity. Qed.

(** C6 (as amended): [slugify_heading] is idempotent; and a heading whose
    slug [base] is not empty, met outside a fence after [n] headings of the
    same slug, is given the anchor [base] when [n] is 0 and [base-n]
    otherwise, which the loop adds to the anchors.  So two headings of the
    same text in a row, the first ones of their slug, give the anchors
    [base] and [base-1].  A heading whose slug is empty is given no
    anchor. *)
Theorem anchors_number_repeated_slugs
    (u : string) (pre : list (list ascii)) (l : list ascii) (t : string) :
  let st := heading_loop pre heading_init in
  let base := slugify_heading t in
  let n := count_slug base (hs_headings st) in
  hs_in_fence st = false ->
  is_fence l = false ->
  heading_text l = Some t ->
  base <> "" ->
  slugify_heading (slugify_heading u) = slugify_heading u
  /\ (slugify_heading u = "" -> forall counts, new_anchor counts u = None)
  /\ new_anchor (hs_counts st) t
     = Some (if n =? 0 then base else base +:+ "-" +:+ Py.str_nat n)
  /\ hs_anchors (heading_step st l)
     = {[ if n =? 0 then base else base +:+ "-" +:+ Py.str_nat n ]}
         ∪ hs_anchors st
  /\ (n = 0 ->
      hs_anchors (heading_step (heading_step st l) l)
      = {[ base +:+ "-1" ]} ∪ ({[ base ]} ∪ hs_anchors st)).
Proof.
  intros st base n Hfence Hl Ht Hbase.
  assert (Hok : counts_ok st) by apply heading_loop_counts, counts_ok_init.
  assert (Hnew : new_anchor (hs_counts st) t = Some (anchor_of base n)).
  { unfold new_anchor. fold base.
    destruct (String.eqb base "") eqn:E; [by apply String.eqb_eq in E|].
    by rewrite (Hok base Hbase). }
  assert (Hstep : hs_anchors (heading_step st l)
                  = {[ anchor_of base n ]} ∪ hs_anchors st).
  { unfold heading_step. by rewrite Hl, Hfence, Ht, Hnew. }
  split; [apply slugify_heading_idem|].
  split; [intros Hu counts; unfold new_anchor; by rewrite Hu|].
  split; [exact Hnew|].
  split; [exact Hstep|]. intros Hn.
  assert (Hok1 : counts_ok (heading_step st l))
    by by apply heading_step_counts.
  assert (Hhs : hs_headings (heading_step st l) = hs_headings st ++ [t]).
  { unfold heading_step. rewrite Hl, Hfence, Ht, Hnew. done. }
  assert (Hf1 : hs_in_fence (heading_step st l) = false).
  { unfold heading_step. rewrite Hl, Hfence, Ht, Hnew. done. }
  unfold heading_step at 1. rewrite Hl, Hf1, Ht.
  unfold new_anchor. fold base.
  destruct (String.eqb base "") eqn:E; [by apply String.eqb_eq in E|].
  rewrite (Hok1 base Hbase), Hhs, count_slug_app. fold n. rewrite Hn.
  fold base. rewrite String.eqb_refl. simpl hs_anchors at 1.
  rewrite Hstep. fold n. rewrite Hn. reflexivity.
Qed.

Lemma anchors_number_repeated_slugs_witness :
  new_anchor
    (hs_counts (heading_loop [Py.chars "# Set up"; Py.chars "## Set  Up!"]
                  heading_init)) "set-up"
  = Some "set-up-2".
Proof.
  exact (proj1 (proj2 (proj2
    (anchors_number_repeated_slugs "Set up"
       [Py.chars "# Set up"; Py.chars "## Set  Up!"] (Py.chars "### set-up")
       "set-up" eq_refl eq_refl eq_refl ltac:(discriminate))))).
Defined.

(** C6, the claim as it is written, fails for a heading whose slug is
    empty: two headings of text [!!!] have the same slug, and neither is
    given an anchor. *)
Lemma empty_slug_gets_no_anchor :
  slugify_heading "!!!" = ""
  /\ extract_headings_and_anchors "# !!!
# !!!" = (["!!!"; "!!!"], ∅)
  /\ "-1" ∉ snd (extract_headings_and_anchors "# !!!
# !!!").
Proof.
  assert (H : extract_headings_and_anchors "# !!!
# !!!" = (["!!!"; "!!!"], ∅)) by reflexivity.
  split; [reflexivity|]. split; [exact H|].
  rewrite H. apply not_elem_of_empty.
Qed.

(** ** Diagram blocks *)

Lemma mermaid_loop_app rel n st a b :
  mermaid_loop rel n st (a ++ b) =
  mermaid_loop rel (n + length a) (mermaid_loop rel n st a) b.
Proof.
  revert n st. induction a as [|l a IH]; intros n st; simpl.
  - by rewrite Nat.add_0_r.
  - by rewrite IH, Nat.add_succ_comm.
Qed.

Lemma mermaid_loop_cons rel n st l rest :
  mermaid_loop rel n st (l :: rest) =
  mermaid_loop rel (S n) (mermaid_step rel n st l) rest.
Proof. reflexivity. Qed.

Lemma is_fence_false l : is_fence l = false -> Re.FENCE_RE l = None.
Proof. unfold is_fence. by destruct (Re.FENCE_RE l). Qed.

Lemma is_fence_true l : is_fence l = true -> exists lang, Re.FENCE_RE l = Some lang.
Proof. unfold is_fence. destruct (Re.FENCE_RE l); [eauto|discriminate]. Qed.

Lemma mermaid_loop_flag rel n st lines :
  ms_in_fence (mermaid_loop rel n st lines) = fence_flag lines (ms_in_fence st).
Proof.
  revert n st. induction lines as [|l lines IH]; intros n st; [done|].
  simpl. rewrite IH. f_equal. unfold mermaid_step, is_fence.
  destruct (Re.FENCE_RE l).
  - destruct (ms_in_fence st); cbn [negb]; [|done].
    repeat case_match; reflexivity.
  - by destruct (ms_in_fence st) eqn:E.
Qed.

(** Inside a fence that no later line closes, the loop only fills the
    buffer. *)
Lemma mermaid_loop_unclosed rel n st rest :
  ms_in_fence st = true -> plain rest ->
  let st' := mermaid_loop rel n st rest in
  ms_in_fence st' = true /\ ms_blocks st' = ms_blocks st
  /\ ms_problems st' = ms_problems st
  /\ ms_fence_start_line st' = ms_fence_start_line st.
Proof.
  intros Hst H. revert n st Hst.
  induction H as [|l rest Hl _ IH]; intros n st Hst; [done|].
  simpl. unfold mermaid_step at 1 2 3 4.
  rewrite (is_fence_false _ Hl), Hst.
  match goal with |- context [mermaid_loop rel (S n) ?s rest] =>
    destruct (IH (S n) s eq_refl) as (H1 & H2 & H3 & H4) end.
  by rewrite H1, H2, H3, H4.
Qed.

(** C10: when a body opens a fence at line [length pre + 1] and no later
    line closes it, the extractor gives the blocks and the problems of the
    lines before the fence, and one more problem, of message
    [unclosed code fence], at the line of the opening fence; nothing from
    that fence on makes a block. *)
Theorem unclosed_fence_is_reported
    (record : DocRecord) (pre rest : list (list ascii)) (opening : list ascii) :
  body_lines (body record) = pre ++ opening :: rest ->
  fence_flag pre false = false ->
  is_fence opening = true ->
  plain rest ->
  let before :=
    mermaid_finish (rel_path record)
      (mermaid_loop (rel_path record) 1 mermaid_init pre) in
  extract_fenced_mermaid_blocks record =
    (fst before,
     snd before ++
       [mkProblem "mermaid" (rel_path record) "unclosed code fence"
          (Some (length pre + 1))]).
Proof.
  intros Hbody Hpre Hop Hrest before.
  unfold extract_fenced_mermaid_blocks. rewrite Hbody, mermaid_loop_app.
  set (st := mermaid_loop (rel_path record) 1 mermaid_init pre) in *.
  assert (Hst : ms_in_fence st = false).
  { unfold st. by rewrite mermaid_loop_flag. }
  rewrite mermaid_loop_cons.
  destruct (is_fence_true _ Hop) as [lang Hlang].
  set (st1 := mermaid_step (rel_path record) (1 + length pre) st opening).
  assert (H1 : ms_in_fence st1 = true /\ ms_blocks st1 = ms_blocks st
               /\ ms_problems st1 = ms_problems st
               /\ ms_fence_start_line st1 = 1 + length pre).
  { unfold st1, mermaid_step. by rewrite Hlang, Hst. }
  destruct H1 as (Ha & Hb & Hc & Hd).
  destruct (mermaid_loop_unclosed (rel_path record) (S (1 + length pre))
              st1 rest Ha Hrest) as (Ha' & Hb' & Hc' & Hd').
  unfold mermaid_finish at 1. rewrite Ha', Hb', Hc', Hd', Hb, Hc, Hd.
  unfold before, mermaid_finish. rewrite Hst. simpl.
  unfold unclosed_fence. repeat f_equal. lia.
Qed.

Lemma unclosed_fence_is_reported_witness :
  extract_fenced_mermaid_blocks
    (mkDocRecord ["repo"; "docs"; "a.md"] "docs/a.md" "" ∅
       "intro
```mermaid
graph TD
```
text
```
# never closed" [] ∅ [])
  = ([(2, "graph TD")],
     [mkProblem "mermaid" "docs/a.md" "unclosed code fence" (Some 6)]).
Proof.
  apply (unclosed_fence_is_reported
    (mkDocRecord ["repo"; "docs"; "a.md"] "docs/a.md" "" ∅
       "intro
```mermaid
graph TD
```
text
```
# never closed" [] ∅ [])
    [Py.chars "intro"; Py.chars "```mermaid"; Py.chars "graph TD";
     Py.chars "```"; Py.chars "text"]
    [Py.chars "# never closed"] (Py.chars "```")
    eq_refl eq_refl eq_refl).
  repeat constructor.
Defined.

(** ** Whitespace of headings *)

Section NormalizeLemmas.
Import Py Re.

Lemma rstrip_cons c l :
  rstrip (c :: l) =
  match rstrip l with
  | [] => if isspace c then [] else [c]
  | r => c :: r
  end.
Proof. reflexivity. Qed.

Lemma rstrip_idem l : rstrip (rstrip l) = rstrip l.
Proof.
  induction l as [|c l IH]; [done|]. rewrite rstrip_cons.
  destruct (rstrip l) as [|d r] eqn:Er.
  - destruct (isspace c) eqn:E; simpl; [done|]. by rewrite E.
  - by rewrite rstrip_cons, IH.
Qed.

Lemma rstrip_fixed_cons c l :
  rstrip (c :: l) = c :: l -> rstrip l = l /\ (l = [] -> isspace c = false).
Proof.
  rewrite rstrip_cons. destruct (rstrip l) as [|d r] eqn:Er.
  - destruct (isspace c); [done|]. intros [= <-]. done.
  - intros [= <-]. done.
Qed.

Lemma head_nonspace_lstrip l : head_nonspace (lstrip l).
Proof.
  induction l as [|c l IH]; simpl; [done|].
  destruct (isspace c) eqn:E; [done|]. simpl. done.
Qed.

Lemma head_nonspace_rstrip l : head_nonspace l -> head_nonspace (rstrip l).
Proof.
  destruct l as [|c l]; [done|]. simpl. intros E.
  destruct (rstrip l); simpl; [by rewrite E|done].
Qed.

Lemma head_nonspace_strip l : head_nonspace (strip l).
Proof. apply head_nonspace_rstrip, head_nonspace_lstrip. Qed.

Lemma strip_idem l : strip (strip l) = strip l.
Proof.
  unfold strip at 1. pose proof (head_nonspace_strip l) as H.
  replace (lstrip (strip l)) with (strip l).
  - apply rstrip_idem.
  - destruct (strip l) as [|c k]; [done|]. simpl in *. by rewrite H.
Qed.

Lemma head_nonspace_sub r l : head_nonspace (sub_spaces r true l).
Proof.
  induction l as [|c l IH]; simpl; [done|].
  destruct (isspace c) eqn:E; [done|]. simpl. done.
Qed.

Lemma sub_spaces_nonempty r b l :
  rstrip l = l -> l <> [] -> sub_spaces r b l <> [].
Proof.
  revert b. induction l as [|c l IH]; intros b Hl Hne; [done|].
  apply rstrip_fixed_cons in Hl as [Hl Hc]. simpl.
  destruct (isspace c) eqn:E; [|done].
  assert (l <> []) by (intros ->; specialize (Hc eq_refl); congruence).
  destruct b; [by apply IH|done].
Qed.

Lemma tight_space_cons d k :
  isspace d = false -> tight (d :: k) = true ->
  tight (ascii_of_nat 32 :: d :: k) = true.
Proof.
  intros Hd Ht.
  change (tight (ascii_of_nat 32 :: d :: k))
    with (true && negb (isspace d) && tight (d :: k)).
  by rewrite Hd, Ht.
Qed.

Lemma tight_sub_spaces b l :
  rstrip l = l -> tight (sub_spaces (ascii_of_nat 32) b l) = true.
Proof.
  revert b. induction l as [|c l IH]; intros b Hl; [done|].
  apply rstrip_fixed_cons in Hl as [Hl Hc]. simpl.
  destruct (isspace c) eqn:E.
  - assert (Hne : l <> []) by (intros ->; specialize (Hc eq_refl); congruence).
    destruct b; [by apply IH|].
    pose proof (head_nonspace_sub (ascii_of_nat 32) l) as Hh.
    pose proof (sub_spaces_nonempty (ascii_of_nat 32) true l Hl Hne) as Hn.
    pose proof (IH true Hl) as Ht.
    destruct (sub_spaces (ascii_of_nat 32) true l) as [|d k]; [done|].
    by apply tight_space_cons.
  - simpl. rewrite E. by apply IH.
Qed.

Lemma tight_rstrip l : tight l = true -> rstrip l = l.
Proof.
  induction l as [|c l IH]; [done|]. simpl tight. rewrite rstrip_cons.
  destruct (isspace c) eqn:E.
  - intros H. apply andb_true_iff in H as [H Ht].
    apply andb_true_iff in H as [_ H]. rewrite (IH Ht).
    by destruct l.
  - intros Ht. rewrite (IH Ht). by destruct l.
Qed.

Lemma tight_sub_fixed b l :
  tight l = true -> (b = true -> head_nonspace l) ->
  sub_spaces (ascii_of_nat 32) b l = l.
Proof.
  revert b. induction l as [|c l IH]; intros b Ht Hb; [done|].
  simpl in *. destruct (isspace c) eqn:E.
  - apply andb_true_iff in Ht as [Ht Htl].
    apply andb_true_iff in Ht as [Hc Hd]. apply ch_eqb_eq in Hc as ->.
    destruct b; [by specialize (Hb eq_refl)|].
    rewrite IH; [done|done|]. intros _. destruct l; [done|].
    simpl. by apply negb_true_iff.
  - rewrite IH; [done|done|discriminate].
Qed.

Lemma tight_no_pair a c d b :
  tight (a ++ c :: d :: b) = true -> isspace c = true -> isspace d = false.
Proof.
  induction a as [|x a IH]; simpl.
  - intros H Hc. rewrite Hc in H. apply andb_true_iff in H as [H _].
    apply andb_true_iff in H as [_ H]. by apply negb_true_iff.
  - destruct (isspace x); [|exact IH]. intros H.
    apply andb_true_iff in H as [_ H]. by apply IH.
Qed.

Lemma tight_plain_space l :
  tight l = true ->
  Forall (fun c => isspace c = true -> c = ascii_of_nat 32) l.
Proof.
  induction l as [|c l IH]; simpl; [constructor|].
  destruct (isspace c) eqn:E.
  - intros H. apply andb_true_iff in H as [H Ht].
    apply andb_true_iff in H as [Hc _]. constructor; [|by apply IH].
    intros _. by apply ch_eqb_eq.
  - intros Ht. constructor; [intros; congruence|by apply IH].
Qed.

Lemma tight_end r c : tight (r ++ [c]) = true -> isspace c = false.
Proof.
  induction r as [|x r IH]; simpl.
  - destruct (isspace c); [|done]. by rewrite andb_false_r.
  - destruct (isspace x); [|exact IH]. intros H.
    apply andb_true_iff in H as [_ H]. by apply IH.
Qed.

Lemma normalize_chars_shape l :
  let s := sub_spaces (ascii_of_nat 32) false (strip l) in
  tight s = true /\ head_nonspace s.
Proof.
  cbn zeta. split.
  - apply tight_sub_spaces. apply rstrip_idem.
  - pose proof (head_nonspace_strip l) as H.
    destruct (strip l) as [|c k]; [done|]. simpl in *. by rewrite H.
Qed.

End NormalizeLemmas.

(** ** Heading order *)

Section SopLemmas.

Variable repo_root : Path.

Lemma after_first_Some req hs rest :
  after_first req hs = Some rest ->
  exists pre, hs = pre ++ req :: rest /\ req ∉ pre.
Proof.
  revert rest. induction hs as [|h hs IH]; intros rest; simpl; [done|].
  destruct (String.eqb h req) eqn:E.
  - apply String.eqb_eq in E. intros [= <-]. exists []. split; [by subst|].
    apply not_elem_of_nil.
  - apply String.eqb_neq in E. intros H.
    destruct (IH _ H) as (pre & -> & Hpre). exists (h :: pre).
    split; [done|]. rewrite not_elem_of_cons. by split.
Qed.

Lemma after_first_None req hs : after_first req hs = None -> req ∉ hs.
Proof.
  induction hs as [|h hs IH]; simpl; [intros _; apply not_elem_of_nil|].
  destruct (String.eqb h req) eqn:E; [done|].
  apply String.eqb_neq in E. intros H. rewrite not_elem_of_cons. split; auto.
Qed.

(** The search takes the first place where a heading occurs, and that
    loses nothing. *)
Lemma sublist_after_first (req : string) more pre rest :
  req ∉ pre ->
  req :: more `sublist_of` pre ++ req :: rest ->
  more `sublist_of` rest.
Proof.
  induction pre as [|p pre IH]; simpl; intros Hpre H.
  - inversion H; simplify_eq; [done|].
    etrans; [apply (sublist_cons req), reflexivity|done].
  - apply not_elem_of_cons in Hpre as [Hne Hpre].
    inversion H; simplify_eq; auto.
Qed.

Lemma sop_loop_nil record required hs :
  sop_loop record required hs = [] <-> required `sublist_of` hs.
Proof.
  revert hs. induction required as [|req more IH]; intros hs; simpl.
  - split; [intros _; apply sublist_nil_l|done].
  - destruct (after_first req hs) as [rest|] eqn:E.
    + destruct (after_first_Some _ _ _ E) as (pre & -> & Hpre).
      rewrite IH. split.
      * intros H. by apply sublist_inserts_l, sublist_skip.
      * by apply sublist_after_first.
    + split; [done|]. intros H. apply after_first_None in E.
      destruct E. apply (sublist_subseteq _ _ H). by left.
Qed.

(** The first required heading that cannot be placed is the one cited. *)
Lemma sop_loop_first_missing record required hs :
  ~ required `sublist_of` hs ->
  exists placed req more,
    required = placed ++ req :: more
    /\ placed `sublist_of` hs
    /\ ~ (placed ++ [req]) `sublist_of` hs
    /\ sop_loop record required hs = [sop_problem record req].
Proof.
  revert hs. induction required as [|req more IH]; intros hs Hno.
  - destruct Hno. apply sublist_nil_l.
  - simpl. destruct (after_first req hs) as [rest|] eqn:E.
    + destruct (after_first_Some _ _ _ E) as (pre & -> & Hpre).
      destruct (IH rest) as (placed & req' & more' & -> & Hpl & Hnpl & Hloop).
      { intros H. apply Hno. by apply sublist_inserts_l, sublist_skip. }
      exists (req :: placed), req', more'. repeat split; [| |done].
      * by apply sublist_inserts_l, sublist_skip.
      * intros H. apply Hnpl. by eapply sublist_after_first.
    + exists [], req, more. repeat split; [apply sublist_nil_l| ].
      intros H. apply after_first_None in E. destruct E.
      apply (sublist_subseteq _ _ H). by left.
Qed.

Lemma normalize_heading_shape (v : string) :
  tight (Py.chars (normalize_heading v)) = true
  /\ head_nonspace (Py.chars (normalize_heading v)).
Proof.
  unfold normalize_heading. rewrite chars_text.
  apply (normalize_chars_shape (Py.chars v)).
Qed.

Lemma validate_sop_headings_one contracts record :
  validate_sop_headings repo_root [record] contracts
  = sop_record_problems repo_root
      (map normalize_heading (sop_required_headings contracts)) record.
Proof.
  unfold validate_sop_headings. cbn [mapM].
  destruct (sop_record_problems _ _ record) as [ps|]; [|done].
  cbn. by rewrite app_nil_r.
Qed.

Lemma validate_sop_headings_app contracts a b pa pb :
  validate_sop_headings repo_root a contracts = Some pa ->
  validate_sop_headings repo_root b contracts = Some pb ->
  validate_sop_headings repo_root (a ++ b) contracts = Some (pa ++ pb).
Proof.
  unfold validate_sop_headings. intros Ha Hb.
  apply fmap_Some in Ha as (ka & Ha & ->).
  apply fmap_Some in Hb as (kb & Hb & ->).
  apply mapM_Some in Ha, Hb.
  rewrite (mapM_Some_2 _ _ (ka ++ kb)) by (by apply Forall2_app).
  cbn. by rewrite concat_app.
Qed.

(** C5 (as amended): for a document below the folder [sop], the
    heading-order check of the whole corpus gives no problem for the
    document exactly when the required headings, normalized, are a
    subsequence (in order, gaps allowed) of the headings of the document,
    normalized in the same way: every heading that is compared has no
    space at its ends and no other space than single plain spaces between
    its words.  Otherwise the check gives exactly one problem for the
    document, citing the first required heading that cannot be placed
    after the ones before it, and looks at no later required heading.  In
    both cases the problems of the documents before and after it are kept
    in their order. *)
Theorem sop_check_is_subsequence_test
    (contracts : Contracts) (record : DocRecord) (below : list string)
    (before after : list DocRecord) (ps_before ps_after : list Problem) :
  let required := map normalize_heading (sop_required_headings contracts) in
  let hs := map normalize_heading (headings record) in
  Paths.relative_to (path record) (docs_root repo_root) = Some ("sop" :: below) ->
  validate_sop_headings repo_root before contracts = Some ps_before ->
  validate_sop_headings repo_root after contracts = Some ps_after ->
  (validate_sop_headings repo_root [record] contracts = Some []
     <-> required `sublist_of` hs)
  /\ (forall h, h ∈ required ++ hs ->
        tight (Py.chars h) = true /\ head_nonspace (Py.chars h))
  /\ (required `sublist_of` hs ->
      validate_sop_headings repo_root (before ++ record :: after) contracts
      = Some (ps_before ++ ps_after))
  /\ (~ required `sublist_of` hs ->
      exists placed req more,
        required = placed ++ req :: more
        /\ placed `sublist_of` hs
        /\ ~ (placed ++ [req]) `sublist_of` hs
        /\ validate_sop_headings repo_root [record] contracts
           = Some [sop_problem record req]
        /\ validate_sop_headings repo_root (before ++ record :: after)
             contracts
           = Some (ps_before ++ sop_problem record req :: ps_after)).
Proof.
  intros required hs Hrel Hbefore Hafter.
  assert (validate_sop_headings repo_root [record] contracts
          = Some (sop_loop record required hs)) as Hone.
  { rewrite validate_sop_headings_one. unfold sop_record_problems.
    rewrite Hrel. reflexivity. }
  assert (forall ps,
            validate_sop_headings repo_root [record] contracts = Some ps ->
            validate_sop_headings repo_root (before ++ record :: after)
              contracts = Some (ps_before ++ ps ++ ps_after)) as Hall.
  { intros ps Hps. apply validate_sop_headings_app; [done|].
    by apply (validate_sop_headings_app contracts [record] after). }
  split; [|split; [|split]].
  - rewrite Hone, <- (sop_loop_nil record required hs). split; congruence.
  - intros h Hh. apply elem_of_app in Hh as [Hh|Hh];
      apply list_elem_of_fmap in Hh as (raw & -> & _);
      apply normalize_heading_shape.
  - intros Hsub. apply (Hall []). rewrite Hone. f_equal.
    by apply sop_loop_nil.
  - intros Hno.
    destruct (sop_loop_first_missing record required hs Hno)
      as (placed & req & more & H1 & H2 & H3 & H4).
    exists placed, req, more. rewrite Hone, H4.
    split; [done|]. split; [done|]. split; [done|]. split; [done|].
    apply (Hall [sop_problem record req]). by rewrite Hone, H4.
Qed.

End SopLemmas.

Lemma sop_check_is_subsequence_test_witness :
  exists req,
    validate_sop_headings ["repo"] [sop_scenario_record]
      sop_scenario_contracts
    = Some [sop_problem sop_scenario_record req].
Proof.
  destruct (sop_check_is_subsequence_test ["repo"] sop_scenario_contracts
              sop_scenario_record ["deploy.md"] [] [] [] []
              eq_refl eq_refl eq_refl) as (_ & _ & _ & H).
  destruct H as (placed & req & more & H1 & H2 & H3 & H4 & H5).
  - change (~ ["Goal"; "Preconditions"; "Steps"] `sublist_of` ["Goal"; "Steps"]).
    intros Hs. apply sublist_length in Hs. simpl in Hs. lia.
  - exists req. exact H4.
Defined.

(** C5, the claim as it is written, fails for a heading of the document
    that is not normalized: the heading extracted from the line
    [#  Release   notes ] keeps its three spaces, so the required heading
    [Release notes] is no subsequence of the extracted headings, and the
    check still succeeds, because the code normalizes the headings of the
    document before it compares them. *)
Lemma document_headings_are_normalized_too :
  headings sop_spacing_record = ["Release   notes"]
  /\ map normalize_heading (sop_required_headings sop_spacing_contracts)
     = ["Release notes"]
  /\ ~ map normalize_heading (sop_required_headings sop_spacing_contracts)
        `sublist_of` headings sop_spacing_record
  /\ validate_sop_headings ["repo"] [sop_spacing_record]
       sop_spacing_contracts = Some [].
Proof.
  split; [vm_compute; reflexivity|]. split; [vm_compute; reflexivity|].
  split; [|vm_compute; reflexivity].
  replace (headings sop_spacing_record) with ["Release   notes"]
    by (vm_compute; reflexivity).
  replace (map normalize_heading (sop_required_headings sop_spacing_contracts))
    with ["Release notes"] by (vm_compute; reflexivity).
  intros H. apply sublist_subseteq in H.
  assert ("Release notes" ∈ ["Release   notes"]) as Hin
    by (apply H; by left).
  apply list_elem_of_singleton in Hin. discriminate Hin.
Qed.

(** The scenario of the specification: the headings [Goal] and [Steps]
    against the required [Goal], [Preconditions], [Steps]. *)
Example sop_scenario :
  validate_sop_headings ["repo"] [sop_scenario_record] sop_scenario_contracts
  = Some [mkProblem "sop" "docs/sop/deploy.md"
            "missing or out-of-order heading `Preconditions`" None].
Proof. reflexivity. Qed.

(** ** Metadata parser *)

Lemma fm_loop_app idx st a b :
  fm_loop idx st (a ++ b) = fm_loop (idx + length a) (fm_loop idx st a) b.
Proof.
  revert idx st. induction a as [|l a IH]; intros idx st; simpl.
  - by rewrite Nat.add_0_r.
  - by rewrite IH, Nat.add_succ_comm.
Qed.

Lemma fm_loop_cons idx st l rest :
  fm_loop idx st (l :: rest) = fm_loop (S idx) (fm_step idx st l) rest.
Proof. reflexivity. Qed.

Lemma fm_step_key idx st l key v :
  classify (Py.rstrip l) = FmKey key v ->
  fm_data (fm_step idx st l) = <[ key := key_line_value v ]> (fm_data st)
  /\ fm_errors (fm_step idx st l) = fm_errors st
  /\ fm_current_list_key (fm_step idx st l)
     = match v with [] => Some key | _ => None end.
Proof.
  intros H. unfold fm_step, key_line_value. rewrite H.
  destruct v as [|c v]; [done|].
  by destruct (Py.startswith _ _ && Py.endswith _ _).
Qed.

(** A key that is not the open list keeps its value until its next key
    line. *)
Lemma fm_loop_closed key post idx st :
  Forall (not_key_line key) post ->
  fm_current_list_key st <> Some key ->
  fm_data (fm_loop idx st post) !! key = fm_data st !! key.
Proof.
  intros H. revert idx st.
  induction H as [|l post Hl _ IH]; intros idx st Hcur; [done|].
  simpl. unfold fm_step.
  destruct (classify (Py.rstrip l)) as [| |item|k v|] eqn:E.
  - by apply IH.
  - by apply IH.
  - destruct (fm_current_list_key st) as [k|] eqn:Ek.
    + destruct (fm_data st !! k) as [[s|items]|] eqn:Ed.
      * by rewrite IH.
      * rewrite IH; simpl; [|done]. apply lookup_insert_ne. congruence.
      * by rewrite IH.
    + by rewrite IH.
  - assert (k <> key) by (intros ->; by apply (Hl v)).
    destruct v as [|c v].
    + rewrite IH; simpl; [by apply lookup_insert_ne|congruence].
    + destruct (Py.startswith _ _ && Py.endswith _ _);
        (rewrite IH; simpl; [by apply lookup_insert_ne|done]).
  - rewrite IH; [done|]. done.
Qed.

(** The open list takes the items that follow. *)
Lemma fm_loop_open key post idx st acc :
  Forall (not_key_line key) post ->
  fm_current_list_key st = Some key ->
  fm_data st !! key = Some (VList acc) ->
  fm_data (fm_loop idx st post) !! key
  = Some (VList (acc ++ following_items post)).
Proof.
  intros H. revert idx st acc.
  induction H as [|l post Hl Hpost IH]; intros idx st acc Hcur Hdata; simpl.
  - by rewrite app_nil_r.
  - unfold fm_step.
    destruct (classify (Py.rstrip l)) as [| |item|k v|] eqn:E.
    + by apply IH.
    + by apply IH.
    + rewrite Hcur, Hdata.
      rewrite (IH _ _ (acc ++ [parse_scalar item])); simpl;
        [by rewrite <- app_assoc|done|apply lookup_insert_eq].
    + assert (k <> key) by (intros ->; by apply (Hl v)).
      rewrite app_nil_r, <- Hdata.
      destruct v as [|c v].
      * rewrite fm_loop_closed; simpl;
          [by apply lookup_insert_ne|done|congruence].
      * destruct (Py.startswith _ _ && Py.endswith _ _);
          (rewrite fm_loop_closed; simpl;
           [by apply lookup_insert_ne|done|done]).
    + rewrite app_nil_r, <- Hdata. by rewrite fm_loop_closed.
Qed.

(** C9: when a key has several key lines in a block, whatever their form,
    the value of its last key line wins: after that line [l] and the lines
    [post], none of them a key line of this key, the mapping holds for the
    key the value of [l] (for a bare key line, the list of the items that
    follow it), whatever the lines [pre] before [l] gave to the key; and the
    key line [l] itself adds no error, duplicate or not. *)
Theorem last_key_line_wins
    (pre post : list (list ascii)) (l : list ascii) (key : string)
    (v : list ascii) :
  classify (Py.rstrip l) = FmKey key v ->
  Forall (not_key_line key) post ->
  fst (parse_lines (pre ++ l :: post)) !! key = Some (final_value v post)
  /\ fm_errors (fm_loop 1 fm_init (pre ++ [l]))
     = fm_errors (fm_loop 1 fm_init pre).
Proof.
  intros Hl Hpost. unfold parse_lines. cbn [fst].
  rewrite !fm_loop_app, !fm_loop_cons.
  set (st := fm_loop 1 fm_init pre).
  destruct (fm_step_key (1 + length pre) st l key v Hl) as (Hd & He & Hc).
  split; [|exact He].
  unfold final_value. destruct v as [|c v].
  - rewrite (fm_loop_open key post _ _ []); [done|done|done|].
    rewrite Hd. apply lookup_insert_eq.
  - rewrite fm_loop_closed; [|done|by rewrite Hc].
    rewrite Hd. apply lookup_insert_eq.
Qed.

Lemma last_key_line_wins_witness :
  fst (parse_yamlish_frontmatter "tags: [a, b]
owner: x
tags:
  - c
  # note
  - 'd'
owner: y") !! "tags" = Some (VList [SStr "c"; SStr "d"]).
Proof.
  exact (proj1
    (last_key_line_wins
       [Py.chars "tags: [a, b]"; Py.chars "owner: x"]
       [Py.chars "  - c"; Py.chars "  # note"; Py.chars "  - 'd'";
        Py.chars "owner: y"]
       (Py.chars "tags:") "tags" [] eq_refl
       ltac:(repeat constructor; intros v; vm_compute; discriminate))).
Defined.

Example duplicate_scalar_key :
  parse_yamlish_frontmatter "title: One
title: Two"
  = ({[ "title" := VScalar (SStr "Two") ]}, []).
Proof. reflexivity. Qed.

(** ** Metadata splitter *)

Section SplitLemmas.
Import Py.

Lemma splitlines_go_line p cur rest :
  no_linebreak p ->
  splitlines_go cur (p ++ rest) = splitlines_go (rev p ++ cur) rest.
Proof.
  intros H. revert cur. induction H as [|c p Hc _ IH]; intros cur; [done|].
  simpl. rewrite Hc, IH. by rewrite <- app_assoc.
Qed.

Lemma splitlines_go_nl cur rest :
  splitlines_go cur (nl :: rest) = rev cur :: splitlines_go [] rest.
Proof. by destruct rest. Qed.

Lemma splitlines_go_lines n : forall l cur,
  length l <= n -> no_linebreak cur ->
  Forall no_linebreak (splitlines_go cur l).
Proof.
  induction n as [|n IH]; intros l cur Hn Hcur.
  - destruct l; [|simpl in Hn; lia]. simpl.
    destruct cur; [constructor|]. repeat constructor. by apply Forall_rev.
  - destruct l as [|c l]; simpl.
    { destruct cur; [constructor|]. repeat constructor. by apply Forall_rev. }
    simpl in Hn. destruct (is_linebreak c) eqn:Ec.
    + destruct l as [|d l].
      { repeat constructor. by apply Forall_rev. }
      simpl in Hn.
      destruct ((code c =? 13) && (code d =? 10));
        (constructor; [by apply Forall_rev|]);
        (apply IH; [simpl; lia|constructor]).
    + apply IH; [lia|]. by constructor.
Qed.

Lemma splitlines_lines l : Forall no_linebreak (splitlines l).
Proof. apply (splitlines_go_lines (length l)); [lia|constructor]. Qed.

Lemma splitlines_join block :
  Forall no_linebreak block ->
  splitlines (join [nl] block) = drop_last_empty block.
Proof.
  unfold splitlines. induction 1 as [|p block Hp Hblock IH]; [done|].
  destruct block as [|q more].
  - simpl. rewrite <- (app_nil_r p) at 1.
    rewrite (splitlines_go_line p [] [] Hp), app_nil_r. simpl.
    destruct p as [|c p]; [done|].
    destruct (rev (c :: p)) eqn:E; [|by rewrite <- E, rev_involutive].
    apply (f_equal (@length ascii)) in E. rewrite length_rev in E.
    discriminate.
  - change (join [nl] (p :: q :: more)) with (p ++ nl :: join [nl] (q :: more)).
    rewrite (splitlines_go_line p [] _ Hp), app_nil_r, splitlines_go_nl.
    rewrite rev_involutive, IH. done.
Qed.

Lemma fm_loop_drop_last_empty block idx st :
  fm_loop idx st (drop_last_empty block) = fm_loop idx st block.
Proof.
  revert idx st. induction block as [|p block IH]; intros idx st; [done|].
  destruct block as [|q more].
  - by destruct p.
  - change (drop_last_empty (p :: q :: more))
      with (p :: drop_last_empty (q :: more)).
    by rewrite !fm_loop_cons, IH.
Qed.

(** Parsing the block joined by line feeds is parsing its lines. *)
Lemma parse_joined block :
  Forall no_linebreak block ->
  parse_yamlish_frontmatter (text (join [nl] block)) = parse_lines block.
Proof.
  intros H. unfold parse_yamlish_frontmatter, parse_lines.
  by rewrite chars_text, splitlines_join, fm_loop_drop_last_empty.
Qed.

Lemma cut_at_delim_Some block closing after :
  Forall (fun l => is_delim l = false) block ->
  is_delim closing = true ->
  cut_at_delim (block ++ closing :: after) = Some (block, after).
Proof.
  intros H Hc. induction H as [|l block Hl _ IH]; simpl.
  - by rewrite Hc.
  - by rewrite Hl, IH.
Qed.

Lemma cut_at_delim_None rest :
  Forall (fun l => is_delim l = false) rest -> cut_at_delim rest = None.
Proof.
  induction 1 as [|l rest Hl _ IH]; simpl; [done|]. by rewrite Hl, IH.
Qed.

End SplitLemmas.

(** The case of a block between two delimiter lines. *)
Lemma split_frontmatter_parsed text first block closing after :
  begins_with_delimiter text = true ->
  Py.splitlines (Py.chars text) = first :: block ++ closing :: after ->
  Forall (fun l => is_delim l = false) block ->
  is_delim closing = true ->
  split_frontmatter text
  = (fst (parse_lines block), Py.text (Py.join [Py.nl] after),
     snd (parse_lines block)).
Proof.
  unfold begins_with_delimiter, split_frontmatter.
  intros H Hlines Hblock Hclosing.
  pose proof (splitlines_lines (Py.chars text)) as Hnl.
  rewrite Hlines in *. apply andb_true_iff in H as [-> ->]. cbn [negb].
  rewrite cut_at_delim_Some by done.
  rewrite parse_joined; [by destruct (parse_lines block)|].
  apply Forall_cons in Hnl as [_ Hnl]. by apply Forall_app in Hnl as [Hnl _].
Qed.

(** C4 (as amended): the four cases of the splitter.  A text that does not
    start with the three hyphens gives the empty mapping, the whole text as
    body and the error of a missing start delimiter; a text that starts with
    them and whose first line is not the delimiter line gives the same with
    the error of an invalid start delimiter; a text that begins with the
    delimiter line and has no later delimiter line gives the empty mapping,
    the whole text and the error of a missing end delimiter; otherwise the
    lines between the first two delimiter lines are parsed as metadata, and
    the body is the lines after the second one, joined by line feeds. *)
Theorem split_frontmatter_cases (text : string) :
  (Py.startswith (Py.chars FRONTMATTER_DELIM) (Py.chars text) = false ->
   split_frontmatter text
   = (∅, text, ["missing frontmatter start delimiter"]))
  /\ (Py.startswith (Py.chars FRONTMATTER_DELIM) (Py.chars text) = true ->
      begins_with_delimiter text = false ->
      split_frontmatter text
      = (∅, text, ["invalid frontmatter start delimiter"]))
  /\ (forall first rest,
        begins_with_delimiter text = true ->
        Py.splitlines (Py.chars text) = first :: rest ->
        Forall (fun l => is_delim l = false) rest ->
        split_frontmatter text
        = (∅, text, ["missing frontmatter end delimiter"]))
  /\ (forall first block closing after,
        begins_with_delimiter text = true ->
        Py.splitlines (Py.chars text) = first :: block ++ closing :: after ->
        Forall (fun l => is_delim l = false) block ->
        is_delim closing = true ->
        split_frontmatter text
        = (fst (parse_lines block), Py.text (Py.join [Py.nl] after),
           snd (parse_lines block)))
  /\ (begins_with_delimiter text = true
      \/ Py.startswith (Py.chars FRONTMATTER_DELIM) (Py.chars text) = false ->
      split_frontmatter text = split_frontmatter_spec text).
Proof.
  split; [|split; [|split; [|split; [apply split_frontmatter_parsed|]]]];
    unfold split_frontmatter_spec, begins_with_delimiter, split_frontmatter.
  - by intros ->.
  - intros ->. simpl.
    destruct (Py.splitlines _) as [|first rest]; [done|]. by intros ->.
  - intros first rest H Hlines Hrest. rewrite Hlines in *.
    apply andb_true_iff in H as [-> ->]. cbn [negb].
    by rewrite cut_at_delim_None.
  - intros [H| ->]; [|done].
    pose proof (splitlines_lines (Py.chars text)) as Hnl.
    destruct (Py.splitlines _) as [|first rest].
    { by rewrite andb_false_r in H. }
    apply andb_true_iff in H as [-> ->]. cbn [negb andb tl].
    destruct (cut_at_delim rest) as [[block after]|] eqn:E; [|done].
    rewrite parse_joined; [by destruct (parse_lines block)|].
    apply Forall_cons in Hnl as [_ Hnl]. clear -E Hnl.
    revert block after E.
    induction Hnl as [|l rest Hl _ IH]; intros block after; simpl; [done|].
    destruct (is_delim l); [intros [= <- <-]; constructor|].
    destruct (cut_at_delim rest) as [[b a]|]; [|done].
    intros [= <- <-]. constructor; [done|]. by eapply IH.
Qed.

Lemma split_frontmatter_cases_witness :
  split_frontmatter "---
title: T
---
body
more"
  = ({[ "title" := VScalar (SStr "T") ]}, "body
more", []).
Proof.
  exact (proj1 (proj2 (proj2 (proj2 (split_frontmatter_cases "---
title: T
---
body
more")))) (Py.chars "---") [Py.chars "title: T"] (Py.chars "---")
      [Py.chars "body"; Py.chars "more"] eq_refl eq_refl
      ltac:(repeat constructor) eq_refl).
Defined.

Example split_missing_start :
  split_frontmatter "title: T"
  = (∅, "title: T", ["missing frontmatter start delimiter"]).
Proof. reflexivity. Qed.

(** C4, the claim as it is written, fails for a text that starts with the
    three hyphens and whose first line holds more: the text does not begin
    with the delimiter line, and the error is not the one of the missing
    start delimiter. *)
Lemma invalid_start_delimiter :
  begins_with_delimiter "----
---" = false
  /\ split_frontmatter "----
---"
     = (∅, "----
---", ["invalid frontmatter start delimiter"])
  /\ split_frontmatter "----
---" <> split_frontmatter_spec "----
---".
Proof. split; [reflexivity|]. split; [reflexivity|]. discriminate. Qed.

Example split_missing_end :
  split_frontmatter "---
title: T"
  = (∅, "---
title: T", ["missing frontmatter end delimiter"]).
Proof. reflexivity. Qed.

(** ** Metadata check *)

Section FrontmatterLemmas.

Variable repo_root : Path.
Variable fromisoformat : string -> option date.
Variable int_of_str : string -> option Z.
Variable repr_str : string -> string.

Lemma not_stale_when b p : not_stale p -> Forall not_stale (when b p).
Proof. intros H. destruct b; [constructor; [done|constructor]|constructor]. Qed.

Lemma not_stale_missing contracts record :
  Forall not_stale (missing_fields contracts record).
Proof.
  unfold missing_fields. apply Forall_map, Forall_forall. intros f _.
  by right.
Qed.

Lemma not_stale_title record : Forall not_stale (title_problems record).
Proof. apply not_stale_when. by right. Qed.

Lemma not_stale_superseded record :
  Forall not_stale (superseded_problems record).
Proof. apply not_stale_when. by right. Qed.

Lemma not_stale_enum record field allowed :
  field = "category" \/ field = "owner" \/ field = "status" ->
  Forall not_stale (enum_problems repr_str record field allowed).
Proof.
  intros H. unfold enum_problems.
  assert (not_stale (one_of repr_str record field allowed))
    by (right; destruct H as [->|[->| ->]]; reflexivity).
  destruct (as_str _); [by apply not_stale_when|].
  constructor; [done|constructor].
Qed.

Lemma not_stale_list_field record field :
  field = "audience" \/ field = "invariants" ->
  Forall not_stale (list_field_problems record field).
Proof.
  intros H. unfold list_field_problems.
  destruct (frontmatter record !! field) as [[s|[|v vs]]|];
    try (constructor; [right; destruct H as [->| ->]; reflexivity
                      |constructor]).
  apply not_stale_when. right. by destruct H as [->| ->].
Qed.

Lemma not_stale_taxonomy contracts record ps :
  taxonomy_problems repo_root repr_str contracts record = Some ps ->
  Forall not_stale ps.
Proof.
  unfold taxonomy_problems.
  destruct (Paths.relative_to _ _) as [[|a [|b rel]]|]; simpl; [done| | |done].
  - intros [= <-]. destruct (as_str _); [|constructor].
    apply not_stale_when. by left.
  - intros [= <-]. apply Forall_app. split.
    + destruct (diataxis_category_by_folder contracts !! a) as [[|c e]|];
        [constructor| |constructor].
      apply not_stale_when. by left.
    + apply not_stale_when. by left.
Qed.

Lemma prefix_append (p x : string) : String.prefix p (p +:+ x) = true.
Proof.
  induction p as [|c p IH]; simpl; [by destruct x|].
  destruct (ascii_dec c c); [exact IH|done].
Qed.

Lemma stale_is_stale record age days :
  ~ not_stale (stale_problem record age days).
Proof.
  intros [H|H]; [by apply H|].
  unfold stale_problem, fm_problem, message in H.
  by rewrite prefix_append in H.
Qed.

Lemma not_stale_elem ps record age days :
  Forall not_stale ps -> stale_problem record age days ∉ ps.
Proof.
  intros H Hin. rewrite Forall_forall in H.
  by apply (stale_is_stale record age days), H.
Qed.

(** The problems of one document with a review date that parses. *)
Lemma record_problems_stale
    (contracts : Contracts) (record : DocRecord)
    (reviewed : string) (review_date today : date) (stale_days : Z)
    (folder : string) (below : list string) :
  as_str (frontmatter record !! "last_reviewed") = Some reviewed ->
  parse_review_date fromisoformat reviewed = Some review_date ->
  Paths.relative_to (path record) (docs_root repo_root)
    = Some (folder :: below) ->
  let age_days := Calendar.days_between today review_date in
  exists problems,
    frontmatter_record_problems repo_root fromisoformat repr_str contracts
      stale_days today record = Some problems
    /\ (stale_problem record age_days stale_days ∈ problems
        <-> (stale_days < age_days)%Z).
Proof.
  intros Hrev Hparse Hrel age.
  unfold frontmatter_record_problems.
  destruct (decide (frontmatter record = ∅)) as [He|_].
  { rewrite He, lookup_empty in Hrev. discriminate. }
  destruct (taxonomy_problems repo_root repr_str contracts record)
    as [tax|] eqn:Etax.
  2: { unfold taxonomy_problems in Etax. rewrite Hrel in Etax. simpl in Etax.
       by destruct below. }
  cbn [mbind option_bind]. eexists. split; [reflexivity|].
  assert (Hiff : forall p, p = stale_problem record age stale_days ->
    (p ∈ missing_fields contracts record ++ title_problems record
         ++ enum_problems repr_str record "category" (allowed_categories contracts)
         ++ enum_problems repr_str record "owner" (allowed_owners contracts)
         ++ enum_problems repr_str record "status" (allowed_statuses contracts)
         ++ superseded_problems record
         ++ reviewed_problems fromisoformat stale_days today record
         ++ list_field_problems record "audience"
         ++ list_field_problems record "invariants" ++ tax)
    <-> (stale_days < age)%Z).
  { intros p ->. rewrite !elem_of_app.
    unfold reviewed_problems. rewrite Hrev, Hparse. fold age.
    pose proof (not_stale_elem _ record age stale_days
                  (not_stale_missing contracts record)).
    pose proof (not_stale_elem _ record age stale_days
                  (not_stale_title record)) as Ht.
    pose proof (not_stale_elem _ record age stale_days
                  (not_stale_enum record "category"
                     (allowed_categories contracts) (or_introl eq_refl))).
    pose proof (not_stale_elem _ record age stale_days
                  (not_stale_enum record "owner"
                     (allowed_owners contracts)
                     (or_intror (or_introl eq_refl)))).
    pose proof (not_stale_elem _ record age stale_days
                  (not_stale_enum record "status"
                     (allowed_statuses contracts)
                     (or_intror (or_intror eq_refl)))).
    pose proof (not_stale_elem _ record age stale_days
                  (not_stale_superseded record)) as Hs.
    pose proof (not_stale_elem _ record age stale_days
                  (not_stale_list_field record "audience" (or_introl eq_refl))).
    pose proof (not_stale_elem _ record age stale_days
                  (not_stale_list_field record "invariants" (or_intror eq_refl))).
    pose proof (not_stale_elem _ record age stale_days
                  (not_stale_taxonomy _ _ _ Etax)).
    destruct (Z.ltb_spec stale_days age) as [Hlt|Hge]; simpl.
    - split; [done|]. intros _. do 6 right. left. apply list_elem_of_here.
    - split; [|lia].
      intros [?|[?|[?|[?|[?|[?|[Hin|[?|[?|?]]]]]]]]]; try done.
      by apply elem_of_nil in Hin. }
  by apply Hiff.
Qed.

(** C2: for a document whose [last_reviewed] parses as a date, the
    metadata check gives the problem of a stale review if and only if the
    age of the review in days, counted to the current date (the override
    of the environment when there is one), exceeds the threshold: at
    exactly the threshold plus one it is flagged, at exactly the threshold
    it is not.  [problems] is what the check gives for the document, alone
    or among the documents of a corpus. *)
Theorem stale_iff_older_than_threshold
    (env : Env) (contracts : Contracts) (record : DocRecord)
    (reviewed : string) (review_date today : date) (stale_days : Z)
    (folder : string) (below : list string) :
  current_date fromisoformat env = Some today ->
  stale_days_of int_of_str env contracts = Some stale_days ->
  as_str (frontmatter record !! "last_reviewed") = Some reviewed ->
  parse_review_date fromisoformat reviewed = Some review_date ->
  Paths.relative_to (path record) (docs_root repo_root)
    = Some (folder :: below) ->
  let age_days := Calendar.days_between today review_date in
  exists problems,
    validate_frontmatter repo_root fromisoformat int_of_str repr_str env
      [record] contracts = Some problems
    /\ (forall before after all,
          validate_frontmatter repo_root fromisoformat int_of_str repr_str
            env (before ++ record :: after) contracts = Some all ->
          exists a b, all = a ++ problems ++ b)
    /\ (stale_problem record age_days stale_days ∈ problems
        <-> (stale_days < age_days)%Z)
    /\ (age_days = (stale_days + 1)%Z ->
        stale_problem record age_days stale_days ∈ problems)
    /\ (age_days = stale_days ->
        stale_problem record age_days stale_days ∉ problems).
Proof.
  intros Htoday Hdays Hrev Hparse Hrel age.
  destruct (record_problems_stale contracts record reviewed review_date today
              stale_days folder below Hrev Hparse Hrel)
    as (problems & Hrec & Hiff).
  fold age in Hiff. exists problems.
  unfold validate_frontmatter. rewrite Hdays, Htoday.
  cbn [mbind option_bind]. repeat split.
  - cbn. rewrite Hrec. cbn. by rewrite app_nil_r.
  - intros before after all Hall.
    destruct (mapM _ (before ++ record :: after)) as [rs|] eqn:Em;
      [|discriminate].
    injection Hall as <-. apply mapM_Some_1 in Em.
    apply Forall2_app_inv_l in Em as (r1 & r2 & H1 & H2 & ->).
    apply Forall2_cons_inv_l in H2 as (rx & r3 & Hx & H3 & ->).
    rewrite Hrec in Hx. injection Hx as <-.
    exists (concat r1), (concat r3). by rewrite concat_app.
  - apply Hiff.
  - apply Hiff.
  - intros Hage. apply Hiff. lia.
  - intros Hage Hin. apply Hiff in Hin. lia.
Qed.

End FrontmatterLemmas.

Lemma stale_iff_older_than_threshold_witness :
  exists problems,
    validate_frontmatter ["repo"] Calendar.parse_ymd (fun _ => None)
      (fun s => s) stale_scenario_env [stale_scenario_record]
      stale_scenario_contracts = Some problems
    /\ stale_problem stale_scenario_record 181 180 ∈ problems.
Proof.
  destruct (stale_iff_older_than_threshold ["repo"] Calendar.parse_ymd
              (fun _ => None) (fun s => s) stale_scenario_env
              stale_scenario_contracts stale_scenario_record
              "2024-01-01" (mkDate 2024 1 1) (mkDate 2024 6 30) 180
              "guide.md" [] eq_refl eq_refl eq_refl eq_refl eq_refl)
    as (problems & Hv & _ & _ & Hflag & _).
  exists problems. split; [exact Hv|]. apply Hflag. reflexivity.
Defined.

(** On the threshold itself the document is not flagged. *)
Example not_stale_on_threshold :
  validate_frontmatter ["repo"] Calendar.parse_ymd (fun _ => None)
    (fun s => s) (mkEnv (Some "2024-06-29") None (mkDate 2030 1 1))
    [stale_scenario_record] stale_scenario_contracts
  = Some [fm_problem stale_scenario_record "`title` must be a non-empty string";
          fm_problem stale_scenario_record "`category` must be one of []";
          fm_problem stale_scenario_record "`owner` must be one of []";
          fm_problem stale_scenario_record "`status` must be one of []";
          fm_problem stale_scenario_record "`audience` must be a non-empty list";
          fm_problem stale_scenario_record "`invariants` must be a non-empty list"].
Proof. vm_compute. reflexivity. Qed.

(** ** Documents whose metadata does not parse *)

Lemma filter_keeps_all {A} (p : A -> bool) (l : list A) :
  (forall x, p x = true) -> List.filter p l = l.
Proof.
  intros H. induction l as [|x l IH]; simpl; [done|]. by rewrite H, IH.
Qed.

Lemma missing_fields_empty contracts record :
  frontmatter record = ∅ ->
  missing_fields contracts record
  = map (missing_field record) (required_frontmatter contracts).
Proof.
  intros He. unfold missing_fields. f_equal.
  apply filter_keeps_all. intros field. by rewrite He, lookup_empty.
Qed.

Lemma fm_step_keeps idx st l k :
  is_Some (fm_data st !! k) -> is_Some (fm_data (fm_step idx st l) !! k).
Proof.
  intros Hk. unfold fm_step.
  destruct (classify (Py.rstrip l)) as [| |item|key v|]; try done.
  - destruct (fm_current_list_key st) as [c|]; [|done].
    destruct (fm_data st !! c) as [[x|items]|]; try done. simpl.
    rewrite lookup_insert. by case_decide.
  - destruct v as [|c v]; [|destruct (_ && _)]; simpl;
      rewrite lookup_insert; by case_decide.
Qed.

Lemma fm_loop_keeps lines idx st k :
  is_Some (fm_data st !! k) -> is_Some (fm_data (fm_loop idx st lines) !! k).
Proof.
  revert idx st. induction lines as [|l lines IH]; intros idx st Hk; [done|].
  simpl. by apply IH, fm_step_keeps.
Qed.

(** The mapping holds every key that has a key line, whatever the other
    lines are. *)
Lemma key_line_in_mapping block l key v :
  l ∈ block -> classify (Py.rstrip l) = FmKey key v ->
  is_Some (fst (parse_lines block) !! key).
Proof.
  intros Hin Hl. apply list_elem_of_split in Hin as (pre & post & ->).
  unfold parse_lines. cbn [fst]. rewrite fm_loop_app, fm_loop_cons.
  apply fm_loop_keeps.
  destruct (fm_step_key (1 + length pre) (fm_loop 1 fm_init pre) l key v Hl)
    as (-> & _). rewrite lookup_insert_eq. by eexists.
Qed.

Lemma split_frontmatter_fallback text :
  begins_with_delimiter text = false
  \/ cut_at_delim (tl (Py.splitlines (Py.chars text))) = None ->
  exists e, split_frontmatter text = (∅, text, [e]).
Proof.
  unfold split_frontmatter, begins_with_delimiter. intros H.
  destruct (Py.startswith _ _); [|by eexists].
  destruct (Py.splitlines _) as [|first rest]; [by eexists|].
  destruct (is_delim first); [|by eexists].
  destruct H as [H|H]; [done|]. cbn [negb tl] in *. rewrite H. by eexists.
Qed.

Lemma collect_docs_one repo_root file record problems :
  collect_one repo_root file = Some (record, problems) ->
  collect_docs repo_root [file] = Some ([record], problems).
Proof.
  intros H. unfold collect_docs. cbn [mapM]. rewrite H. cbn.
  by rewrite app_nil_r.
Qed.

Lemma validate_frontmatter_empty_one
    repo_root fromisoformat int_of_str repr_str env contracts stale_days today
    record :
  frontmatter record = ∅ ->
  stale_days_of int_of_str env contracts = Some stale_days ->
  current_date fromisoformat env = Some today ->
  validate_frontmatter repo_root fromisoformat int_of_str repr_str env
    [record] contracts
  = Some (map (missing_field record) (required_frontmatter contracts)).
Proof.
  intros He Hd Ht. unfold validate_frontmatter. rewrite Hd, Ht.
  cbn [mbind option_bind mapM]. unfold frontmatter_record_problems.
  destruct (decide (frontmatter record = ∅)) as [_|Hne]; [|done].
  cbn. by rewrite missing_fields_empty, app_nil_r.
Qed.

(** C7 (as amended): the collector makes a record of every document that
    lies below the repository root, whatever its metadata: the headings, the
    anchors and the links of the record are extracted from its body, so the
    heading and link checks run on it.  When the start or the end delimiter
    of the metadata block is missing, the mapping of the record is empty,
    its body is the whole text, and one parse problem is reported.  When the
    block lies between two delimiter lines, the mapping is the one the
    parser gives for its lines, errors or not, and it holds every key that
    has a key line.  And for a record whose mapping is empty, the metadata
    check gives one problem of a missing required field for each field the
    contract requires, and no other problem.  The same holds of the
    collector and of the metadata check run on the document alone: the
    collector gives this record and these problems, and the metadata check
    gives the missing fields only. *)
Theorem collector_keeps_every_document
    (repo_root p : Path) (text : string) (rel_parts : list string) :
  Paths.relative_to p repo_root = Some rel_parts ->
  exists record problems,
    collect_one repo_root (p, text) = Some (record, problems)
    /\ path record = p /\ doc_text record = text
    /\ (frontmatter record, body record, length problems)
       = (fst (fst (split_frontmatter text)), snd (fst (split_frontmatter text)),
          length (snd (split_frontmatter text)))
    /\ (headings record, anchors record)
       = extract_headings_and_anchors (body record)
    /\ links record = extract_links (body record)
    /\ (begins_with_delimiter text = false
        \/ cut_at_delim (tl (Py.splitlines (Py.chars text))) = None ->
        frontmatter record = ∅ /\ body record = text /\ length problems = 1)
    /\ (forall first block closing after,
          begins_with_delimiter text = true ->
          Py.splitlines (Py.chars text) = first :: block ++ closing :: after ->
          Forall (fun l => is_delim l = false) block ->
          is_delim closing = true ->
          frontmatter record = fst (parse_lines block)
          /\ length problems = length (snd (parse_lines block))
          /\ (forall l key v,
                l ∈ block -> classify (Py.rstrip l) = FmKey key v ->
                is_Some (frontmatter record !! key)))
    /\ (frontmatter record = ∅ ->
        forall fromisoformat repr_str contracts stale_days today,
          frontmatter_record_problems repo_root fromisoformat repr_str
            contracts stale_days today record
          = Some (map (missing_field record) (required_frontmatter contracts)))
    /\ collect_docs repo_root [(p, text)] = Some ([record], problems)
    /\ (frontmatter record = ∅ ->
        forall fromisoformat int_of_str repr_str env contracts stale_days
               today,
          stale_days_of int_of_str env contracts = Some stale_days ->
          current_date fromisoformat env = Some today ->
          validate_frontmatter repo_root fromisoformat int_of_str repr_str
            env [record] contracts
          = Some (map (missing_field record) (required_frontmatter contracts))).
Proof.
  intros Hrel. unfold collect_one.
  destruct (split_frontmatter text) as [[fm bd] errs] eqn:Es.
  rewrite Hrel. cbn [mbind option_bind].
  destruct (extract_headings_and_anchors bd) as [hs ans] eqn:Eh.
  eexists _, _. split; [reflexivity|]. cbn [path doc_text frontmatter body
    headings anchors links fst snd].
  split; [done|]. split; [done|]. split; [by rewrite length_map|].
  split; [done|]. split; [done|]. split; [|split; [|split; [|split]]].
  - intros H. destruct (split_frontmatter_fallback text H) as (e & He).
    rewrite He in Es. injection Es as <- <- <-. by rewrite length_map.
  - intros first block closing after Hb Hlines Hblock Hclosing.
    rewrite (split_frontmatter_parsed text first block closing after) in Es
      by done.
    injection Es as <- <- <-. split; [done|]. split; [by rewrite length_map|].
    intros l key v. apply key_line_in_mapping.
  - intros He fromisoformat repr_str contracts stale_days today.
    unfold frontmatter_record_problems. cbn [frontmatter] in *.
    destruct (decide _) as [_|Hne]; [|done].
    by rewrite missing_fields_empty.
  - apply collect_docs_one. unfold collect_one. rewrite Es, Hrel.
    cbn [mbind option_bind]. by rewrite Eh.
  - intros He fromisoformat int_of_str repr_str env contracts stale_days today.
    by apply validate_frontmatter_empty_one.
Qed.

Lemma collector_keeps_every_document_witness :
  exists record problems,
    collect_one ["repo"] (["repo"; "docs"; "a.md"], "# Title
see [b](b.md)") = Some (record, problems)
    /\ frontmatter record = ∅
    /\ headings record = ["Title"]
    /\ links record = [mkLinkRef "b.md" 2].
Proof.
  destruct (collector_keeps_every_document ["repo"] ["repo"; "docs"; "a.md"]
              "# Title
see [b](b.md)" ["docs"; "a.md"] eq_refl)
    as (record & problems & Hc & _ & _ & _ & Hh & Hl & Hd & _).
  destruct (Hd (or_introl eq_refl)) as (He & Hb & _).
  exists record, problems. split; [exact Hc|]. split; [exact He|].
  rewrite Hb in Hh, Hl. split; [|exact Hl].
  by apply (f_equal fst) in Hh.
Defined.

(** C7, the claim as it is written, fails for a block with a line that the
    parser cannot read: the parse problem is reported, the mapping of the
    record keeps the keys of the other lines, and the metadata check gives
    problems on the values. *)
Lemma parse_error_keeps_partial_mapping :
  exists record,
    collect_one ["repo"] (["repo"; "docs"; "a.md"], partial_text)
    = Some (record,
            [mkProblem "frontmatter" "docs/a.md"
               "frontmatter line 2: unsupported syntax `???`" None])
    /\ frontmatter record = {[ "title" := VScalar (SStr "X") ]}
    /\ frontmatter record <> ∅
    /\ frontmatter_record_problems ["repo"] Calendar.parse_ymd (fun s => s)
         (mkContracts [] ["title"] [] [] [] ∅ [] 180 []) 180
         (mkDate 2024 1 1) record
       = Some [fm_problem record "`category` must be one of []";
               fm_problem record "`owner` must be one of []";
               fm_problem record "`status` must be one of []";
               fm_problem record "`last_reviewed` must be an ISO date string";
               fm_problem record "`audience` must be a non-empty list";
               fm_problem record "`invariants` must be a non-empty list"].
Proof.
  eexists. split; [vm_compute; reflexivity|]. simpl.
  split; [reflexivity|]. split; [|vm_compute; reflexivity].
  intros E. apply (f_equal (fun m => m !! "title")) in E.
  by rewrite lookup_empty in E.
Qed.

(** ** Paths *)

Section PathLemmas.
Import Paths.

Lemma enter_plain cur part : part <> ".." -> enter cur part = cur ++ [part].
Proof.
  intros H. unfold enter. by destruct (String.eqb_spec part "..").
Qed.

Lemma resolve_from cur p :
  normal p -> fold_left enter p cur = cur ++ p.
Proof.
  intros H. revert cur. induction H as [|part p [_ Hp] _ IH]; intros cur.
  - by rewrite app_nil_r.
  - simpl. rewrite enter_plain, IH by done. by rewrite <- app_assoc.
Qed.

Lemma resolve_normal p : normal p -> resolve p = p.
Proof. apply (resolve_from []). Qed.

Lemma Forall_removelast {A} (P : A -> Prop) l :
  Forall P l -> Forall P (removelast l).
Proof.
  induction 1 as [|x l Hx Hl IH]; simpl; [constructor|].
  destruct l; [constructor|]. by constructor.
Qed.

Lemma normal_enter cur part :
  part <> "" -> normal cur -> normal (enter cur part).
Proof.
  intros Hp Hcur. unfold enter. destruct (String.eqb_spec part "..").
  - by apply Forall_removelast.
  - apply Forall_app. split; [done|]. by repeat constructor.
Qed.

Lemma normal_resolve_from p cur :
  Forall (fun part => part <> "") p -> normal cur ->
  normal (fold_left enter p cur).
Proof.
  intros H. revert cur. induction H as [|part p Hp _ IH]; intros cur Hcur;
    [done|].
  simpl. by apply IH, normal_enter.
Qed.

Lemma normal_resolve p :
  Forall (fun part => part <> "") p -> normal (resolve p).
Proof. intros H. apply normal_resolve_from; [done|constructor]. Qed.

Lemma parse_parts_nonempty s :
  Forall (fun part => part <> "") (parse_parts s).
Proof.
  unfold parse_parts. apply Forall_forall. intros part Hin.
  apply list_elem_of_In, filter_In in Hin as [_ Hin].
  intros ->. discriminate.
Qed.

Lemma reachable_enter fs cur part :
  reachable fs cur -> is_dir fs cur = true -> reachable fs (enter cur part).
Proof.
  intros Hr Hd k. unfold enter. destruct (String.eqb part "..").
  - rewrite removelast_firstn_len. intros Hk.
    rewrite length_firstn in Hk.
    change (firstn (Nat.pred (length cur)) cur)
      with (take (Nat.pred (length cur)) cur).
    rewrite take_take. rewrite Nat.min_l by lia. apply Hr. lia.
  - rewrite length_app. simpl. intros Hk.
    destruct (decide (k < length cur)) as [Hlt|Hge].
    + rewrite take_app_le by lia. by apply Hr.
    + assert (k = length cur) as -> by lia.
      by rewrite take_app_length.
Qed.

Lemma walk_reaches fs parts cur :
  reachable fs cur -> walk fs cur parts = true ->
  reachable fs (fold_left enter parts cur)
  /\ entry_at fs (fold_left enter parts cur) = true.
Proof.
  revert cur. induction parts as [|part parts IH]; intros cur Hr; simpl.
  - done.
  - intros H. apply andb_true_iff in H as [Hd Hw].
    apply IH; [|done]. by apply reachable_enter.
Qed.

Lemma walk_normal fs parts cur :
  normal parts ->
  (forall k, k < length parts -> is_dir fs (cur ++ take k parts) = true) ->
  entry_at fs (cur ++ parts) = true ->
  walk fs cur parts = true.
Proof.
  intros H. revert cur. induction H as [|part parts [_ Hp] _ IH]; intros cur Hd He.
  - by rewrite app_nil_r in He.
  - simpl. apply andb_true_iff. split.
    + specialize (Hd 0). simpl in Hd. rewrite app_nil_r in Hd.
      apply Hd. lia.
    + rewrite enter_plain by done. apply IH.
      * intros k Hk. specialize (Hd (S k)). simpl in Hd.
        rewrite <- app_assoc. apply Hd. lia.
      * by rewrite <- app_assoc.
Qed.

(** A path that exists still exists once resolved. *)
Lemma exists_resolve fs p :
  Forall (fun part => part <> "") p ->
  path_exists fs p = true -> path_exists fs (resolve p) = true.
Proof.
  intros Hp H. unfold path_exists in *.
  destruct (walk_reaches fs p []) as [Hr He];
    [intros k Hk; simpl in Hk; lia|done|].
  apply walk_normal; [by apply normal_resolve|exact Hr|exact He].
Qed.

Lemma name_nonempty p :
  Forall (fun part => part <> "") p -> p <> [] -> name p <> "".
Proof.
  intros H Hne. unfold name.
  destruct (exists_last Hne) as (q & x & ->).
  rewrite last_last. apply Forall_app in H as [_ H].
  by apply Forall_cons in H as [H _].
Qed.

Lemma with_suffix_Some p sfx :
  name p <> "" -> exists q, with_suffix p sfx = Some q
                            /\ (Forall (fun part => part <> "") p ->
                                sfx <> "" ->
                                Forall (fun part => part <> "") q).
Proof.
  intros H. unfold with_suffix. destruct (name p) as [|c n] eqn:E; [done|].
  eexists. split; [reflexivity|]. intros Hp Hs.
  apply Forall_app. split; [by apply Forall_removelast|].
  repeat constructor. intros Hx.
  destruct (String.length (String c n) - String.length (suffix p));
    simpl in Hx; [by destruct sfx|discriminate].
Qed.

End PathLemmas.

(** ** Link check *)

Section LinkLemmas.
Import Paths.

Variable repo_root : Path.
Variable fs : FS.

Lemma normal_nonempty p : normal p -> nonempty_parts p.
Proof. intros H. eapply Forall_impl; [exact H|]. by intros part [? _]. Qed.

Lemma nonempty_joinpath base s :
  nonempty_parts base -> nonempty_parts (joinpath base s).
Proof.
  intros H. unfold joinpath. destruct (Py.startswith _ _).
  - apply parse_parts_nonempty.
  - apply Forall_app. split; [done|apply parse_parts_nonempty].
Qed.

Lemma nonempty_base_path record path_part :
  normal repo_root -> normal (path record) ->
  nonempty_parts (base_path repo_root record path_part).
Proof.
  intros Hroot Hrec. unfold base_path.
  destruct (Py.startswith _ _);
    [by apply nonempty_joinpath, normal_nonempty|].
  destruct (Py.startswith _ _);
    [by apply nonempty_joinpath, normal_nonempty|].
  apply normal_nonempty, normal_resolve, nonempty_joinpath.
  by apply Forall_removelast, normal_nonempty.
Qed.

Lemma fallback_found resolved :
  nonempty_parts resolved ->
  exists found,
    fallback fs resolved = Some found
    /\ (absent fs resolved ->
        found = resolved /\ path_exists fs (resolve found) = false)
    /\ (~ absent fs resolved -> path_exists fs (resolve found) = true).
Proof.
  intros Hne. unfold fallback.
  destruct (path_exists fs resolved) eqn:Ex.
  { exists resolved. pose proof (exists_resolve fs resolved Hne Ex) as Hr.
    split; [done|]. split; [|done]. intros [Ha _]. congruence. }
  destruct (String.eqb_spec (suffix resolved) "") as [Es|Es].
  2: { exists resolved. split; [done|]. split; [by intros [Ha _]|].
       intros Hn. destruct (path_exists fs (resolve resolved)) eqn:Er; [done|].
       destruct Hn. by split. }
  destruct (with_suffix_Some resolved ".md") as (md & Emd & Hmd).
  { apply name_nonempty; [done|]. by intros ->. }
  rewrite Emd. cbn [mbind option_bind].
  destruct (path_exists fs md) eqn:Exm.
  { exists md. split; [done|]. split.
    - intros [_ Ha]. destruct (Ha Es) as [Ha1 _].
      specialize (Ha1 md Emd). congruence.
    - intros _. apply exists_resolve; [|done]. by apply Hmd. }
  destruct (path_exists fs (joinpath resolved (Py.chars "index.md"))) eqn:Exi.
  { exists (joinpath resolved (Py.chars "index.md")). split; [done|]. split.
    - intros [_ Ha]. destruct (Ha Es) as [_ Ha2]. congruence.
    - intros _. apply exists_resolve; [|done]. by apply nonempty_joinpath. }
  exists resolved. split; [done|]. split; [by intros [Ha _]|].
  intros Hn. destruct (path_exists fs (resolve resolved)) eqn:Er; [done|].
  destruct Hn. split; [done|]. intros _. split; [|done].
  intros md' Emd'. congruence.
Qed.

(** What the link check gives for a local target with a path part. *)
Lemma check_link_local cache record link path_part anchor :
  normal repo_root -> normal (path record) ->
  classify_target (Py.chars (target link)) = Local path_part anchor ->
  path_part <> [] ->
  let resolved := base_path repo_root record path_part in
  (absent fs resolved ->
   check_link repo_root fs cache record link
   = Some [broken_link record link resolved])
  /\ (~ absent fs resolved ->
      check_link repo_root fs cache record link = Some []
      \/ (exists a rel_key,
            check_link repo_root fs cache record link
            = Some [missing_anchor record link a rel_key])
      \/ check_link repo_root fs cache record link = None).
Proof.
  intros Hroot Hrec Hclass Hpp resolved.
  destruct (fallback_found resolved) as (found & Ef & Habs & Hnabs).
  { by apply nonempty_base_path. }
  unfold check_link, resolve_markdown_link. rewrite Hclass.
  destruct path_part as [|c pp]; [done|]. fold resolved. rewrite Ef. simpl.
  split.
  - intros Ha. destruct (Habs Ha) as [-> Hx]. by rewrite Hx.
  - intros Hn. rewrite (Hnabs Hn). simpl.
    destruct (or_none anchor) as [a|]; [|by left].
    destruct (String.eqb _ ".md"); [|by left].
    destruct (cache !! resolve found) as [anchors|]; [|by left].
    destruct (decide (a ∈ anchors)); [by left|].
    destruct (relative_to (resolve found) repo_root) as [rel_key|];
      simpl; [|by right; right].
    right. left. by exists a, rel_key.
Qed.

End LinkLemmas.

Section LinkScenario.
Import Paths.

Variable repo_root : Path.
Variable fs : FS.

Lemma removelast_snoc {A} (l : list A) (x : A) : removelast (l ++ [x]) = l.
Proof. apply removelast_last. Qed.

(** The link [./missing.md] of the document [docs/a.md]. *)
Lemma missing_md_is_broken cache record line :
  normal repo_root ->
  path record = repo_root ++ ["docs"; "a.md"] ->
  path_exists fs (repo_root ++ ["docs"; "missing.md"]) = false ->
  check_link repo_root fs cache record (mkLinkRef "./missing.md" line)
  = Some [mkProblem "links" (rel_path record)
            ("broken link target `./missing.md` (resolved `"
               +:+ str_path (repo_root ++ ["docs"; "missing.md"]) +:+ "`)")
            (Some line)].
Proof.
  intros Hroot Hpath Hx.
  assert (Hn : normal (repo_root ++ ["docs"; "missing.md"])).
  { apply Forall_app. split; [done|]. by repeat constructor. }
  assert (Hb : base_path repo_root record (Py.chars "./missing.md")
               = repo_root ++ ["docs"; "missing.md"]).
  { change (base_path repo_root record (Py.chars "./missing.md"))
      with (resolve (joinpath (parent (path record))
                       (Py.chars "./missing.md"))).
    rewrite Hpath. unfold parent.
    change (repo_root ++ ["docs"; "a.md"])
      with (repo_root ++ ["docs"] ++ ["a.md"]).
    rewrite app_assoc, removelast_snoc.
    change (joinpath (repo_root ++ ["docs"]) (Py.chars "./missing.md"))
      with ((repo_root ++ ["docs"]) ++ ["missing.md"]).
    rewrite <- app_assoc. by apply resolve_normal. }
  destruct (check_link_local repo_root fs cache record
              (mkLinkRef "./missing.md" line) (Py.chars "./missing.md") [])
    as [H _]; [done| |reflexivity|done|].
  { rewrite Hpath. apply Forall_app. split; [done|]. by repeat constructor. }
  rewrite Hb in H. apply H. split.
  - by rewrite resolve_normal.
  - intros Hs. exfalso. revert Hs. unfold suffix, name.
    change (repo_root ++ ["docs"; "missing.md"])
      with (repo_root ++ ["docs"] ++ ["missing.md"]).
    by rewrite app_assoc, last_last.
Qed.

End LinkScenario.

Section LinkTheorem.
Import Paths.

Variable repo_root : Path.
Variable fs : FS.

(** C1 (as amended): for a link whose target is local (not skipped) and has
    a path part, the resolver resolves the path; when it does not exist it
    tries the path with the suffix [.md] and then the file [index.md] below
    it, both only for a path that has no suffix of its own.  When all of
    these are absent the link check gives exactly one problem, the broken
    link, with the target as written and the resolved path; otherwise it
    gives no broken link (at most a missing anchor).  So the link
    [./missing.md] of [docs/a.md], with no [docs/missing.md], gives
    exactly one problem of the check [links], naming [./missing.md]. *)
Theorem broken_link_reported
    (cache : gmap Path (gset string)) (record : DocRecord) (link : LinkRef)
    (path_part anchor : list ascii) :
  normal repo_root -> normal (path record) ->
  classify_target (Py.chars (target link)) = Local path_part anchor ->
  path_part <> [] ->
  let resolved := base_path repo_root record path_part in
  (absent fs resolved ->
   check_link repo_root fs cache record link
   = Some [mkProblem "links" (rel_path record)
             ("broken link target `" +:+ target link +:+ "` (resolved `"
                +:+ str_path resolved +:+ "`)")
             (Some (link_line link))])
  /\ (~ absent fs resolved ->
      check_link repo_root fs cache record link = Some []
      \/ (exists a rel_key,
            check_link repo_root fs cache record link
            = Some [missing_anchor record link a rel_key])
      \/ check_link repo_root fs cache record link = None)
  /\ (forall doc line,
        path doc = repo_root ++ ["docs"; "a.md"] ->
        path_exists fs (repo_root ++ ["docs"; "missing.md"]) = false ->
        check_link repo_root fs cache doc (mkLinkRef "./missing.md" line)
        = Some [mkProblem "links" (rel_path doc)
                  ("broken link target `./missing.md` (resolved `"
                     +:+ str_path (repo_root ++ ["docs"; "missing.md"])
                     +:+ "`)")
                  (Some line)]).
Proof.
  intros Hroot Hrec Hclass Hpp resolved.
  destruct (check_link_local repo_root fs cache record link path_part anchor
              Hroot Hrec Hclass Hpp) as [H1 H2].
  split; [exact H1|]. split; [exact H2|].
  intros doc line Hdoc Hx. by apply missing_md_is_broken.
Qed.

End LinkTheorem.

Lemma broken_link_reported_witness :
  check_link ["repo"] link_scenario_fs ∅
    (link_scenario_record "[x](./missing.md)") (mkLinkRef "./missing.md" 1)
  = Some [mkProblem "links" "docs/a.md"
            "broken link target `./missing.md` (resolved `/repo/docs/missing.md`)"
            (Some 1)].
Proof.
  destruct (broken_link_reported ["repo"] link_scenario_fs ∅
              (link_scenario_record "[x](./missing.md)")
              (mkLinkRef "./missing.md" 1) (Py.chars "./missing.md") [])
    as [H _].
  - by repeat constructor.
  - by repeat constructor.
  - reflexivity.
  - discriminate.
  - apply H. split; [reflexivity|]. intros Hs. discriminate Hs.
Defined.

(** The scenario of the specification, from the text of the document. *)
Example missing_md_scenario :
  validate_links ["repo"] link_scenario_fs
    [link_scenario_record "[x](./missing.md)"]
  = Some [mkProblem "links" "docs/a.md"
            "broken link target `./missing.md` (resolved `/repo/docs/missing.md`)"
            (Some 1)].
Proof. vm_compute. reflexivity. Qed.

(** C1, the claim as it is written, fails for a target that has a suffix:
    the link [release-1.2] of [docs/a.md] resolves to a path that does not
    exist, the path with [.md] appended exists, and the link check still
    gives the broken link, because the resolver tries the extension only for
    a path without suffix. *)
Lemma suffixed_target_gets_no_extension :
  let resolved := base_path ["repo"] (link_scenario_record "[r](release-1.2)")
                    (Py.chars "release-1.2") in
  resolved = ["repo"; "docs"; "release-1.2"]
  /\ Paths.suffix resolved = ".2"
  /\ Paths.path_exists link_scenario_fs resolved = false
  /\ Paths.path_exists link_scenario_fs (append_extension resolved ".md") = true
  /\ validate_links ["repo"] link_scenario_fs
       [link_scenario_record "[r](release-1.2)"]
     = Some [mkProblem "links" "docs/a.md"
               "broken link target `release-1.2` (resolved `/repo/docs/release-1.2`)"
               (Some 1)].
Proof. vm_compute. repeat split. Qed.

(** ** Audit report *)

Section AuditLemmas.

Variable repo_root : Path.
Variable fs : Paths.FS.
Variable fromisoformat : string -> option date.
Variable int_of_str : string -> option Z.
Variable repr_str : string -> string.
Variable float : Type.
Variable float_zero : float.
Variable round_percent : nat -> nat -> float.
Variable mmd_files : list (string * string).
Variable render_mermaid_sources
  : list (string * option nat * string) -> bool -> list Problem.
Variable validate_openapi : bool -> list Problem * nat.
Variable now : string.

Lemma print_problems_prints {R} ps : Forall is_print (@print_problems R ps).
Proof. unfold print_problems. apply Forall_map, Forall_forall. done. Qed.

Lemma validate_frontmatter_env env records contracts ps :
  validate_frontmatter repo_root fromisoformat int_of_str repr_str env
    records contracts = Some ps ->
  exists stale_days today,
    stale_days_of int_of_str env contracts = Some stale_days
    /\ current_date fromisoformat env = Some today.
Proof.
  unfold validate_frontmatter.
  destruct (stale_days_of _ _ _) as [d|]; [|done].
  destruct (current_date _ _) as [t|]; [|done]. eauto.
Qed.

(** C8: when the checks run to their end, the audit-report command
    creates the directory, writes the report and prints its path before
    anything that depends on the problems found; what follows only
    prints.  The exit code is 1 when at least one problem was found and 0
    otherwise, and the report is written in both cases.  With no document
    and no problem from the other checks, the report holds the document
    count 0, the fresh review percent [0.0] and no stale document, and the
    exit code is 0. *)
Theorem audit_report_written_before_verdict
    (env : Env) (records : list DocRecord) (parse_problems : list Problem)
    (contracts : Contracts) (output : Path)
    (frontmatter_problems sop_problems link_problems : list Problem) :
  validate_frontmatter repo_root fromisoformat int_of_str repr_str env
    records contracts = Some frontmatter_problems ->
  validate_sop_headings repo_root records contracts = Some sop_problems ->
  validate_links repo_root fs records = Some link_problems ->
  let mermaid :=
    validate_mermaid mmd_files render_mermaid_sources records false in
  let all_problems :=
    parse_problems ++ validate_structure repo_root fs contracts
      ++ frontmatter_problems ++ sop_problems ++ link_problems
      ++ fst mermaid ++ fst (validate_openapi false) in
  exists report after code,
    write_audit_report repo_root fs fromisoformat int_of_str repr_str
      float float_zero round_percent mmd_files render_mermaid_sources
      validate_openapi now env records parse_problems contracts output
    = Some ([EvMkdir (Paths.parent output); EvWrite output report;
             EvPrint ("Wrote audit report: " +:+ Paths.str_path output)]
              ++ after, code)
    /\ Forall is_print after
    /\ (all_problems <> [] <-> code <> 0%Z)
    /\ (code = 0%Z \/ code = 1%Z)
    /\ document_count _ report = length records
    /\ (records = [] ->
        fresh_review_percent _ report = float_zero
        /\ stale_documents _ report = []
        /\ document_count _ report = 0
        /\ (parse_problems = [] ->
            validate_structure repo_root fs contracts = [] ->
            fst mermaid = [] -> fst (validate_openapi false) = [] ->
            code = 0%Z)).
Proof.
  intros Hfm Hsop Hlinks mermaid all_problems.
  destruct (validate_frontmatter_env _ _ _ _ Hfm)
    as (stale_days & today & Hdays & Htoday).
  unfold write_audit_report. rewrite Hfm, Hsop, Hlinks.
  cbn [mbind option_bind]. fold mermaid.
  unfold frontmatter_freshness_metrics. rewrite Hdays, Htoday.
  cbn [mbind option_bind].
  destruct mermaid as [mermaid_problems mermaid_count] eqn:Em.
  destruct (validate_openapi false) as [openapi_problems openapi_count] eqn:Eo.
  destruct (fold_left (freshness_step fromisoformat stale_days today) records
              (0, 0, [])) as [[fresh total] stale_docs] eqn:Emetrics.
  cbn [fst] in all_problems. fold all_problems.
  assert (Hzero : records = [] ->
            total = 0 /\ stale_docs = [] /\ frontmatter_problems = []
            /\ sop_problems = [] /\ link_problems = []).
  { intros ->. simpl in Emetrics. injection Emetrics as <- <- <-.
    unfold validate_frontmatter in Hfm. rewrite Hdays, Htoday in Hfm.
    simpl in Hfm. injection Hfm as <-.
    unfold validate_sop_headings in Hsop. simpl in Hsop. injection Hsop as <-.
    unfold validate_links in Hlinks. simpl in Hlinks. injection Hlinks as <-.
    done. }
  destruct all_problems as [|p ps] eqn:Eall.
  - eexists _, [EvPrint "OK"], 0%Z. split; [reflexivity|].
    split; [by repeat constructor|]. split; [done|]. split; [by left|].
    split; [reflexivity|]. intros Hr.
    destruct (Hzero Hr) as (-> & -> & _). cbn. by rewrite Hr.
  - eexists _, _, 1%Z. split; [reflexivity|].
    split; [apply Forall_app; split;
            [apply print_problems_prints|by repeat constructor]|].
    split; [done|]. split; [by right|]. split; [reflexivity|]. intros Hr.
    destruct (Hzero Hr) as (-> & -> & -> & -> & ->). cbn.
    rewrite Hr. repeat split; try done.
    intros -> Hs -> ->. unfold all_problems in Eall.
    rewrite Hs in Eall. discriminate.
Qed.

End AuditLemmas.

Lemma audit_report_written_before_verdict_witness :
  exists report after,
    write_audit_report ["repo"] (fs_of [] [["repo"]; ["repo"; "docs"]])
      Calendar.parse_ymd (fun _ => None) (fun s => s)
      nat 0 (fun fresh total => fresh * 100 / total) []
      (fun _ _ => []) (fun _ => ([], 0)) "2024-01-02T00:00:00Z"
      (mkEnv (Some "2024-01-02") None (mkDate 2030 1 1)) [] []
      (mkContracts [] [] [] [] [] ∅ [] 180 []) ["repo"; "out"; "audit.json"]
    = Some ([EvMkdir ["repo"; "out"];
             EvWrite ["repo"; "out"; "audit.json"] report;
             EvPrint "Wrote audit report: /repo/out/audit.json"] ++ after, 0%Z)
    /\ document_count _ report = 0
    /\ fresh_review_percent _ report = 0
    /\ stale_documents _ report = [].
Proof.
  destruct (audit_report_written_before_verdict
              ["repo"] (fs_of [] [["repo"]; ["repo"; "docs"]])
              Calendar.parse_ymd (fun _ => None) (fun s => s)
              nat 0 (fun fresh total => fresh * 100 / total) []
              (fun _ _ => []) (fun _ => ([], 0)) "2024-01-02T00:00:00Z"
              (mkEnv (Some "2024-01-02") None (mkDate 2030 1 1)) [] []
              (mkContracts [] [] [] [] [] ∅ [] 180 [])
              ["repo"; "out"; "audit.json"] [] [] []
              eq_refl eq_refl eq_refl)
    as (report & after & code & Hw & _ & _ & _ & _ & Hz).
  destruct (Hz eq_refl) as (Hf & Hs & Hd & Hc).
  rewrite (Hc eq_refl eq_refl eq_refl eq_refl) in Hw.
  exists report, after. split; [exact Hw|]. by repeat split.
Defined.

(** The report is written also when a problem was found: a required
    directory is missing, and the exit code is 1. *)
Example audit_report_with_problem :
  exists report,
    write_audit_report ["repo"] (fs_of [] [["repo"]; ["repo"; "docs"]])
      Calendar.parse_ymd (fun _ => None) (fun s => s)
      nat 0 (fun fresh total => fresh * 100 / total) []
      (fun _ _ => []) (fun _ => ([], 0)) "2024-01-02T00:00:00Z"
      (mkEnv None None (mkDate 2024 1 2)) [] []
      (mkContracts ["sop"] [] [] [] [] ∅ [] 180 []) ["repo"; "audit.json"]
    = Some ([EvMkdir ["repo"];
             EvWrite ["repo"; "audit.json"] report;
             EvPrint "Wrote audit report: /repo/audit.json";
             EvPrint "[structure] docs/sop - required directory is missing";
             EvPrint (failed_line 1)], 1%Z).
Proof. eexists. vm_compute. reflexivity. Qed.

(** * Further properties of the code *)

(** ** Slugs *)

Lemma no_hh_pair f a b : no_hh f (a ++ Re.hyphen :: Re.hyphen :: b) = false.
Proof.
  revert f. induction a as [|c a IH]; intros f; simpl.
  - by rewrite andb_false_r.
  - destruct (Py.ch_eqb c Re.hyphen); [by rewrite IH, andb_false_r|apply IH].
Qed.

Lemma rstrip_ch_not_end ch l r : Py.rstrip_ch ch l <> r ++ [ch].
Proof.
  revert r. induction l as [|c l IH]; intros r; [by destruct r|].
  rewrite rstrip_ch_cons. destruct (Py.rstrip_ch ch l) as [|d k] eqn:E.
  - destruct (Py.ch_eqb c ch) eqn:Ec; [by destruct r|].
    destruct r as [|x [|y r]]; try done. intros [= ->].
    by rewrite (proj2 (ch_eqb_eq ch ch) eq_refl) in Ec.
  - destruct r as [|x r]; [done|]. intros [= -> Hk]. by apply (IH r).
Qed.

Lemma slug_char_cases c :
  slug_char c = true ->
  (Py.isword c = true \/ c = Re.hyphen)
  /\ Py.isspace c = false /\ Py.lower_char c = c.
Proof.
  intros H. split; [|split; [by apply slug_char_nospace|by apply slug_char_lower]].
  unfold slug_char in H. apply andb_true_iff in H as [H _].
  apply orb_true_iff in H as [H|H]; [by left|right; by apply ch_eqb_eq].
Qed.

(** X1: a slug holds word characters and hyphens only, none of them a space
    and each in lower case; it has no two hyphens in a row and neither
    begins nor ends with a hyphen. *)
Theorem slug_is_clean (t : string) :
  let s := Py.chars (slugify_heading t) in
  Forall (fun c => (Py.isword c = true \/ c = Re.hyphen)
                   /\ Py.isspace c = false /\ Py.lower_char c = c) s
  /\ (forall a b, s <> a ++ Re.hyphen :: Re.hyphen :: b)
  /\ (forall r, s <> Re.hyphen :: r)
  /\ (forall r, s <> r ++ [Re.hyphen]).
Proof.
  unfold slugify_heading. rewrite chars_text. cbn zeta.
  destruct (slug_chars_shape (Py.chars t)) as [Hall Hhh].
  split; [|split; [|split]].
  - eapply Forall_impl; [exact Hall|]. intros c. apply slug_char_cases.
  - intros a b E. rewrite E, no_hh_pair in Hhh. discriminate.
  - intros r E. unfold slug_chars, Py.strip_ch in E.
    match type of E with Py.rstrip_ch _ (Py.lstrip_ch _ ?x) = _ =>
      pose proof (head_not_rstrip_ch Re.hyphen _
                    (head_not_lstrip_ch Re.hyphen x)) as Hh end.
    rewrite E in Hh. simpl in Hh. discriminate.
  - intros r. unfold slug_chars, Py.strip_ch. apply rstrip_ch_not_end.
Qed.

(** ** Normalized headings *)

(** X2: [normalize_heading] is idempotent, and what it returns neither
    begins nor ends with a space, has no two spaces in a row, and has no
    other space than the plain one: two headings that differ in the amount
    or the kind of their spaces only are the same once normalized. *)
Theorem normalize_heading_is_normal (v : string) :
  let s := Py.chars (normalize_heading v) in
  normalize_heading (normalize_heading v) = normalize_heading v
  /\ Forall (fun c => Py.isspace c = true -> c = ascii_of_nat 32) s
  /\ (forall a c d b,
        s = a ++ c :: d :: b -> Py.isspace c = true -> Py.isspace d = false)
  /\ (forall c r, s = c :: r -> Py.isspace c = false)
  /\ (forall r c, s = r ++ [c] -> Py.isspace c = false).
Proof.
  unfold normalize_heading. rewrite !chars_text. cbn zeta.
  destruct (normalize_chars_shape (Py.chars v)) as [Ht Hh].
  set (s := Re.sub_spaces (ascii_of_nat 32) false (Py.strip (Py.chars v))) in *.
  assert (Hs : Py.strip s = s).
  { unfold Py.strip. replace (Py.lstrip s) with s; [by apply tight_rstrip|].
    destruct s as [|c k]; [done|]. simpl in *. by rewrite Hh. }
  split; [|split; [|split; [|split]]].
  - rewrite Hs. f_equal. apply tight_sub_fixed; [done|discriminate].
  - by apply tight_plain_space.
  - intros a c d b E. rewrite E in Ht. by apply (tight_no_pair a c d b).
  - intros c r E. rewrite E in Hh. exact Hh.
  - intros r c E. rewrite E in Ht. by apply tight_end in Ht.
Qed.

(** ** Scalars *)

Section ScalarLemmas.
Import Py.

Lemma lstrip_spaces ws x :
  Forall (fun c => isspace c = true) ws -> lstrip (ws ++ x) = lstrip x.
Proof. induction 1 as [|c ws Hc _ IH]; simpl; [done|]. by rewrite Hc. Qed.

Lemma rstrip_spaces_nil ws :
  Forall (fun c => isspace c = true) ws -> rstrip ws = [].
Proof.
  induction 1 as [|c ws Hc _ IH]; [done|]. by rewrite rstrip_cons, IH, Hc.
Qed.

Lemma rstrip_spaces x ws :
  Forall (fun c => isspace c = true) ws -> rstrip (x ++ ws) = rstrip x.
Proof.
  intros H. induction x as [|c x IH]; simpl app.
  - by rewrite rstrip_spaces_nil.
  - by rewrite !rstrip_cons, IH.
Qed.

Lemma lstrip_app v w :
  lstrip (v ++ w) = match lstrip v with [] => lstrip w | r => r ++ w end.
Proof.
  induction v as [|c v IH]; simpl; [done|]. by destruct (isspace c).
Qed.

(** Spaces around a text do not count for [strip]. *)
Lemma strip_padded ws1 v ws2 :
  Forall (fun c => isspace c = true) ws1 ->
  Forall (fun c => isspace c = true) ws2 ->
  strip (ws1 ++ v ++ ws2) = strip v.
Proof.
  intros H1 H2. unfold strip. rewrite lstrip_spaces by done.
  rewrite lstrip_app. destruct (lstrip v) as [|c r] eqn:E.
  - rewrite <- (app_nil_r ws2), lstrip_spaces by done. done.
  - by rewrite rstrip_spaces.
Qed.

Lemma rstrip_end l c : isspace c = false -> rstrip (l ++ [c]) = l ++ [c].
Proof.
  intros Hc. induction l as [|d l IH]; simpl app.
  - by rewrite rstrip_cons, Hc.
  - rewrite rstrip_cons, IH. by destruct l.
Qed.

Lemma strip_quoted q s :
  isspace q = false -> strip (q :: s ++ [q]) = q :: s ++ [q].
Proof.
  intros Hq. unfold strip. simpl lstrip. rewrite Hq.
  apply (rstrip_end (q :: s) q Hq).
Qed.

End ScalarLemmas.

(** X3: [parse_scalar] does not see the spaces around a value, and takes a
    value between two quotes of the same kind as the text between them,
    whatever it holds: its inner spaces stay, and [true] or [false] in
    quotes is a text, not a boolean.  It gives a boolean only for the
    words [true] and [false], in any case. *)
Theorem parse_scalar_spaces_and_quotes
    (v s ws1 ws2 : list ascii) (q : ascii) :
  Forall (fun c => Py.isspace c = true) ws1 ->
  Forall (fun c => Py.isspace c = true) ws2 ->
  is_quote q = true ->
  parse_scalar (ws1 ++ v ++ ws2) = parse_scalar v
  /\ parse_scalar (ws1 ++ (q :: s ++ [q]) ++ ws2) = SStr (Py.text s)
  /\ (forall b, parse_scalar v = SBool b <->
                Py.lower (Py.strip v)
                = Py.chars (if b then "true" else "false")).
Proof.
  intros H1 H2 Hq.
  assert (Hpad : forall x, parse_scalar (ws1 ++ x ++ ws2) = parse_scalar x).
  { intros x. unfold parse_scalar. by rewrite strip_padded. }
  split; [apply Hpad|]. split.
  - rewrite Hpad. unfold parse_scalar.
    assert (Hs : Py.isspace q = false /\ Py.lower_char q = q
                 /\ (q = squote \/ q = dquote)).
    { clear -Hq. each_char q. }
    destruct Hs as (Hsp & Hlow & Hcase).
    rewrite (strip_quoted q s Hsp).
    replace (list_eqb (q :: s ++ [q]) []) with false
      by (symmetry; by apply list_eqb_neq).
    change (Py.lower (q :: s ++ [q])) with (Py.lower_char q :: Py.lower (s ++ [q])).
    rewrite Hlow.
    replace (list_eqb (q :: Py.lower (s ++ [q])) (Py.chars "true")) with false
      by (symmetry; apply list_eqb_neq; destruct Hcase as [-> | ->]; discriminate).
    replace (list_eqb (q :: Py.lower (s ++ [q])) (Py.chars "false")) with false
      by (symmetry; apply list_eqb_neq; destruct Hcase as [-> | ->]; discriminate).
    f_equal. f_equal. unfold strip_quotes. rewrite (strip_quoted q s Hsp).
    change (length (q :: s ++ [q])) with (S (length (s ++ [q]))).
    rewrite length_app. simpl length.
    replace (2 <=? S (length s + 1)) with true
      by (symmetry; apply Nat.leb_le; lia).
    change (q :: s ++ [q]) with ((q :: s) ++ [q]) at 1.
    rewrite last_last, Hq.
    rewrite (proj2 (ch_eqb_eq q q) eq_refl). simpl.
    apply removelast_last.
  - intros b. unfold parse_scalar.
    destruct (list_eqb (Py.strip v) []) eqn:E0.
    { apply list_eqb_eq in E0. rewrite E0. split; [done|]. by destruct b. }
    destruct (list_eqb (Py.lower (Py.strip v)) (Py.chars "true")) eqn:Et.
    { apply list_eqb_eq in Et. rewrite Et. destruct b; split; try done. }
    destruct (list_eqb (Py.lower (Py.strip v)) (Py.chars "false")) eqn:Ef.
    { apply list_eqb_eq in Ef. rewrite Ef. destruct b; split; try done. }
    apply list_eqb_neq in Et, Ef. split; [done|]. by destruct b.
Qed.

Lemma parse_scalar_spaces_and_quotes_witness :
  parse_scalar (Py.chars "  ' true '   ") = SStr " true ".
Proof.
  exact (proj1 (proj2
    (parse_scalar_spaces_and_quotes (Py.chars "x") (Py.chars " true ")
       (Py.chars "  ") (Py.chars "   ") squote
       ltac:(repeat constructor) ltac:(repeat constructor) eq_refl))).
Defined.

(** ** The parser on a whole block *)

Lemma fm_step_dom idx st l :
  dom (fm_data (fm_step idx st l))
  = dom (fm_data st) ∪ list_to_set (omap line_key [l]).
Proof.
  unfold fm_step, line_key. cbn [omap list_omap].
  destruct (classify (Py.rstrip l)) as [| |item|key v|] eqn:E;
    cbn [list_to_set foldr].
  - by rewrite union_empty_r_L.
  - by rewrite union_empty_r_L.
  - rewrite union_empty_r_L.
    destruct (fm_current_list_key st) as [k|]; [|done].
    destruct (fm_data st !! k) as [[x|items]|] eqn:Ek; try done.
    cbn [fm_data]. rewrite dom_insert_L.
    apply (elem_of_dom_2 (D := gset string)) in Ek.
    apply subseteq_union_1_L. by apply singleton_subseteq_l.
  - rewrite union_empty_r_L, (union_comm_L (dom (fm_data st))).
    destruct v as [|c v]; [|destruct (_ && _)]; cbn [fm_data];
      by rewrite dom_insert_L.
  - by rewrite union_empty_r_L.
Qed.

Lemma fm_loop_dom lines idx st :
  dom (fm_data (fm_loop idx st lines))
  = dom (fm_data st) ∪ list_to_set (omap line_key lines).
Proof.
  revert idx st. induction lines as [|l lines IH]; intros idx st.
  - cbn. by rewrite union_empty_r_L.
  - rewrite fm_loop_cons, IH, fm_step_dom. cbn [omap list_omap].
    destruct (line_key l); cbn [list_to_set foldr];
      by rewrite ?union_empty_r_L, <- ?(assoc_L (∪)).
Qed.

(** X4: the mapping that the parser returns has exactly the keys of the key
    lines of the block: every declared key is there, whatever the errors of
    the other lines, and no other key is. *)
Theorem parsed_keys_are_the_declared_keys (block : list (list ascii)) :
  dom (fst (parse_lines block)) = list_to_set (omap line_key block).
Proof.
  unfold parse_lines. cbn [fst]. rewrite fm_loop_dom. cbn [fm_data fm_init].
  by rewrite dom_empty_L, union_empty_l_L.
Qed.

Lemma fm_step_same_data idx idx' a b l :
  same_data a b -> same_data (fm_step idx a l) (fm_step idx' b l).
Proof.
  intros (Hd & Hc & He). unfold fm_step, same_data.
  destruct (classify (Py.rstrip l)) as [| |item|key v|]; simpl.
  - done.
  - done.
  - rewrite <- Hc, <- Hd. destruct (fm_current_list_key a) as [k|]; simpl.
    + destruct (fm_data a !! k) as [[x|items]|]; simpl;
        rewrite ?length_app, ?He, ?Hd; done.
    + by rewrite !length_app, He.
  - destruct v as [|c v]; [|destruct (_ && _)]; simpl; by rewrite Hd, He.
  - by rewrite !length_app, He.
Qed.

Lemma fm_step_skipped idx st l : skipped_line l = true -> fm_step idx st l = st.
Proof.
  unfold skipped_line, fm_step. by destruct (classify (Py.rstrip l)).
Qed.

Lemma fm_loop_skipped lines idx idx' a b :
  same_data a b ->
  same_data (fm_loop idx a lines)
    (fm_loop idx' b (List.filter (fun l => negb (skipped_line l)) lines)).
Proof.
  revert idx idx' a b. induction lines as [|l lines IH]; intros idx idx' a b H;
    [done|].
  simpl. destruct (skipped_line l) eqn:E; simpl.
  - rewrite fm_step_skipped by done. by apply IH.
  - by apply IH, fm_step_same_data.
Qed.

(** X5: the blank lines and the comment lines of a block change nothing but
    the line numbers in the errors: without them the parser returns the
    same mapping and as many errors. *)
Theorem blank_and_comment_lines_are_skipped (block : list (list ascii)) :
  let kept := List.filter (fun l => negb (skipped_line l)) block in
  fst (parse_lines block) = fst (parse_lines kept)
  /\ length (snd (parse_lines block)) = length (snd (parse_lines kept)).
Proof.
  cbn zeta. unfold parse_lines. cbn [fst snd].
  destruct (fm_loop_skipped block 1 1 fm_init fm_init) as (H1 & _ & H2); done.
Qed.

Lemma fm_step_errors_mono idx st l e :
  e ∈ fm_errors st -> e ∈ fm_errors (fm_step idx st l).
Proof.
  intros H. unfold fm_step.
  destruct (classify (Py.rstrip l)) as [| |item|key v|]; simpl; try done.
  - destruct (fm_current_list_key st) as [k|]; simpl;
      [destruct (fm_data st !! k) as [[x|items]|]; simpl|];
      rewrite ?elem_of_app; auto.
  - destruct v as [|c v]; [|destruct (_ && _)]; done.
  - rewrite elem_of_app. auto.
Qed.

Lemma fm_loop_errors_mono lines idx st e :
  e ∈ fm_errors st -> e ∈ fm_errors (fm_loop idx st lines).
Proof.
  revert idx st. induction lines as [|l lines IH]; intros idx st H; [done|].
  by apply IH, fm_step_errors_mono.
Qed.

Lemma fm_step_errors_new idx st l e :
  e ∈ fm_errors (fm_step (S idx) st l) ->
  e ∈ fm_errors st \/ error_of_line e idx l.
Proof.
  unfold fm_step, error_of_line.
  destruct (classify (Py.rstrip l)) as [| |item|key v|]; simpl; auto.
  - destruct (fm_current_list_key st) as [k|]; simpl;
      [destruct (fm_data st !! k) as [[x|items]|]; simpl|];
      rewrite ?elem_of_app, ?list_elem_of_singleton; intros H; auto;
      destruct H as [H| ->]; eauto.
  - destruct v as [|c v]; [|destruct (_ && _)]; auto.
  - rewrite elem_of_app, list_elem_of_singleton. intros [H| ->]; auto.
Qed.

Lemma fm_loop_errors_new lines idx st e :
  e ∈ fm_errors (fm_loop (S idx) st lines) ->
  e ∈ fm_errors st
  \/ exists i l, lines !! i = Some l /\ error_of_line e (idx + i) l.
Proof.
  revert idx st. induction lines as [|l lines IH]; intros idx st; [by left|].
  rewrite fm_loop_cons. intros H. apply IH in H as [H|(i & l' & Hi & He)].
  - apply fm_step_errors_new in H as [H|H]; [by left|].
    right. exists 0, l. rewrite Nat.add_0_r. done.
  - right. exists (S i), l'. split; [done|].
    by rewrite <- Nat.add_succ_comm.
Qed.

Lemma fm_loop_reports_unsupported lines idx st i l :
  lines !! i = Some l -> classify (Py.rstrip l) = FmOther ->
  err_unsupported (idx + i) (Py.rstrip l) ∈ fm_errors (fm_loop idx st lines).
Proof.
  revert idx st i. induction lines as [|l0 lines IH]; intros idx st i; [done|].
  rewrite fm_loop_cons. destruct i as [|i]; simpl.
  - intros [= ->] Hc. apply fm_loop_errors_mono. unfold fm_step.
    rewrite Hc. simpl. rewrite Nat.add_0_r, elem_of_app, list_elem_of_singleton.
    by right.
  - intros Hi Hc. rewrite <- Nat.add_succ_comm. by apply IH.
Qed.

(** X6: the errors of the parser are those of its lines: each error is the
    one of a line that matches no pattern, or of a list item with no open
    list, and it cites the number of that line in the block; every line
    that matches no pattern is reported; and a block of blank lines,
    comment lines and key lines only gives no error. *)
Theorem parser_errors_are_line_errors (block : list (list ascii)) :
  (forall e, e ∈ snd (parse_lines block) ->
             exists i l, block !! i = Some l /\ error_of_line e i l)
  /\ (forall i l, block !! i = Some l -> classify (Py.rstrip l) = FmOther ->
                  err_unsupported (S i) (Py.rstrip l) ∈ snd (parse_lines block))
  /\ (Forall (fun l => skipped_line l = true \/ is_Some (line_key l)) block ->
      snd (parse_lines block) = []).
Proof.
  unfold parse_lines. cbn [snd].
  assert (Ha : forall e, e ∈ fm_errors (fm_loop 1 fm_init block) ->
                         exists i l, block !! i = Some l /\ error_of_line e i l).
  { intros e H. apply fm_loop_errors_new in H as [H|H]; [|exact H].
    by apply elem_of_nil in H. }
  split; [exact Ha|]. split.
  - intros i l Hi Hc. by apply (fm_loop_reports_unsupported block 1 fm_init i l).
  - intros Hall. change (fm_errors (fm_loop 1 fm_init block) = []).
    destruct (fm_errors (fm_loop 1 fm_init block)) as [|e es] eqn:E; [done|].
    destruct (Ha e) as (i & l & Hi & He); [by left|].
    rewrite Forall_forall in Hall.
    destruct (Hall l) as [Hs|[k Hk]]; [by eapply list_elem_of_lookup_2| |].
    + unfold skipped_line in Hs.
      destruct He as [[Hc _]|(item & Hc & _)]; rewrite Hc in Hs; done.
    + unfold line_key in Hk.
      destruct He as [[Hc _]|(item & Hc & _)]; rewrite Hc in Hk; done.
Qed.

Lemma parser_errors_are_line_errors_witness :
  snd (parse_yamlish_frontmatter "title: T
# comment

tags: [a, b]") = [].
Proof.
  apply (proj2 (proj2 (parser_errors_are_line_errors
    [Py.chars "title: T"; Py.chars "# comment"; Py.chars "";
     Py.chars "tags: [a, b]"]))).
  repeat (constructor;
          [first [left; reflexivity | right; vm_compute; by eexists]|]).
  constructor.
Defined.

(** ** Headings and their anchors *)

Lemma count_slug_pos base hs :
  0 < count_slug base hs -> exists h, h ∈ hs /\ slugify_heading h = base.
Proof.
  unfold count_slug. induction hs as [|h hs IH]; simpl; [lia|].
  destruct (String.eqb_spec (slugify_heading h) base) as [E|E].
  - intros _. exists h. split; [by left|done].
  - intros H. destruct (IH H) as (h' & Hin & Hh). exists h'.
    split; [by right|done].
Qed.

Lemma count_slug_snoc_le base hs t :
  count_slug base hs <= count_slug base (hs ++ [t]).
Proof. rewrite count_slug_app. lia. Qed.

Lemma anchors_fit_skip hs ans t :
  slugify_heading t = "" -> anchors_fit hs ans -> anchors_fit (hs ++ [t]) ans.
Proof.
  intros Ht (H1 & H2 & H3). split; [|split].
  - intros h Hin Hh. apply elem_of_app in Hin as [Hin|Hin]; [by apply H1|].
    apply list_elem_of_singleton in Hin as ->. done.
  - intros a Ha. destruct (H2 a Ha) as (h & n & Hin & Hh & Hn & ->).
    exists h, n. split; [apply elem_of_app; by left|]. split; [done|].
    split; [|done]. pose proof (count_slug_snoc_le (slugify_heading h) hs t).
    lia.
  - rewrite length_app. simpl. lia.
Qed.

Lemma anchors_fit_add hs ans t :
  slugify_heading t <> "" -> anchors_fit hs ans ->
  anchors_fit (hs ++ [t])
    ({[ anchor_of (slugify_heading t) (count_slug (slugify_heading t) hs) ]}
       ∪ ans).
Proof.
  intros Ht (H1 & H2 & H3). split; [|split].
  - intros h Hin Hh. apply elem_of_app in Hin as [Hin|Hin].
    { apply elem_of_union. right. by apply H1. }
    apply list_elem_of_singleton in Hin as ->. apply elem_of_union.
    destruct (count_slug (slugify_heading t) hs) as [|n] eqn:E.
    + left. by apply elem_of_singleton.
    + right. destruct (count_slug_pos (slugify_heading t) hs) as (h & Hin & Hh');
        [lia|]. rewrite <- Hh'. apply H1; [done|]. by rewrite Hh'.
  - intros a Ha. apply elem_of_union in Ha as [Ha|Ha].
    + apply elem_of_singleton in Ha as ->.
      exists t, (count_slug (slugify_heading t) hs).
      split; [apply elem_of_app; right; by left|]. split; [done|].
      split; [|done]. rewrite count_slug_app, String.eqb_refl. lia.
    + destruct (H2 a Ha) as (h & n & Hin & Hh & Hn & ->).
      exists h, n. split; [apply elem_of_app; by left|]. split; [done|].
      split; [|done]. pose proof (count_slug_snoc_le (slugify_heading h) hs t).
      lia.
  - rewrite length_app, size_union_alt, size_singleton. simpl.
    pose proof (subseteq_size
                  (ans ∖ {[anchor_of (slugify_heading t)
                             (count_slug (slugify_heading t) hs)]}) ans) as Hs.
    assert (size (ans ∖ {[anchor_of (slugify_heading t)
                            (count_slug (slugify_heading t) hs)]}) <= size ans)
      by (apply Hs; apply subseteq_difference_l; reflexivity).
    lia.
Qed.

Lemma heading_step_fit st l :
  counts_ok st -> anchors_fit (hs_headings st) (hs_anchors st) ->
  anchors_fit (hs_headings (heading_step st l)) (hs_anchors (heading_step st l)).
Proof.
  intros Hok Hfit. unfold heading_step.
  destruct (is_fence l); [exact Hfit|].
  destruct (hs_in_fence st); [exact Hfit|].
  destruct (heading_text l) as [t|]; [|exact Hfit].
  unfold new_anchor.
  destruct (String.eqb_spec (slugify_heading t) "") as [E|E]; cbn.
  - by apply anchors_fit_skip.
  - rewrite (Hok _ E). by apply anchors_fit_add.
Qed.

Lemma heading_loop_fit lines st :
  counts_ok st -> anchors_fit (hs_headings st) (hs_anchors st) ->
  let st' := heading_loop lines st in
  anchors_fit (hs_headings st') (hs_anchors st').
Proof.
  revert st. induction lines as [|l lines IH]; intros st Hok Hfit; [done|].
  apply IH; [by apply heading_step_counts|by apply heading_step_fit].
Qed.

(** X7: for every body, every heading whose slug is not empty can be
    reached by its bare slug, which is among the anchors; every anchor is
    the slug of one of the headings, bare or followed by a number that is
    below the number of headings of this slug; and there are at most as
    many anchors as headings. *)
Theorem anchors_come_from_headings (body : string) :
  let hs := fst (extract_headings_and_anchors body) in
  let ans := snd (extract_headings_and_anchors body) in
  (forall h, h ∈ hs -> slugify_heading h <> "" -> slugify_heading h ∈ ans)
  /\ (forall a, a ∈ ans ->
        exists h n, h ∈ hs /\ slugify_heading h <> ""
                    /\ n < count_slug (slugify_heading h) hs
                    /\ a = anchor_of (slugify_heading h) n)
  /\ size ans <= length hs.
Proof.
  unfold extract_headings_and_anchors. cbn [fst snd].
  apply (heading_loop_fit (body_lines body) heading_init).
  - apply counts_ok_init.
  - split; [|split].
    + intros h Hin. by apply elem_of_nil in Hin.
    + intros a Ha. by apply elem_of_empty in Ha.
    + cbn. by rewrite size_empty.
Qed.

(** ** Links and their lines *)

Lemma fence_flag_cons l lines b :
  fence_flag (l :: lines) b =
  fence_flag lines (if is_fence l then negb b else b).
Proof. reflexivity. Qed.

Lemma links_loop_spec n b lines link :
  link ∈ links_loop n b lines <->
  exists i l, lines !! i = Some l /\ is_fence l = false
              /\ fence_flag (take i lines) b = false
              /\ link ∈ line_links (n + i) l.
Proof.
  revert n b. induction lines as [|l lines IH]; intros n b.
  - split; [intros H; by apply elem_of_nil in H|].
    by intros (i & l & H & _).
  - cbn [links_loop].
    assert (forall b',
      (if is_fence l then negb b else b) = b' ->
      (exists i l0, lines !! i = Some l0 /\ is_fence l0 = false
                    /\ fence_flag (take i lines) b' = false
                    /\ link ∈ line_links (S n + i) l0) ->
      exists i l0, (l :: lines) !! i = Some l0 /\ is_fence l0 = false
                   /\ fence_flag (take i (l :: lines)) b = false
                   /\ link ∈ line_links (n + i) l0) as Hup.
    { intros b' Hb (i & l0 & H1 & H2 & H3 & H4). exists (S i), l0.
      split; [done|]. split; [done|]. split.
      - cbn [take]. by rewrite fence_flag_cons, Hb.
      - by rewrite Nat.add_succ_r. }
    assert (forall i l0,
      (l :: lines) !! S i = Some l0 -> is_fence l0 = false ->
      fence_flag (take (S i) (l :: lines)) b = false ->
      link ∈ line_links (n + S i) l0 ->
      exists i l0, lines !! i = Some l0 /\ is_fence l0 = false
                   /\ fence_flag (take i lines)
                        (if is_fence l then negb b else b) = false
                   /\ link ∈ line_links (S n + i) l0) as Hdown.
    { intros i l0 H1 H2 H3 H4. exists i, l0. split; [done|]. split; [done|].
      split; [done|]. by rewrite Nat.add_succ_r in H4. }
    destruct (is_fence l) eqn:El; [|destruct b].
    + rewrite IH. split; [by apply Hup|].
      intros ([|i] & l0 & H1 & H2 & H3 & H4); [|by eapply Hdown].
      cbn in H1. congruence.
    + rewrite IH. split; [by apply Hup|].
      intros ([|i] & l0 & H1 & H2 & H3 & H4); [|by eapply Hdown].
      cbn in H3. congruence.
    + rewrite elem_of_app, IH. split.
      * intros [H|H]; [|by apply (Hup false)].
        exists 0, l. rewrite Nat.add_0_r. by repeat split.
      * intros ([|i] & l0 & H1 & H2 & H3 & H4); [|right; by eapply Hdown].
        left. cbn in H1. rewrite Nat.add_0_r in H4. congruence.
Qed.

(** X8: a link is extracted from a body exactly when it is one of the
    links of a line that is no fence line and lies outside the fences (an
    even number of fence lines before it), and it carries the number of
    this line, counted from 1: so the line numbers of the links lie between
    1 and the number of lines of the body. *)
Theorem links_come_from_lines_outside_fences (body : string) (link : LinkRef) :
  (link ∈ extract_links body <->
   exists i l, body_lines body !! i = Some l /\ is_fence l = false
               /\ fence_flag (take i (body_lines body)) false = false
               /\ link ∈ line_links (S i) l)
  /\ (link ∈ extract_links body ->
      1 <= link_line link <= length (body_lines body)).
Proof.
  unfold extract_links. split; [apply links_loop_spec|].
  intros H. apply links_loop_spec in H as (i & l & H1 & _ & _ & H4).
  apply lookup_lt_Some in H1. unfold line_links in H4.
  apply list_elem_of_fmap in H4 as (g & -> & _). cbn. lia.
Qed.

(** ** Diagram blocks and their fences *)

Lemma fence_at_snoc done l n lang :
  fence_at done n lang -> fence_at (done ++ [l]) n lang.
Proof.
  intros (l0 & g & H1 & H2 & H3 & H4). exists l0, g.
  split; [done|]. split; [|done]. by apply lookup_app_l_Some.
Qed.

Lemma fence_at_app done rest n lang :
  fence_at done n lang -> fence_at (done ++ rest) n lang.
Proof.
  intros (l0 & g & H1 & H2 & H3 & H4). exists l0, g.
  split; [done|]. split; [|done]. by apply lookup_app_l_Some.
Qed.

Lemma fence_flag_snoc done l b :
  fence_flag (done ++ [l]) b =
  if is_fence l then negb (fence_flag done b) else fence_flag done b.
Proof. unfold fence_flag. by rewrite fold_left_app. Qed.

Lemma text_cons_nonempty a l : Py.text (a :: l) <> "".
Proof. unfold Py.text. cbn. discriminate. Qed.

Lemma mermaid_step_inv rel done st l :
  mermaid_inv rel done st ->
  mermaid_inv rel (done ++ [l]) (mermaid_step rel (S (length done)) st l).
Proof.
  intros (Hf & Hb & Hp & Hs).
  assert (forall n src, (n, src) ∈ ms_blocks st ->
            src <> "" /\ fence_at (done ++ [l]) n "mermaid") as Hb'.
  { intros n src H. destruct (Hb n src H). split; [done|].
    by apply fence_at_snoc. }
  assert (forall p, p ∈ ms_problems st ->
            exists n, p = empty_block rel n
                      /\ fence_at (done ++ [l]) n "mermaid") as Hp'.
  { intros p H. destruct (Hp p H) as (n & -> & H'). exists n.
    split; [done|]. by apply fence_at_snoc. }
  unfold mermaid_inv. rewrite fence_flag_snoc. unfold mermaid_step, is_fence.
  destruct (Re.FENCE_RE l) as [g|] eqn:El.
  - destruct (ms_in_fence st) eqn:Ein; cbn [negb].
    + specialize (Hs eq_refl).
      destruct (String.eqb_spec (ms_fence_lang st) "mermaid") as [Em|Em].
      * rewrite Em in Hs.
        destruct (Py.strip (Py.join [Py.nl] (ms_buffer st))) as [|a src] eqn:Es;
          cbn.
        -- rewrite <- Hf. split; [done|]. split; [done|]. split; [|done].
           intros p H. apply elem_of_app in H as [H|H]; [by apply Hp'|].
           apply list_elem_of_singleton in H as ->.
           exists (ms_fence_start_line st). split; [done|].
           by apply fence_at_snoc.
        -- rewrite <- Hf. split; [done|]. split; [|done].
           intros n s H. apply elem_of_app in H as [H|H]; [by apply Hb'|].
           apply list_elem_of_singleton in H. injection H as -> ->.
           split; [apply text_cons_nonempty|]. by apply fence_at_snoc.
      * cbn. rewrite <- Hf. done.
    + cbn. rewrite <- Hf. split; [done|]. split; [done|]. split; [done|].
      intros _. exists l, g. split; [lia|]. split; [|done].
      apply list_lookup_middle. lia.
  - destruct (ms_in_fence st) eqn:Ein; cbn.
    + split; [done|]. split; [done|]. split; [done|].
      intros _. apply fence_at_snoc. by apply Hs.
    + rewrite Ein. split; [done|]. split; [done|]. split; [done|].
      intros H. discriminate.
Qed.

Lemma mermaid_loop_inv rel done st rest :
  mermaid_inv rel done st ->
  mermaid_inv rel (done ++ rest) (mermaid_loop rel (S (length done)) st rest).
Proof.
  revert done st. induction rest as [|l rest IH]; intros done st H.
  - by rewrite app_nil_r.
  - rewrite mermaid_loop_cons, cons_middle, app_assoc.
    replace (S (S (length done))) with (S (length (done ++ [l])))
      by (rewrite length_app; simpl; lia).
    apply IH. by apply mermaid_step_inv.
Qed.

(** X9: for every record, each diagram block that the extractor gives has a
    source that is not empty and starts at a fence line of the body whose
    language is mermaid; each problem is attached to the line of a fence,
    and is either an empty mermaid block or the unclosed fence; and the
    unclosed fence is reported exactly when the number of fence lines of
    the body is odd. *)
Theorem diagram_blocks_start_at_mermaid_fences (record : DocRecord) :
  let lines := body_lines (body record) in
  let blocks := fst (extract_fenced_mermaid_blocks record) in
  let problems := snd (extract_fenced_mermaid_blocks record) in
  (forall n src, (n, src) ∈ blocks ->
     src <> "" /\ fence_at lines n "mermaid")
  /\ (forall p, p ∈ problems ->
        exists n,
          (p = empty_block (rel_path record) n /\ fence_at lines n "mermaid")
          \/ (p = unclosed_fence (rel_path record) n
              /\ exists lang, fence_at lines n lang))
  /\ ((exists n, unclosed_fence (rel_path record) n ∈ problems)
      <-> fence_flag lines false = true).
Proof.
  cbn zeta. unfold extract_fenced_mermaid_blocks.
  pose proof (mermaid_loop_inv (rel_path record) [] mermaid_init
                (body_lines (body record))) as H.
  cbn [length app] in H.
  destruct H as (Hf & Hb & Hp & Hs).
  { split; [done|]. split; [|split].
    - intros n src H. by apply elem_of_nil in H.
    - intros p H. by apply elem_of_nil in H.
    - intros H. discriminate. }
  set (st := mermaid_loop (rel_path record) 1 mermaid_init
               (body_lines (body record))) in *.
  unfold mermaid_finish. rewrite <- Hf.
  destruct (ms_in_fence st) eqn:Ein; cbn [fst snd].
  - split; [exact Hb|]. split.
    + intros p H. apply elem_of_app in H as [H|H].
      * destruct (Hp p H) as (n & H1 & H2). exists n. by left.
      * apply list_elem_of_singleton in H as ->.
        exists (ms_fence_start_line st). right. split; [done|].
        exists (ms_fence_lang st). by apply Hs.
    + split; [done|]. intros _. exists (ms_fence_start_line st).
      apply elem_of_app. right. by left.
  - split; [exact Hb|]. split.
    + intros p H. destruct (Hp p H) as (n & H1 & H2). exists n. by left.
    + split; [|discriminate]. intros (n & H).
      destruct (Hp _ H) as (m & Hm & _). discriminate.
Qed.

(** ** Link problems *)

Section LinkProblems.
Import Paths.

Variable repo_root : Path.
Variable fs : FS.

Lemma check_link_attribution cache record link ps :
  check_link repo_root fs cache record link = Some ps ->
  Forall (link_problem_of record link) ps /\ length ps <= 1.
Proof.
  unfold check_link, resolve_markdown_link, link_problem_of, is_local.
  destruct (classify_target (Py.chars (target link))) as [a r|pp a] eqn:Ec.
  { cbn. intros [= <-]. split; [constructor|cbn; lia]. }
  assert (forall found,
    match
      (if negb (path_exists fs (resolve found))
       then Some [broken_link record link found]
       else
         match or_none a with
         | Some a0 =>
             if String.eqb
                  (Py.text (Py.lower (Py.chars (suffix (resolve found)))))
                  ".md"
             then
               match cache !! resolve found with
               | None => Some []
               | Some anchors =>
                   if decide (a0 ∈ anchors) then Some []
                   else
                     rel_key ← relative_to (resolve found) repo_root;
                     Some [missing_anchor record link a0 rel_key]
               end
             else Some []
         | None => Some []
         end)
    with
    | Some ps' =>
        Forall (fun p => check p = "links" /\ path_of p = rel_path record
                         /\ line p = Some (link_line link)
                         /\ exists path_part anchor,
                              Local pp a = Local path_part anchor) ps'
        /\ length ps' <= 1
    | None => True
    end) as Hbody.
  { intros found.
    destruct (negb (path_exists fs (resolve found))).
    { split; [|cbn; lia]. constructor; [|constructor]. cbn. eauto 10. }
    destruct (or_none a) as [a0|]; [|split; [constructor|cbn; lia]].
    destruct (String.eqb _ ".md"); [|split; [constructor|cbn; lia]].
    destruct (cache !! resolve found) as [anchors|];
      [|split; [constructor|cbn; lia]].
    destruct (decide (a0 ∈ anchors)); [split; [constructor|cbn; lia]|].
    destruct (relative_to (resolve found) repo_root) as [rel_key|]; cbn;
      [|done].
    split; [|lia]. constructor; [|constructor]. cbn. eauto 10. }
  destruct pp as [|c pp].
  - cbn [mbind option_bind]. intros H. specialize (Hbody (path record)).
    rewrite H in Hbody. exact Hbody.
  - destruct (fallback fs (base_path repo_root record (c :: pp)))
      as [found|]; cbn [mbind option_bind]; [|discriminate].
    intros H. specialize (Hbody found). rewrite H in Hbody. exact Hbody.
Qed.

Lemma record_link_problems_attribution cache record ps :
  record_link_problems repo_root fs cache record = Some ps ->
  (forall p, p ∈ ps ->
     exists link, link ∈ links record /\ link_problem_of record link p)
  /\ length ps <= length (links record).
Proof.
  unfold record_link_problems. intros H.
  apply fmap_Some in H as (k & Hk & ->). apply mapM_Some in Hk.
  induction Hk as [|link ps0 ls k H0 _ IH]; cbn.
  - split; [|lia]. intros p Hp. by apply elem_of_nil in Hp.
  - destruct IH as [IH1 IH2].
    destruct (check_link_attribution _ _ _ _ H0) as [Ha Hl].
    split; [|rewrite length_app; lia].
    intros p Hp. apply elem_of_app in Hp as [Hp|Hp].
    + exists link. split; [by left|].
      rewrite Forall_forall in Ha. by apply Ha.
    + destruct (IH1 p Hp) as (l' & Hin & Hl'). exists l'.
      split; [by right|done].
Qed.

(** X10: when the link check returns, each of its problems belongs to one
    link of one of the records: it has the check name [links], the
    relative path of the record and the line of the link, and the target
    of the link is one the resolver looks up, so that no skipped target
    (external, query-only, network-path, route or site route) is ever
    reported.  A link gives one problem at most. *)
Theorem link_problems_belong_to_local_links
    (records : list DocRecord) (ps : list Problem) :
  validate_links repo_root fs records = Some ps ->
  (forall p, p ∈ ps ->
     exists record link,
       record ∈ records /\ link ∈ links record
       /\ link_problem_of record link p)
  /\ length ps <= length (concat (map links records)).
Proof.
  unfold validate_links. generalize (heading_cache records). intros cache H.
  apply fmap_Some in H as (k & Hk & ->). apply mapM_Some in Hk.
  induction Hk as [|record ps0 rs k H0 _ IH]; cbn.
  - split; [|lia]. intros p Hp. by apply elem_of_nil in Hp.
  - destruct IH as [IH1 IH2].
    destruct (record_link_problems_attribution _ _ _ H0) as [Ha Hl].
    split; [|rewrite !length_app; lia].
    intros p Hp. apply elem_of_app in Hp as [Hp|Hp].
    + destruct (Ha p Hp) as (link & Hin & Hl'). exists record, link.
      split; [by left|done].
    + destruct (IH1 p Hp) as (r & l' & Hr & Hin & Hl'). exists r, l'.
      split; [by right|done].
Qed.

End LinkProblems.

Lemma link_problems_belong_to_local_links_witness :
  let record := link_scenario_record "[x](./missing.md) [y](https://e.org/)" in
  exists ps,
    validate_links ["repo"] link_scenario_fs [record] = Some ps
    /\ (forall p, p ∈ ps ->
          exists record' link,
            record' ∈ [record] /\ link ∈ links record'
            /\ link_problem_of record' link p)
    /\ length ps <= length (concat (map links [record])).
Proof.
  eexists. split; [vm_compute; reflexivity|].
  apply (link_problems_belong_to_local_links ["repo"] link_scenario_fs).
  vm_compute. reflexivity.
Defined.

(** ** The cache of anchors *)

Lemma heading_cache_snoc records r :
  heading_cache (records ++ [r])
  = <[ Paths.resolve (path r) := anchors r ]> (heading_cache records).
Proof. unfold heading_cache. by rewrite fold_left_app. Qed.

Lemma heading_cache_lookup_last (records : list DocRecord) (k : Path) :
  heading_cache records !! k
  = anchors <$> last (filter (fun r => Paths.resolve (path r) = k) records).
Proof.
  induction records as [|r records IH] using rev_ind; [done|].
  rewrite heading_cache_snoc, filter_app, filter_cons, filter_nil.
  destruct (decide (Paths.resolve (path r) = k)) as [E|E].
  - by rewrite E, lookup_insert_eq, last_snoc.
  - rewrite lookup_insert_ne, app_nil_r; done.
Qed.

(** X11: the cache of anchors that the link check builds gives, for a
    path, the anchors of the last record that resolves to this path, and
    nothing for a path that no record resolves to. *)
Theorem heading_cache_gives_last_record
    (records : list DocRecord) (k : Path) :
  heading_cache records !! k
  = anchors <$> last (filter (fun r => Paths.resolve (path r) = k) records).
Proof. apply heading_cache_lookup_last. Qed.

(** ** Links into the document itself *)

Section SameDocument.
Import Paths.

Variable repo_root : Path.
Variable fs : FS.

Lemma classify_fragment frag :
  classify_target (Py.chars ("#" +:+ frag)) = Local [] (Py.chars frag).
Proof. reflexivity. Qed.

Lemma or_none_chars frag : frag <> "" -> or_none (Py.chars frag) = Some frag.
Proof.
  destruct frag as [|c frag]; [done|]. intros _. unfold or_none.
  change (Py.chars (String c frag)) with (c :: Py.chars frag).
  by rewrite <- (text_chars (String c frag)).
Qed.

Lemma last_filter_anchors (records : list DocRecord) record :
  record ∈ records ->
  (forall r, r ∈ records ->
     resolve (path r) = resolve (path record) -> anchors r = anchors record) ->
  anchors <$> last (filter (fun r => resolve (path r) = resolve (path record))
                      records)
  = Some (anchors record).
Proof.
  intros Hin Hsame.
  destruct (last (filter (fun r => resolve (path r) = resolve (path record))
                    records)) as [r|] eqn:El.
  - cbn. f_equal. apply last_Some in El as (pre & El).
    assert (r ∈ filter (fun r => resolve (path r) = resolve (path record))
                  records) as Hr.
    { rewrite El. apply elem_of_app. right. by left. }
    apply list_elem_of_filter in Hr as [Hr1 Hr2]. by apply Hsame.
  - apply last_None in El.
    assert (record ∈ filter (fun r => resolve (path r) = resolve (path record))
                       records) as Hr.
    { by apply list_elem_of_filter. }
    rewrite El in Hr. by apply elem_of_nil in Hr.
Qed.

(** X12: a link whose target is a fragment alone points into the document
    that holds it.  When this document is one of the records, is a
    Markdown file that exists, and the records of the same path agree on
    their anchors, the link is accepted exactly when the fragment is one of
    the anchors of the document; otherwise the missing anchor is reported
    with the path of the document relative to the repository (the check
    raises when the document lies outside of it). *)
Theorem fragment_link_is_checked_in_its_document
    (records : list DocRecord) (record : DocRecord) (frag : string)
    (line_no : nat) :
  frag <> "" ->
  record ∈ records ->
  (forall r, r ∈ records ->
     resolve (path r) = resolve (path record) -> anchors r = anchors record) ->
  path_exists fs (resolve (path record)) = true ->
  Py.text (Py.lower (Py.chars (suffix (resolve (path record))))) = ".md" ->
  let link := mkLinkRef ("#" +:+ frag) line_no in
  check_link repo_root fs (heading_cache records) record link
  = if decide (frag ∈ anchors record) then Some []
    else rel_key ← relative_to (resolve (path record)) repo_root;
         Some [missing_anchor record link frag rel_key].
Proof.
  intros Hfrag Hin Hsame Hex Hmd link.
  unfold check_link, resolve_markdown_link.
  change (target link) with ("#" +:+ frag). rewrite classify_fragment.
  cbn [mbind option_bind]. rewrite Hex. cbn [negb].
  rewrite (or_none_chars _ Hfrag), Hmd, String.eqb_refl.
  rewrite heading_cache_lookup_last, (last_filter_anchors _ _ Hin Hsame).
  done.
Qed.

End SameDocument.

Lemma fragment_link_is_checked_in_its_document_witness :
  let record := link_scenario_record "# Setup" in
  check_link ["repo"] link_scenario_fs (heading_cache [record]) record
    (mkLinkRef "#set-up" 3)
  = Some [mkProblem "links" "docs/a.md"
            "missing anchor `#set-up` in `docs/a.md`" (Some 3)].
Proof.
  apply (fragment_link_is_checked_in_its_document ["repo"] link_scenario_fs
           [link_scenario_record "# Setup"] (link_scenario_record "# Setup")
           "set-up" 3).
  - discriminate.
  - by left.
  - intros r Hr _. apply list_elem_of_singleton in Hr. by rewrite Hr.
  - reflexivity.
  - reflexivity.
Defined.

(** ** Problems of the metadata check and of the procedure check *)

Lemma concat_mapM_elem {A B} (f : A -> option (list B)) (l : list A)
    (k : list (list B)) (b : B) :
  mapM f l = Some k -> b ∈ concat k ->
  exists a bs, a ∈ l /\ f a = Some bs /\ b ∈ bs.
Proof.
  intros H. apply mapM_Some in H.
  induction H as [|a bs l k H0 _ IH]; cbn.
  - intros Hb. by apply elem_of_nil in Hb.
  - intros Hb. apply elem_of_app in Hb as [Hb|Hb].
    + exists a, bs. split; [by left|done].
    + destruct (IH Hb) as (a' & bs' & Ha & Hf & Hb'). exists a', bs'.
      split; [by right|done].
Qed.

Lemma concat_mapM_length {A B} (f : A -> option (list B)) (l : list A)
    (k : list (list B)) (n : nat) :
  (forall a bs, a ∈ l -> f a = Some bs -> length bs <= n) ->
  mapM f l = Some k -> length (concat k) <= n * length l.
Proof.
  intros Hn H. apply mapM_Some in H.
  induction H as [|a bs l k H0 _ IH]; cbn; [lia|].
  rewrite length_app.
  assert (length bs <= n) by (apply (Hn a); [by left|done]).
  assert (length (concat k) <= n * length l).
  { apply IH. intros a' bs' Ha. apply Hn. by right. }
  lia.
Qed.

Section CheckProblems.
Import Paths.

Variable repo_root : Path.
Variable fromisoformat : string -> option date.
Variable int_of_str : string -> option Z.
Variable repr_str : string -> string.

Lemma fm_problem_of record msg :
  frontmatter_problem_of record (fm_problem record msg).
Proof. split; [done|]. split; [done|]. by left. Qed.

Lemma Forall_when (P : Problem -> Prop) b p : P p -> Forall P (when b p).
Proof. intros H. destruct b; by repeat constructor. Qed.

Lemma missing_fields_of contracts record :
  Forall (frontmatter_problem_of record) (missing_fields contracts record).
Proof.
  unfold missing_fields. apply Forall_map, Forall_forall. intros field _.
  apply fm_problem_of.
Qed.

Lemma enum_problems_of record field allowed :
  Forall (frontmatter_problem_of record)
    (enum_problems repr_str record field allowed).
Proof.
  unfold enum_problems. destruct (as_str _).
  - apply Forall_when, fm_problem_of.
  - constructor; [apply fm_problem_of|constructor].
Qed.

Lemma reviewed_problems_of stale_days today record :
  Forall (frontmatter_problem_of record)
    (reviewed_problems fromisoformat stale_days today record).
Proof.
  unfold reviewed_problems. destruct (as_str _).
  - destruct (parse_review_date _ _).
    + apply Forall_when, fm_problem_of.
    + constructor; [apply fm_problem_of|constructor].
  - constructor; [apply fm_problem_of|constructor].
Qed.

Lemma list_field_problems_of record field :
  Forall (frontmatter_problem_of record) (list_field_problems record field).
Proof.
  unfold list_field_problems.
  destruct (frontmatter record !! field) as [[s|[|v vs]]|];
    try (constructor; [apply fm_problem_of|constructor]).
  apply Forall_when, fm_problem_of.
Qed.

Lemma taxonomy_problems_of contracts record ps :
  frontmatter record <> ∅ ->
  taxonomy_problems repo_root repr_str contracts record = Some ps ->
  Forall (frontmatter_problem_of record) ps
  /\ below_docs_root repo_root record.
Proof.
  intros Hne. unfold taxonomy_problems, below_docs_root.
  destruct (relative_to (path record) (docs_root repo_root))
    as [[|part [|part' parts]]|]; cbn [mbind option_bind]; try done.
  - intros [= <-]. split; [|eauto].
    destruct (as_str _); [|constructor].
    apply Forall_when. split; [done|]. split; [done|]. right. split; [|done].
    by left.
  - intros [= <-]. split; [|eauto]. apply Forall_app. split.
    + destruct (diataxis_category_by_folder contracts !! part) as [[|c e]|];
        try constructor.
      apply Forall_when. split; [done|]. split; [done|]. right.
      split; [|done]. by left.
    + apply Forall_when. split; [done|]. split; [done|]. right.
      split; [|done]. by right.
Qed.

Lemma frontmatter_record_problems_of contracts stale_days today record ps :
  frontmatter_record_problems repo_root fromisoformat repr_str contracts
    stale_days today record = Some ps ->
  Forall (frontmatter_problem_of record) ps
  /\ (frontmatter record = ∅ \/ below_docs_root repo_root record).
Proof.
  unfold frontmatter_record_problems.
  destruct (decide (frontmatter record = ∅)) as [He|Hne].
  { intros [= <-]. split; [apply missing_fields_of|by left]. }
  destruct (taxonomy_problems repo_root repr_str contracts record)
    as [tax|] eqn:Et; cbn [mbind option_bind]; [|done].
  intros [= <-]. destruct (taxonomy_problems_of _ _ _ Hne Et) as [Ht Hb].
  split; [|by right].
  repeat (apply Forall_app; split);
    auto using missing_fields_of, enum_problems_of, reviewed_problems_of,
      list_field_problems_of.
  - apply Forall_when, fm_problem_of.
  - apply Forall_when, fm_problem_of.
Qed.

(** X13: when the metadata check returns, every problem it gives belongs
    to one of the records: it carries the relative path of this record and
    no line number, and its check name is [frontmatter], or [diataxis] or
    [adr] for a record whose mapping is not empty.  The check returns only
    when each record with a mapping that is not empty lies below the
    documentation root. *)
Theorem frontmatter_problems_belong_to_records
    (env : Env) (records : list DocRecord) (contracts : Contracts)
    (ps : list Problem) :
  validate_frontmatter repo_root fromisoformat int_of_str repr_str env
    records contracts = Some ps ->
  (forall p, p ∈ ps ->
     exists record, record ∈ records /\ frontmatter_problem_of record p)
  /\ (forall record, record ∈ records ->
        frontmatter record = ∅ \/ below_docs_root repo_root record).
Proof.
  unfold validate_frontmatter.
  destruct (stale_days_of _ _ _) as [d|]; [|done].
  destruct (current_date _ _) as [t|]; [|done]. cbn [mbind option_bind].
  intros H. apply fmap_Some in H as (k & Hk & ->). split.
  - intros p Hp.
    destruct (concat_mapM_elem _ _ _ _ Hk Hp) as (r & bs & Hr & Hf & Hb).
    exists r. split; [done|].
    destruct (frontmatter_record_problems_of _ _ _ _ _ Hf) as [Ha _].
    rewrite Forall_forall in Ha. by apply Ha.
  - intros r. apply mapM_Some in Hk.
    induction Hk as [|r' ps' rs k Hf _ IH]; intros Hr.
    + by apply elem_of_nil in Hr.
    + apply elem_of_cons in Hr as [->|Hr]; [|by apply IH].
      by destruct (frontmatter_record_problems_of _ _ _ _ _ Hf).
Qed.

Lemma sop_loop_length record required hs :
  length (sop_loop record required hs) <= 1.
Proof.
  revert hs. induction required as [|req more IH]; intros hs; cbn; [lia|].
  destruct (after_first req hs); [apply IH|cbn; lia].
Qed.

Lemma sop_loop_problem record required hs p :
  p ∈ sop_loop record required hs ->
  check p = "sop" /\ path_of p = rel_path record /\ line p = None.
Proof.
  revert hs. induction required as [|req more IH]; intros hs; cbn.
  - intros H. by apply elem_of_nil in H.
  - destruct (after_first req hs); [apply IH|].
    intros H. apply list_elem_of_singleton in H as ->. done.
Qed.

Lemma sop_record_problems_of required record ps :
  sop_record_problems repo_root required record = Some ps ->
  length ps <= 1
  /\ forall p, p ∈ ps -> sop_problem_of repo_root record p.
Proof.
  unfold sop_record_problems, sop_problem_of.
  destruct (relative_to (path record) (docs_root repo_root))
    as [[|folder parts]|]; cbn [mbind option_bind]; [| |done].
  - intros [= <-]. split; [cbn; lia|]. intros p H. by apply elem_of_nil in H.
  - destruct (String.eqb_spec folder "sop") as [->|Hne].
    + intros [= <-]. split; [apply sop_loop_length|]. intros p Hp.
      destruct (sop_loop_problem _ _ _ _ Hp) as (H1 & H2 & H3). eauto 10.
    + intros [= <-]. split; [cbn; lia|]. intros p H.
      by apply elem_of_nil in H.
Qed.

(** X14: when the check of the headings of procedures returns, every
    problem it gives has the check name [sop], no line number and the
    relative path of a record that lies in the folder [sop] of the
    documentation root; there are no more problems than records, and
    the check run on one of the records alone returns with one problem at
    most. *)
Theorem sop_problems_belong_to_procedures
    (records : list DocRecord) (contracts : Contracts) (ps : list Problem) :
  validate_sop_headings repo_root records contracts = Some ps ->
  (forall p, p ∈ ps ->
     exists record, record ∈ records /\ sop_problem_of repo_root record p)
  /\ length ps <= length records
  /\ (forall record, record ∈ records ->
        exists ps',
          validate_sop_headings repo_root [record] contracts = Some ps'
          /\ length ps' <= 1).
Proof.
  unfold validate_sop_headings. intros H.
  apply fmap_Some in H as (k & Hk & ->). split; [|split].
  - intros p Hp.
    destruct (concat_mapM_elem _ _ _ _ Hk Hp) as (r & bs & Hr & Hf & Hb).
    exists r. split; [done|].
    destruct (sop_record_problems_of _ _ _ Hf) as [_ Ha]. by apply Ha.
  - rewrite <- (Nat.mul_1_l (length records)).
    apply (concat_mapM_length _ _ _ 1) in Hk; [done|].
    intros r bs _ Hf. by destruct (sop_record_problems_of _ _ _ Hf).
  - intros record Hin.
    assert (is_Some (mapM (sop_record_problems repo_root
                             (map normalize_heading
                                (sop_required_headings contracts)))
                       records)) as Hs by (by rewrite Hk).
    apply mapM_is_Some in Hs. rewrite Forall_forall in Hs.
    destruct (Hs record Hin) as [ps' Hps']. cbn in Hps'.
    exists ps'. cbn [mapM]. rewrite Hps'. cbn. rewrite app_nil_r.
    split; [done|]. by destruct (sop_record_problems_of _ _ _ Hps').
Qed.

End CheckProblems.


Lemma frontmatter_problems_belong_to_records_witness :
  exists ps,
    validate_frontmatter ["repo"] Calendar.parse_ymd (fun _ => None)
      (fun s => s) stale_scenario_env [stale_scenario_record]
      stale_scenario_contracts = Some ps
    /\ ps <> []
    /\ forall p, p ∈ ps ->
         exists record,
           record ∈ [stale_scenario_record]
           /\ frontmatter_problem_of record p.
Proof.
  eexists. split; [vm_compute; reflexivity|]. split; [discriminate|].
  apply (frontmatter_problems_belong_to_records ["repo"] Calendar.parse_ymd
           (fun _ => None) (fun s => s) stale_scenario_env
           [stale_scenario_record] stale_scenario_contracts).
  vm_compute. reflexivity.
Defined.

Lemma sop_problems_belong_to_procedures_witness :
  let ps := [mkProblem "sop" "docs/sop/deploy.md"
               "missing or out-of-order heading `Preconditions`" None] in
  (forall p, p ∈ ps ->
     exists record,
       record ∈ [sop_scenario_record] /\ sop_problem_of ["repo"] record p)
  /\ length ps <= 1.
Proof.
  destruct (sop_problems_belong_to_procedures ["repo"] [sop_scenario_record]
              sop_scenario_contracts
              [mkProblem "sop" "docs/sop/deploy.md"
                 "missing or out-of-order heading `Preconditions`" None]
              eq_refl) as (H1 & H2 & _).
  split; [exact H1|exact H2].
Defined.

(** ** Metrics of the audit report *)

Section Metrics.

Variable fromisoformat : string -> option date.
Variable int_of_str : string -> option Z.

Lemma freshness_step_cases stale_days today fresh total stale_docs r :
  freshness_step fromisoformat stale_days today (fresh, total, stale_docs) r
  = if fresh_record fromisoformat stale_days today r
    then (S fresh, S total, stale_docs)
    else if stale_record fromisoformat stale_days today r
         then (fresh, S total, stale_docs ++ [rel_path r])
         else (fresh, total, stale_docs).
Proof.
  unfold freshness_step, fresh_record, stale_record, review_age,
    parse_review_date.
  destruct (as_str (frontmatter r !! "last_reviewed")) as [reviewed|];
    cbn [mbind option_bind]; [|done].
  destruct (fromisoformat reviewed) as [parsed|];
    cbn [mbind option_bind]; [|done].
  destruct (Z.leb_spec (Calendar.days_between today parsed) stale_days)
    as [Hle|Hgt]; [done|].
  by rewrite (proj2 (Z.ltb_lt _ _) Hgt).
Qed.

Lemma fresh_not_stale stale_days today r :
  fresh_record fromisoformat stale_days today r = true ->
  stale_record fromisoformat stale_days today r = false.
Proof.
  unfold fresh_record, stale_record.
  destruct (review_age fromisoformat today r) as [age|]; [|done].
  intros H. apply Z.leb_le in H. apply Z.ltb_ge. lia.
Qed.

Lemma freshness_fold stale_days today records fresh total stale_docs :
  fold_left (freshness_step fromisoformat stale_days today) records
    (fresh, total, stale_docs)
  = (fresh + length (List.filter
                       (fresh_record fromisoformat stale_days today) records),
     total + length (List.filter
                       (fresh_record fromisoformat stale_days today) records)
       + length (List.filter
                   (stale_record fromisoformat stale_days today) records),
     stale_docs
       ++ map rel_path
            (List.filter (stale_record fromisoformat stale_days today)
               records)).
Proof.
  revert fresh total stale_docs.
  induction records as [|r records IH]; intros fresh total stale_docs.
  { cbn. by rewrite !Nat.add_0_r, app_nil_r. }
  cbn [fold_left List.filter]. rewrite freshness_step_cases.
  destruct (fresh_record fromisoformat stale_days today r) eqn:Ef.
  - rewrite (fresh_not_stale _ _ _ Ef), IH. cbn [length].
    f_equal. f_equal; lia.
  - destruct (stale_record fromisoformat stale_days today r) eqn:Es.
    + rewrite IH. cbn [length map]. rewrite <- app_assoc. cbn [app].
      f_equal. f_equal; lia.
    + apply IH.
Qed.

Lemma filter_fresh_stale_length stale_days today records :
  length (List.filter (fresh_record fromisoformat stale_days today) records)
  + length (List.filter (stale_record fromisoformat stale_days today) records)
  <= length records.
Proof.
  induction records as [|r records IH]; cbn; [lia|].
  unfold fresh_record at 1, stale_record at 1.
  destruct (review_age fromisoformat today r) as [age|]; [|lia].
  destruct (Z.leb_spec age stale_days), (Z.ltb_spec stale_days age);
    cbn [length]; lia.
Qed.

(** X15: the freshness metrics of the audit report count the records whose
    last review is a date: the stale documents are the relative paths, in
    the order of the records, of those whose review is older than the
    threshold, which are the records for which the metadata check reports
    a stale review; the fresh ones are the others, so that the fresh count
    and the number of stale documents add up to the total, which is at most
    the number of records. *)
Theorem freshness_metrics_count_reviews
    (env : Env) (records : list DocRecord) (contracts : Contracts)
    (stale_days : Z) (today : date) :
  stale_days_of int_of_str env contracts = Some stale_days ->
  current_date fromisoformat env = Some today ->
  exists fresh total stale_docs,
    frontmatter_freshness_metrics fromisoformat int_of_str env records
      contracts = Some (fresh, total, stale_docs)
    /\ stale_docs
       = map rel_path
           (List.filter (stale_record fromisoformat stale_days today) records)
    /\ fresh
       = length (List.filter (fresh_record fromisoformat stale_days today)
                   records)
    /\ fresh + length stale_docs = total
    /\ total <= length records
    /\ (forall record,
          stale_record fromisoformat stale_days today record = true
          <-> exists age,
                reviewed_problems fromisoformat stale_days today record
                = [stale_problem record age stale_days]).
Proof.
  intros Hd Ht. unfold frontmatter_freshness_metrics. rewrite Hd, Ht.
  cbn [mbind option_bind]. rewrite freshness_fold. cbn [app Nat.add].
  eexists _, _, _. split; [reflexivity|]. split; [done|]. split; [done|].
  split; [by rewrite length_map|]. split; [apply filter_fresh_stale_length|].
  intros record. unfold stale_record, review_age, reviewed_problems,
    parse_review_date.
  destruct (as_str (frontmatter record !! "last_reviewed")) as [reviewed|];
    cbn [mbind option_bind].
  - destruct (fromisoformat reviewed) as [parsed|]; cbn [mbind option_bind].
    + destruct (stale_days <? Calendar.days_between today parsed)%Z; cbn.
      * split; [eauto|done].
      * split; [done|]. intros (age & H). discriminate.
    + split; [done|]. intros (age & H). injection H as H. discriminate H.
  - split; [done|]. intros (age & H). injection H as H. discriminate H.
Qed.

End Metrics.

Lemma freshness_metrics_count_reviews_witness :
  frontmatter_freshness_metrics Calendar.parse_ymd (fun _ => None)
    stale_scenario_env [stale_scenario_record] stale_scenario_contracts
  = Some (0, 1, ["docs/guide.md"]).
Proof.
  destruct (freshness_metrics_count_reviews Calendar.parse_ymd (fun _ => None)
              stale_scenario_env [stale_scenario_record]
              stale_scenario_contracts 180 (mkDate 2024 6 30)
              eq_refl eq_refl)
    as (fresh & total & stale_docs & Hm & -> & -> & <- & _).
  exact Hm.
Defined.

(** ** Counts by category *)

Lemma total_count_step (m : gmap string nat) (c : string) :
  total_count (<[ c := S (default 0 (m !! c)) ]> m) = S (total_count m).
Proof.
  unfold total_count.
  assert (forall (m' : gmap string nat) j1 j2 z1 z2 y,
            j1 <> j2 -> m' !! j1 = Some z1 -> m' !! j2 = Some z2 ->
            z1 + (z2 + y) = z2 + (z1 + y)) as Hcomm by (intros; lia).
  destruct (m !! c) as [n|] eqn:E; cbn [default].
  - rewrite <- insert_delete_eq.
    rewrite map_fold_insert_L;
      [|by eapply Hcomm|apply lookup_delete_eq].
    rewrite (map_fold_delete_L _ _ c n m); [done|by eapply Hcomm|done].
  - rewrite map_fold_insert_L; [done|by eapply Hcomm|done].
Qed.

Lemma counts_by_category_snoc records r :
  counts_by_category (records ++ [r])
  = <[ category_of r :=
         S (default 0 (counts_by_category records !! category_of r)) ]>
      (counts_by_category records).
Proof. unfold counts_by_category. by rewrite fold_left_app. Qed.

(** X16: the counter of the audit report holds, for each category, the
    number of records of this category, where a record without a category
    or with one that is no text counts as [unknown]; a category of no
    record has no entry; and the counts add up to the number of records. *)
Theorem category_counts_add_up (records : list DocRecord) :
  (forall c,
     counts_by_category records !! c
     = match length (filter (fun r => category_of r = c) records) with
       | 0 => None
       | n => Some n
       end)
  /\ total_count (counts_by_category records) = length records.
Proof.
  induction records as [|r records [IH1 IH2]] using rev_ind.
  { split; [done|]. unfold counts_by_category, total_count. cbn.
    apply map_fold_empty. }
  rewrite counts_by_category_snoc, total_count_step, IH2, length_app.
  split; [|cbn; lia].
  intros c. rewrite filter_app, filter_cons, filter_nil, length_app.
  destruct (decide (category_of r = c)) as [<-|Hne].
  - rewrite lookup_insert_eq, IH1. cbn [length].
    destruct (length (filter _ records)) as [|n]; cbn [default].
    + done.
    + rewrite Nat.add_1_r. done.
  - rewrite lookup_insert_ne by done. rewrite IH1. cbn [length].
    by rewrite Nat.add_0_r.
Qed.

(** ** The order of the printed problems *)

Lemma order_compare_refl {A} (cmp : A -> A -> comparison) a :
  order_compare cmp -> cmp a a = Eq.
Proof.
  intros (Hopp & _ & _). specialize (Hopp a a).
  destruct (cmp a a); done.
Qed.

Lemma order_compare_lex {A B} (cmpA : A -> A -> comparison)
    (cmpB : B -> B -> comparison) :
  order_compare cmpA -> order_compare cmpB ->
  order_compare (lex_compare cmpA cmpB).
Proof.
  intros HA HB. pose proof (fun a => order_compare_refl cmpA a HA) as HrA.
  destruct HA as (HoA & HeA & HtA), HB as (HoB & HeB & HtB).
  unfold lex_compare. split; [|split].
  - intros [a1 b1] [a2 b2]. cbn. rewrite (HoA a1 a2).
    destruct (cmpA a2 a1); cbn; [apply HoB|done|done].
  - intros [a1 b1] [a2 b2]. cbn.
    destruct (cmpA a1 a2) eqn:Ea; try done.
    intros Eb. by rewrite (HeA _ _ Ea), (HeB _ _ Eb).
  - intros [a1 b1] [a2 b2] [a3 b3]. cbn.
    destruct (cmpA a1 a2) eqn:E12; try done.
    + apply HeA in E12 as ->.
      destruct (cmpA a2 a3) eqn:E23; try done. apply HtB.
    + destruct (cmpA a2 a3) eqn:E23; try done.
      * apply HeA in E23 as <-. by rewrite E12.
      * by rewrite (HtA _ _ _ E12 E23).
Qed.

Lemma order_compare_string : order_compare String.compare.
Proof.
  split; [apply String.compare_antisym|]. split; [apply String.compare_eq_iff|].
  intros a b c Hab Hbc.
  assert (String.le a c) as Hle.
  { transitivity b; unfold String.le, String.leb; [by rewrite Hab|by rewrite Hbc]. }
  unfold String.le, String.leb in Hle.
  destruct (String.compare a c) eqn:Hac; [|done|done].
  apply String.compare_eq_iff in Hac as ->.
  rewrite String.compare_antisym, Hbc in Hab. discriminate.
Qed.

Lemma order_compare_nat : order_compare Nat.compare.
Proof.
  split; [intros a b; apply Nat.compare_antisym|]. split; [apply Nat.compare_eq|].
  intros a b c Hab Hbc. apply Nat.compare_lt_iff in Hab, Hbc.
  apply Nat.compare_lt_iff. lia.
Qed.

Lemma compare_key_lex a b :
  compare_key a b
  = lex_compare String.compare
      (lex_compare String.compare (lex_compare Nat.compare String.compare))
      (fst (fst (fst a)), (snd (fst (fst a)), (snd (fst a), snd a)))
      (fst (fst (fst b)), (snd (fst (fst b)), (snd (fst b), snd b))).
Proof. by destruct a as [[[c1 p1] l1] m1], b as [[[c2 p2] l2] m2]. Qed.

Lemma order_compare_key : order_compare compare_key.
Proof.
  pose proof (order_compare_lex _ _ order_compare_string
                (order_compare_lex _ _ order_compare_string
                   (order_compare_lex _ _ order_compare_nat
                      order_compare_string))) as (Ho & He & Ht).
  split; [|split].
  - intros a b. rewrite !compare_key_lex. apply Ho.
  - intros a b. rewrite compare_key_lex. intros H. apply He in H.
    destruct a as [[[c1 p1] l1] m1], b as [[[c2 p2] l2] m2]. cbn in H.
    by injection H as -> -> -> ->.
  - intros a b c. rewrite !compare_key_lex. apply Ht.
Qed.

Lemma keys_le_trans a b c : keys_le a b -> keys_le b c -> keys_le a c.
Proof.
  destruct order_compare_key as (Ho & He & Ht). unfold keys_le.
  intros Hab Hbc.
  destruct (compare_key a b) eqn:E1; [|clear Hab|done].
  { by apply He in E1 as ->. }
  destruct (compare_key b c) eqn:E2; [|clear Hbc|done].
  { apply He in E2 as <-. by rewrite E1. }
  by rewrite (Ht _ _ _ E1 E2).
Qed.

Lemma keys_le_antisym a b : keys_le a b -> keys_le b a -> a = b.
Proof.
  destruct order_compare_key as (Ho & He & Ht). unfold keys_le.
  intros Hab Hba. apply He. rewrite (Ho b a) in Hba.
  destruct (compare_key a b); done.
Qed.

Lemma keys_le_total a b : keys_le a b \/ keys_le b a.
Proof.
  destruct order_compare_key as (Ho & He & Ht). unfold keys_le.
  rewrite (Ho b a). destruct (compare_key a b); cbn; auto.
Qed.

Lemma problem_line_key p : problem_line p = key_line (sort_key p).
Proof.
  unfold problem_line, key_line, sort_key. by destruct (line p) as [[|n]|].
Qed.

Lemma sorted_keys (ps : list Problem) :
  StronglySorted keys_le (map sort_key (merge_sort key_le ps)).
Proof.
  assert (Transitive key_le) as Htrans.
  { intros p q r. apply keys_le_trans. }
  assert (Total key_le) as Htotal.
  { intros p q. apply keys_le_total. }
  apply (StronglySorted_fmap sort_key key_le keys_le); [done|].
  by apply StronglySorted_merge_sort.
Qed.

Lemma sorted_keys_unique (a b : list Problem) :
  a ≡ₚ b ->
  map sort_key (merge_sort key_le a) = map sort_key (merge_sort key_le b).
Proof.
  intros Hab. apply (StronglySorted_unique_strong keys_le).
  - intros x1 x2 _ _. apply keys_le_antisym.
  - apply sorted_keys.
  - apply sorted_keys.
  - apply fmap_Permutation. by rewrite !merge_sort_Permutation.
Qed.

Lemma print_problems_keys {R} (ps : list Problem) :
  @print_problems R ps
  = map (fun k => EvPrint (key_line k)) (map sort_key (merge_sort key_le ps)).
Proof.
  unfold print_problems. rewrite map_map. apply map_ext. intros p.
  by rewrite problem_line_key.
Qed.

(** X17: what is printed for a list of problems does not depend on the
    order in which the checks found them: two lists with the same problems
    give the same lines in the same order, and the same verdict.  The lines
    are those of the problems, in the order of their keys (check name,
    path, line number with 0 for none, message). *)
Theorem printed_problems_do_not_depend_on_order
    (R : Type) (a b : list Problem) :
  a ≡ₚ b ->
  @print_problems R a = print_problems b
  /\ @fail_if_problems R a = fail_if_problems b
  /\ exists sorted,
       sorted ≡ₚ a /\ StronglySorted keys_le (map sort_key sorted)
       /\ @print_problems R a
          = map (fun p => EvPrint (problem_line p)) sorted.
Proof.
  intros Hab.
  assert (@print_problems R a = print_problems b) as Hprint.
  { by rewrite !print_problems_keys, (sorted_keys_unique a b Hab). }
  split; [done|]. split.
  - unfold fail_if_problems. rewrite Hprint.
    pose proof (Permutation_length Hab) as Hlen.
    destruct a as [|x a], b as [|y b]; try done. by rewrite Hlen.
  - exists (merge_sort key_le a). split; [apply merge_sort_Permutation|].
    split; [apply sorted_keys|done].
Qed.

Lemma printed_problems_do_not_depend_on_order_witness :
  let p := mkProblem "links" "docs/a.md" "broken" (Some 3) in
  let q := mkProblem "frontmatter" "docs/b.md" "missing" None in
  @print_problems unit [p; q] = print_problems [q; p].
Proof.
  apply (printed_problems_do_not_depend_on_order unit).
  apply perm_swap.
Defined.

(** ** Commands *)

Lemma fail_if_problems_code {R} (ps : list Problem) :
  snd (@fail_if_problems R ps) = (if ps is [] then 0 else 1)%Z.
Proof. by destruct ps. Qed.

Lemma fail_if_problems_passes {R} (ps : list Problem) :
  passes (Some (@fail_if_problems R ps)) <-> ps = [].
Proof.
  unfold passes. destruct ps as [|p ps]; cbn.
  - split; [done|]. intros _. by eexists.
  - split; [|done]. intros (ev & H). discriminate.
Qed.

Section CommandLemmas.

Variable repo_root : Path.
Variable fs : Paths.FS.
Variable fromisoformat : string -> option date.
Variable int_of_str : string -> option Z.
Variable repr_str : string -> string.
Variable float : Type.
Variable float_zero : float.
Variable round_percent : nat -> nat -> float.
Variable mmd_files : list (string * string).
Variable render_mermaid_sources
  : list (string * option nat * string) -> bool -> list Problem.
Variable validate_openapi : bool -> list Problem * nat.
Variable now : string.

Lemma counted_passes label (result : list Problem * nat) :
  passes (Some (counted float label result)) <-> fst result = [].
Proof.
  unfold passes, counted. destruct result as [[|p ps] count]; cbn.
  - split; [done|]. intros _. by eexists.
  - split; [|done]. intros (ev & H). discriminate.
Qed.

Lemma counted_code label (result : list Problem * nat) :
  snd (counted float label result) = 0%Z
  \/ snd (counted float label result) = 1%Z.
Proof. unfold counted. destruct result as [[|p ps] count]; cbn; auto. Qed.

Lemma fail_if_problems_cases {R} (ps : list Problem) :
  snd (@fail_if_problems R ps) = 0%Z \/ snd (@fail_if_problems R ps) = 1%Z.
Proof. destruct ps; cbn; auto. Qed.

Lemma some_pair_code {R} (x : list (Event R) * Z) ev code :
  Some x = Some (ev, code) -> snd x = code.
Proof. by intros [= ->]. Qed.

Lemma app_nil_7 (a b c d e f g : list Problem) :
  a ++ b ++ c ++ d ++ e ++ f ++ g = []
  <-> a = [] /\ b = [] /\ c = [] /\ d = [] /\ e = [] /\ f = [] /\ g = [].
Proof.
  split.
  - intros H. repeat (apply app_eq_nil in H as [? H]). done.
  - by intros (-> & -> & -> & -> & -> & -> & ->).
Qed.

(** X18: the command [all] passes exactly when each of the six commands
    of a single check passes, the diagram and the interface checks with
    the flags given to [all]; and whatever the command, the exit code is 0
    or 1 when the program returns. *)
Theorem all_passes_iff_each_check_passes
    (env : Env) (contracts : Contracts) (files : list (Path * string))
    (require_renderer require_openapi_validator : bool) :
  (passes (main repo_root fs fromisoformat int_of_str repr_str float
             float_zero round_percent mmd_files render_mermaid_sources
             validate_openapi now env contracts files
             (CmdAll require_renderer require_openapi_validator))
   <-> passes (main repo_root fs fromisoformat int_of_str repr_str float
             float_zero round_percent mmd_files render_mermaid_sources
             validate_openapi now env contracts files CmdStructure)
       /\ passes (main repo_root fs fromisoformat int_of_str repr_str float
             float_zero round_percent mmd_files render_mermaid_sources
             validate_openapi now env contracts files CmdFrontmatter)
       /\ passes (main repo_root fs fromisoformat int_of_str repr_str float
             float_zero round_percent mmd_files render_mermaid_sources
             validate_openapi now env contracts files CmdSop)
       /\ passes (main repo_root fs fromisoformat int_of_str repr_str float
             float_zero round_percent mmd_files render_mermaid_sources
             validate_openapi now env contracts files CmdLinks)
       /\ passes (main repo_root fs fromisoformat int_of_str repr_str float
             float_zero round_percent mmd_files render_mermaid_sources
             validate_openapi now env contracts files (CmdMermaid require_renderer))
       /\ passes (main repo_root fs fromisoformat int_of_str repr_str float
             float_zero round_percent mmd_files render_mermaid_sources
             validate_openapi now env contracts files
                    (CmdOpenapi require_openapi_validator)))
  /\ (forall command events code,
        main repo_root fs fromisoformat int_of_str repr_str float
             float_zero round_percent mmd_files render_mermaid_sources
             validate_openapi now env contracts files command = Some (events, code) ->
        code = 0%Z \/ code = 1%Z).
Proof.
  unfold main.
  destruct (collect_docs repo_root files) as [[records parse_problems]|];
    cbn [mbind option_bind].
  2:{ split; [|done]. split; [by intros (ev & H)|by intros ((ev & H) & _)]. }
  split.
  - unfold run_all.
    destruct (validate_frontmatter _ _ _ _ _ _ _) as [fm|];
      cbn [mbind option_bind].
    2:{ split; [by intros (ev & H)|by intros (_ & (ev & H) & _)]. }
    destruct (validate_sop_headings _ _ _) as [sop|]; cbn [mbind option_bind].
    2:{ split; [by intros (ev & H)|by intros (_ & _ & (ev & H) & _)]. }
    destruct (validate_links _ _ _) as [links|]; cbn [mbind option_bind].
    2:{ split; [by intros (ev & H)|by intros (_ & _ & _ & (ev & H) & _)]. }
    rewrite !counted_passes.
    destruct (validate_mermaid _ _ _ _) as [mp mc].
    destruct (validate_openapi _) as [op oc]. cbn [fst].
    rewrite !fail_if_problems_passes, app_nil_7.
    split.
    + intros (-> & -> & -> & -> & -> & -> & ->). done.
    + intros (-> & H & -> & -> & -> & ->).
      apply app_eq_nil in H as [-> ->]. done.
  - intros command events code.
    destruct command as [| | | |rr|rv|rr rv|output].
    + intros H. apply some_pair_code in H as <-. apply fail_if_problems_cases.
    + destruct (validate_frontmatter _ _ _ _ _ _ _); cbn [mbind option_bind]; [|done].
      intros H. apply some_pair_code in H as <-. apply fail_if_problems_cases.
    + destruct (validate_sop_headings _ _ _); cbn [mbind option_bind]; [|done].
      intros H. apply some_pair_code in H as <-. apply fail_if_problems_cases.
    + destruct (validate_links _ _ _); cbn [mbind option_bind]; [|done].
      intros H. apply some_pair_code in H as <-. apply fail_if_problems_cases.
    + intros H. apply some_pair_code in H as <-. apply counted_code.
    + intros H. apply some_pair_code in H as <-. apply counted_code.
    + unfold run_all.
      destruct (validate_frontmatter _ _ _ _ _ _ _); cbn [mbind option_bind]; [|done].
      destruct (validate_sop_headings _ _ _); cbn [mbind option_bind]; [|done].
      destruct (validate_links _ _ _); cbn [mbind option_bind]; [|done].
      destruct (validate_mermaid _ _ _ _), (validate_openapi _).
      intros H. apply some_pair_code in H as <-. apply fail_if_problems_cases.
    + unfold write_audit_report.
      destruct (validate_frontmatter _ _ _ _ _ _ _); cbn [mbind option_bind]; [|done].
      destruct (validate_sop_headings _ _ _); cbn [mbind option_bind]; [|done].
      destruct (validate_links _ _ _); cbn [mbind option_bind]; [|done].
      destruct (validate_mermaid _ _ _ _), (validate_openapi _).
      destruct (frontmatter_freshness_metrics _ _ _ _ _) as [[[? ?] ?]|];
        cbn [mbind option_bind]; [|done].
      destruct (_ ++ _); intros [= _ <-]; auto.
Qed.

(** X19: the audit-report command is the command [all] without its two
    flags, after the report is written: it returns exactly when [all]
    does, with the same exit code, and what it prints after the path of the
    report is what [all] prints. *)
Theorem audit_report_agrees_with_all
    (env : Env) (contracts : Contracts) (files : list (Path * string))
    (output : Path) :
  exists report,
    main repo_root fs fromisoformat int_of_str repr_str float
             float_zero round_percent mmd_files render_mermaid_sources
             validate_openapi now env contracts files (CmdAuditReport output)
    = (fun result => (audit_events output report ++ fst result, snd result))
        <$> main repo_root fs fromisoformat int_of_str repr_str float
             float_zero round_percent mmd_files render_mermaid_sources
             validate_openapi now env contracts files (CmdAll false false).
Proof.
  unfold main.
  destruct (collect_docs repo_root files) as [[records parse_problems]|];
    cbn [mbind option_bind].
  2:{ by exists (mkReport float now 0 0 ∅ float_zero [] 0 0 0
                   (mkIssueCounts 0 0 0 0 0 0 0)). }
  unfold run_all, write_audit_report, frontmatter_freshness_metrics,
    validate_frontmatter.
  destruct (stale_days_of int_of_str env contracts) as [stale_days|];
    cbn [mbind option_bind].
  2:{ by exists (mkReport float now 0 0 ∅ float_zero [] 0 0 0
                   (mkIssueCounts 0 0 0 0 0 0 0)). }
  destruct (current_date fromisoformat env) as [today|];
    cbn [mbind option_bind].
  2:{ by exists (mkReport float now 0 0 ∅ float_zero [] 0 0 0
                   (mkIssueCounts 0 0 0 0 0 0 0)). }
  destruct (mapM _ records) as [fm|]; cbn [fmap option_fmap option_map mbind option_bind].
  2:{ by exists (mkReport float now 0 0 ∅ float_zero [] 0 0 0
                   (mkIssueCounts 0 0 0 0 0 0 0)). }
  destruct (validate_sop_headings _ _ _) as [sop|]; cbn [mbind option_bind].
  2:{ by exists (mkReport float now 0 0 ∅ float_zero [] 0 0 0
                   (mkIssueCounts 0 0 0 0 0 0 0)). }
  destruct (validate_links _ _ _) as [links|]; cbn [mbind option_bind].
  2:{ by exists (mkReport float now 0 0 ∅ float_zero [] 0 0 0
                   (mkIssueCounts 0 0 0 0 0 0 0)). }
  destruct (validate_mermaid _ _ _ _) as [mp mc].
  destruct (validate_openapi false) as [op oc].
  destruct (fold_left _ records _) as [[fresh total] stale_docs].
  eexists. unfold fail_if_problems, audit_events.
  destruct (_ ++ _) as [|p ps]; cbn [fmap option_fmap option_map fst snd];
    reflexivity.
Qed.

End CommandLemmas.

(** ** The collector on a listing *)

Section Collector.
Import Paths.

Variable repo_root : Path.

Lemma collect_one_is_Some file :
  is_Some (collect_one repo_root file)
  <-> is_Some (relative_to (fst file) repo_root).
Proof.
  destruct file as [p text]. unfold collect_one. cbn [fst].
  destruct (split_frontmatter text) as [[fm bd] errs].
  destruct (relative_to p repo_root) as [rel|]; cbn [mbind option_bind].
  - destruct (extract_headings_and_anchors bd). split; by eexists.
  - split; by intros [? ?].
Qed.

Lemma collect_one_Some file record ps :
  collect_one repo_root file = Some (record, ps) ->
  path record = fst file /\ doc_text record = snd file
  /\ ps = map (fun err => mkProblem "frontmatter" (rel_path record) err None)
            (snd (split_frontmatter (snd file))).
Proof.
  destruct file as [p text]. unfold collect_one. cbn [fst snd].
  destruct (split_frontmatter text) as [[fm bd] errs].
  destruct (relative_to p repo_root) as [rel|]; cbn [mbind option_bind];
    [|done].
  destruct (extract_headings_and_anchors bd). by intros [= <- <-].
Qed.

(** X20: the collector returns exactly when every file of the listing lies
    below the repository root.  It then gives one record for each file, in
    the order of the listing, with the path and the text of the file; and
    its problems are the errors of the metadata of the files, one problem
    for each error, with the check name [frontmatter], no line number and
    the relative path of the record of the file. *)
Theorem collector_gives_one_record_per_file (files : list (Path * string)) :
  (is_Some (collect_docs repo_root files)
   <-> Forall (fun file => is_Some (relative_to (fst file) repo_root)) files)
  /\ (forall records problems,
        collect_docs repo_root files = Some (records, problems) ->
        map path records = map fst files
        /\ map doc_text records = map snd files
        /\ length problems
           = length (concat (map (fun file =>
                                    snd (split_frontmatter (snd file)))
                               files))
        /\ forall p, p ∈ problems ->
             check p = "frontmatter" /\ line p = None
             /\ exists record,
                  record ∈ records /\ path_of p = rel_path record).
Proof.
  unfold collect_docs. split.
  - destruct (mapM (collect_one repo_root) files) as [rs|] eqn:E;
      cbn [mbind option_bind].
    + split; [|by eexists]. intros _.
      assert (is_Some (mapM (collect_one repo_root) files)) as H
        by (by rewrite E).
      apply mapM_is_Some in H. eapply Forall_impl; [exact H|].
      intros file. apply collect_one_is_Some.
    + split; [by intros [? ?]|]. intros H.
      assert (is_Some (mapM (collect_one repo_root) files)) as [? Hs].
      { apply mapM_is_Some. eapply Forall_impl; [exact H|].
        intros file. apply collect_one_is_Some. }
      congruence.
  - intros records problems.
    destruct (mapM (collect_one repo_root) files) as [rs|] eqn:E;
      cbn [mbind option_bind]; [|done].
    intros [= <- <-]. apply mapM_Some in E.
    induction E as [|file [record ps] files rs H _ IH]; cbn.
    { split; [done|]. split; [done|]. split; [done|].
      intros p Hp. by apply elem_of_nil in Hp. }
    destruct IH as (IH1 & IH2 & IH3 & IH4).
    destruct (collect_one_Some _ _ _ H) as (H1 & H2 & H3).
    rewrite H1, H2, IH1, IH2. split; [done|]. split; [done|]. split.
    + rewrite !length_app, IH3, H3, length_map. done.
    + intros p Hp. apply elem_of_app in Hp as [Hp|Hp].
      * rewrite H3 in Hp. apply list_elem_of_fmap in Hp as (err & Hq & _).
        rewrite Hq.
        split; [done|]. split; [done|]. exists record. split; [by left|done].
      * destruct (IH4 p Hp) as (Hc & Hl & r & Hr & Hp').
        split; [done|]. split; [done|]. exists r. split; [by right|done].
Qed.

End Collector.

(** ** Line numbers of a document with metadata *)

Lemma drop_last_empty_lookup block i l :
  drop_last_empty block !! i = Some l -> block !! i = Some l.
Proof.
  revert i. induction block as [|p block IH]; intros i; [done|].
  destruct block as [|q more].
  - destruct p; [done|]. done.
  - change (drop_last_empty (p :: q :: more))
      with (p :: drop_last_empty (q :: more)).
    destruct i as [|i]; [done|]. cbn. apply IH.
Qed.

(** X21: the line numbers of the links of a collected document count from
    its body, not from its file.  For a document whose metadata block has
    the lines [block] between its two delimiter lines, a link of the record
    with the line number [n] stands in the file on the line
    [n + length block + 2], counted from 1: the number of lines of the
    block and of its two delimiters is left out. *)
Theorem link_lines_count_from_the_body
    (repo_root p : Path) (text : string)
    (first closing : list ascii) (block after : list (list ascii))
    (record : DocRecord) (problems : list Problem) (link : LinkRef) :
  collect_one repo_root (p, text) = Some (record, problems) ->
  begins_with_delimiter text = true ->
  Py.splitlines (Py.chars text) = first :: block ++ closing :: after ->
  Forall (fun l => is_delim l = false) block ->
  is_delim closing = true ->
  link ∈ links record ->
  1 <= link_line link
  /\ exists l,
       Py.splitlines (Py.chars text) !! (link_line link + length block + 1)
       = Some l
       /\ link ∈ line_links (link_line link) l.
Proof.
  intros Hc Hb Hlines Hblock Hclosing Hlink.
  unfold collect_one in Hc.
  rewrite (split_frontmatter_parsed text first block closing after) in Hc
    by done.
  destruct (Paths.relative_to p repo_root) as [rel|];
    cbn [mbind option_bind] in Hc; [|done].
  destruct (extract_headings_and_anchors _) as [hs ans].
  injection Hc as <- _. cbn [links] in Hlink.
  unfold extract_links, body_lines in Hlink. rewrite chars_text in Hlink.
  pose proof (splitlines_lines (Py.chars text)) as Hnl. rewrite Hlines in Hnl.
  apply Forall_cons in Hnl as [_ Hnl]. apply Forall_app in Hnl as [_ Hnl].
  apply Forall_cons in Hnl as [_ Hnl].
  rewrite splitlines_join in Hlink by done.
  apply links_loop_spec in Hlink as (i & l & Hi & _ & _ & Hl).
  apply drop_last_empty_lookup in Hi.
  assert (link_line link = S i) as Hn.
  { unfold line_links in Hl. by apply list_elem_of_fmap in Hl as (g & -> & _). }
  rewrite Hn. split; [lia|]. exists l. split; [|done].
  rewrite Hlines.
  replace (S i + length block + 1) with (S (length block + S i)) by lia.
  change ((first :: block ++ closing :: after) !! S (length block + S i))
    with ((block ++ closing :: after) !! (length block + S i)).
  rewrite lookup_app_r by lia.
  replace (length block + S i - length block) with (S i) by lia. done.
Qed.

Lemma link_lines_count_from_the_body_witness :
  let text := "---
title: A
---
# A
see [b](b.md)" in
  exists l,
    Py.splitlines (Py.chars text) !! 4 = Some l
    /\ mkLinkRef "b.md" 2 ∈ line_links 2 l.
Proof.
  intros text.
  assert (exists record problems,
            collect_one ["repo"] (["repo"; "docs"; "a.md"], text)
            = Some (record, problems)
            /\ links record = [mkLinkRef "b.md" 2])
    as (record & problems & Hc & Hl).
  { eexists _, _. split; vm_compute; reflexivity. }
  destruct (link_lines_count_from_the_body ["repo"] ["repo"; "docs"; "a.md"]
              text (Py.chars "---") (Py.chars "---") [Py.chars "title: A"]
              [Py.chars "# A"; Py.chars "see [b](b.md)"]
              record problems (mkLinkRef "b.md" 2) Hc)
    as [_ H].
  - vm_compute. reflexivity.
  - vm_compute. reflexivity.
  - constructor; [vm_compute; reflexivity|constructor].
  - vm_compute. reflexivity.
  - rewrite Hl. by left.
  - exact H.
Defined.

(** ** Inline lists *)

Section InlineLists.
Import Py.

Lemma is_quote_nospace q : is_quote q = true -> isspace q = false.
Proof.
  unfold is_quote. intros H. apply orb_true_iff in H as [H|H];
    apply ch_eqb_eq in H; by subst.
Qed.

Lemma inline_items_plain item buf rest :
  Forall (fun c => is_quote c = false /\ (code c =? 44) = false) item ->
  inline_items None buf (item ++ rest)
  = inline_items None (rev item ++ buf) rest.
Proof.
  intros H. revert buf. induction H as [|c item [Hq Hc] _ IH]; intros buf.
  - done.
  - cbn [app inline_items]. rewrite Hq, Hc, IH. cbn [rev].
    by rewrite <- app_assoc.
Qed.

Lemma inline_items_inside q s buf rest :
  Forall (fun c => ch_eqb c q = false) s ->
  inline_items (Some q) buf (s ++ q :: rest)
  = inline_items None (q :: rev s ++ buf) rest.
Proof.
  intros H. revert buf. induction H as [|c s Hc _ IH]; intros buf.
  - cbn [app inline_items rev].
    by rewrite (proj2 (ch_eqb_eq q q) eq_refl).
  - cbn [app inline_items]. rewrite Hc, IH. cbn [rev].
    by rewrite <- app_assoc.
Qed.

Lemma inline_items_clean item buf rest :
  clean_item item ->
  inline_items None buf (item ++ rest)
  = inline_items None (rev item ++ buf) rest.
Proof.
  intros [(_ & _ & H)|(q & s & -> & Hq & Hs)].
  - by apply inline_items_plain.
  - cbn [app inline_items]. rewrite Hq, <- app_assoc. cbn [app].
    rewrite inline_items_inside by done. cbn [rev].
    rewrite rev_app_distr. cbn [rev app]. by rewrite <- app_assoc.
Qed.

Lemma clean_item_fixed item :
  clean_item item -> item <> [] /\ strip item = item.
Proof.
  intros [(H1 & H2 & _)|(q & s & -> & Hq & _)]; [done|].
  split; [done|]. apply strip_quoted. by apply is_quote_nospace.
Qed.

Lemma strip_fixed_parts item :
  item <> [] -> strip item = item ->
  head_nonspace item /\ rstrip item = item.
Proof.
  intros Hne Hs. assert (head_nonspace item) as Hh.
  { rewrite <- Hs. apply head_nonspace_strip. }
  split; [done|]. unfold strip in Hs.
  destruct item as [|c item]; [done|]. cbn in Hh. cbn [lstrip] in Hs.
  by rewrite Hh in Hs.
Qed.

Lemma rstrip_app_fixed a b :
  b <> [] -> rstrip b = b -> rstrip (a ++ b) = a ++ b.
Proof.
  intros Hne Hb. induction a as [|c a IH]; [done|].
  cbn [app]. rewrite rstrip_cons, IH. destruct (a ++ b) eqn:E; [|done].
  apply app_eq_nil in E as [_ ->]. done.
Qed.

Lemma join_cons2 sep p q more :
  join sep (p :: q :: more) = p ++ sep ++ join sep (q :: more).
Proof. reflexivity. Qed.

Lemma join_clean_fixed items :
  items <> [] -> Forall clean_item items ->
  join (chars ", ") items <> []
  /\ head_nonspace (join (chars ", ") items)
  /\ rstrip (join (chars ", ") items) = join (chars ", ") items.
Proof.
  intros Hne H. induction H as [|p items Hp Hitems IH]; [done|].
  destruct (clean_item_fixed p Hp) as [Hpne Hps].
  destruct (strip_fixed_parts p Hpne Hps) as [Hh Hr].
  destruct items as [|q more]; [done|].
  destruct IH as (IH1 & IH2 & IH3); [done|].
  rewrite join_cons2. split; [|split].
  - destruct p; [done|]. done.
  - destruct p; [done|]. done.
  - rewrite app_assoc. by apply rstrip_app_fixed.
Qed.

Lemma inline_items_join ws items :
  items <> [] -> Forall clean_item items ->
  Forall (fun c => isspace c = true) ws ->
  inline_items None ws (join (chars ", ") items) = items.
Proof.
  intros Hne H. revert ws. induction H as [|p items Hp Hitems IH]; [done|].
  intros ws Hws. destruct (clean_item_fixed p Hp) as [Hpne Hps].
  assert (strip (rev (rev p ++ ws)) = p) as Hstrip.
  { rewrite rev_app_distr, rev_involutive.
    rewrite <- (app_nil_r p), (strip_padded (rev ws) p []), Hps, app_nil_r;
      [done| |done].
    by apply Forall_rev. }
  assert (rev p ++ ws <> []) as Hbuf.
  { intros E. apply app_eq_nil in E as [E _].
    apply (f_equal (@rev ascii)) in E. rewrite rev_involutive in E. done. }
  destruct items as [|q more].
  - cbn [join]. rewrite <- (app_nil_r p) at 1.
    rewrite inline_items_clean by done. cbn [inline_items].
    destruct (rev p ++ ws) eqn:E; [done|]. by rewrite Hstrip.
  - rewrite join_cons2, inline_items_clean by done.
    change (chars ", " ++ join (chars ", ") (q :: more))
      with (ascii_of_nat 44 :: ascii_of_nat 32 :: join (chars ", ") (q :: more)).
    cbn [inline_items].
    change (is_quote (ascii_of_nat 44)) with false.
    change (code (ascii_of_nat 44) =? 44) with true.
    change (is_quote (ascii_of_nat 32)) with false.
    change (code (ascii_of_nat 32) =? 44) with false.
    cbn iota. rewrite Hstrip. f_equal. apply IH; [done|].
    by repeat constructor.
Qed.

Lemma filter_keeps_Forall {A} (f : A -> bool) (l : list A) :
  Forall (fun x => f x = true) l -> List.filter f l = l.
Proof.
  induction 1 as [|x l Hx _ IH]; cbn [List.filter]; [done|].
  by rewrite Hx, IH.
Qed.

(** X22: an inline list written from clean items is read back as the
    scalars of its items: the items are split at the commas that stand
    outside of quotes, the space after a comma is dropped, and no item is
    lost.  The empty list of items gives the empty list. *)
Theorem inline_list_round_trip (items : list (list ascii)) :
  Forall clean_item items ->
  parse_inline_list (inline_list items) = map parse_scalar items.
Proof.
  intros H. unfold parse_inline_list, inline_list.
  change (tl (chars "[" ++ join (chars ", ") items ++ chars "]"))
    with (join (chars ", ") items ++ chars "]").
  change (chars "]") with [ascii_of_nat 93]. rewrite removelast_snoc.
  destruct items as [|p items]; [done|].
  destruct (join_clean_fixed (p :: items)) as (Hne & Hh & Hr); [done|done|].
  assert (strip (join (chars ", ") (p :: items))
          = join (chars ", ") (p :: items)) as ->.
  { unfold strip. destruct (join (chars ", ") (p :: items)) as [|c j] eqn:E;
      [done|]. cbn in Hh. cbn [lstrip]. by rewrite Hh. }
  destruct (join (chars ", ") (p :: items)) as [|c j] eqn:E; [done|].
  rewrite <- E, inline_items_join by (done || constructor).
  f_equal. apply filter_keeps_Forall.
  eapply Forall_impl; [exact H|]. intros item Hitem.
  destruct (clean_item_fixed item Hitem) as [Hine Hs].
  rewrite Hs. apply negb_true_iff, list_eqb_neq. done.
Qed.

End InlineLists.

Lemma inline_list_round_trip_witness :
  parse_inline_list (Py.chars "[dev, 'a, b', true]")
  = [SStr "dev"; SStr "a, b"; SBool true].
Proof.
  apply (inline_list_round_trip
           [Py.chars "dev"; Py.chars "'a, b'"; Py.chars "true"]).
  constructor; [|constructor; [|constructor; [|constructor]]].
  - left. split; [done|]. split; [reflexivity|]. by repeat constructor.
  - right. exists squote, (Py.chars "a, b"). split; [reflexivity|].
    split; [reflexivity|]. by repeat constructor.
  - left. split; [done|]. split; [reflexivity|]. by repeat constructor.
Defined.

(** ** Links and images *)

Section LinkPattern.
Import Py Re.

Lemma span_stop (p : ascii -> bool) a c r :
  Forall (fun x => p x = true) a -> p c = false ->
  span p (a ++ c :: r) = (a, c :: r).
Proof.
  intros Ha Hc. induction Ha as [|x a Hx _ IH]; cbn [app span].
  - by rewrite Hc.
  - by rewrite Hx, IH.
Qed.

Lemma link_at_no_open c l : (code c =? 91) = false -> link_at (c :: l) = None.
Proof. intros H. cbn [link_at]. by rewrite H. Qed.

Lemma finditer_no_open b k l :
  no_open_bracket l -> finditer b k l = [].
Proof.
  intros H. revert b k. induction H as [|c l Hc _ IH]; intros b k; [done|].
  cbn [finditer]. destruct k as [|k]; [|apply IH].
  destruct b; [apply IH|]. rewrite (link_at_no_open c l Hc). apply IH.
Qed.

Lemma finditer_pre b pre rest :
  no_open_bracket pre ->
  finditer b 0 (pre ++ rest)
  = finditer (fold_left (fun _ c => code c =? 33) pre b) 0 rest.
Proof.
  intros H. revert b. induction H as [|c pre Hc _ IH]; intros b; [done|].
  cbn [app finditer fold_left]. destruct b; [apply IH|].
  rewrite (link_at_no_open c _ Hc). apply IH.
Qed.

Lemma link_at_link label tgt post :
  label <> [] -> tgt <> [] ->
  Forall (fun c => (code c =? 93) = false) label ->
  Forall (fun c => (code c =? 41) = false) tgt ->
  link_at (link_text label tgt ++ post)
  = Some (tgt, 1 + length label + 2 + length tgt + 1).
Proof.
  intros Hl Ht Hlabel Htgt. unfold link_text.
  change (chars "[" ++ label ++ chars "](" ++ tgt ++ chars ")")
    with (ascii_of_nat 91 :: (label ++ ascii_of_nat 93 :: ascii_of_nat 40
                                :: (tgt ++ [ascii_of_nat 41]))).
  cbn [app link_at]. change (code (ascii_of_nat 91) =? 91) with true.
  cbn iota. rewrite <- app_assoc. cbn [app]. rewrite span_stop.
  - destruct label as [|c label]; [done|].
    change (code (ascii_of_nat 40) =? 40) with true. cbn iota.
    rewrite <- app_assoc. cbn [app]. rewrite span_stop.
    + by destruct tgt.
    + eapply Forall_impl; [exact Htgt|]. intros x Hx. by rewrite Hx.
    + reflexivity.
  - eapply Forall_impl; [exact Hlabel|]. intros x Hx. by rewrite Hx.
  - reflexivity.
Qed.

(** X23: an image is no link.  On a line that holds one link text (a
    label between square brackets, then a target between parentheses) and
    no other opening square bracket, the pattern of the links finds the
    target when the character before the link text is no exclamation mark,
    and finds nothing when it is one. *)
Theorem image_is_no_link (pre label tgt post : list ascii) :
  label <> [] -> tgt <> [] ->
  Forall (fun c => (code c =? 93) = false) label ->
  Forall (fun c => (code c =? 41) = false) tgt ->
  no_open_bracket pre -> no_open_bracket label -> no_open_bracket tgt ->
  no_open_bracket post ->
  MARKDOWN_LINK_RE (pre ++ link_text label tgt ++ post)
  = if ends_with_bang pre then [] else [tgt].
Proof.
  intros Hl Ht Hlabel Htgt Hpre Hlo Hto Hpo.
  unfold MARKDOWN_LINK_RE, ends_with_bang. rewrite finditer_pre by done.
  assert (no_open_bracket (label ++ chars "](" ++ tgt ++ chars ")" ++ post))
    as Hrest.
  { apply Forall_app. split; [done|]. apply Forall_app.
    split; [by repeat constructor|]. apply Forall_app. split; [done|].
    apply Forall_app. split; [by repeat constructor|done]. }
  destruct (fold_left _ pre false) eqn:Eb.
  - unfold link_text. rewrite <- !app_assoc.
    change (chars "[" ++ label ++ chars "](" ++ tgt ++ chars ")" ++ post)
      with (ascii_of_nat 91
              :: (label ++ chars "](" ++ tgt ++ chars ")" ++ post)).
    cbn [finditer]. by apply finditer_no_open.
  - pose proof (link_at_link label tgt post Hl Ht Hlabel Htgt) as Hat.
    unfold link_text in *. rewrite <- !app_assoc in *.
    change (chars "[" ++ label ++ chars "](" ++ tgt ++ chars ")" ++ post)
      with (ascii_of_nat 91
              :: (label ++ chars "](" ++ tgt ++ chars ")" ++ post)) in *.
    cbn [finditer]. rewrite Hat. f_equal. by apply finditer_no_open.
Qed.

End LinkPattern.

Lemma image_is_no_link_witness :
  Re.MARKDOWN_LINK_RE (Py.chars "see ![logo](logo.png) here") = [].
Proof.
  apply (image_is_no_link (Py.chars "see !") (Py.chars "logo")
           (Py.chars "logo.png") (Py.chars " here"));
    try discriminate; by repeat constructor.
Defined.
